(** * osmpbf: the OSM PBF reader of [osmpbf.py]

    A shallow embedding of the decoding pipeline of [osmpbf.py] (varint and
    tag/value readers, packed and delta decoders, the block framing loop,
    the header, string table, group and dense node decoders, the query and
    the loop of [main]), followed by the properties established of it.

    Conventions of the embedding.
    - A Python [bytes] object is a [list byte]; a Python [int] is a [Z].
    - A file object ([io.BytesIO], or the opened input file) is the list of
      the bytes that remain to be read: [file.read(n)] splits it.
    - A function that may raise returns a [result]; the exception raised is
      an [exn].
    - A generator is the list of the items it yields, in order, together with
      the way it ends ([gen]); a [for] loop over it runs its body on every
      item and then meets the end of the generator.
    - The interpreter is CPython 3.11 with its defaults ([sys.maxsize] is
      [2 ^ 63 - 1], integers of more than 4300 digits are not converted to
      text). Its memory is not bounded: no read fails for want of memory. *)

From Stdlib Require Import ZArith List Lia Strings.Byte Strings.String Strings.Ascii.
From Stdlib Require DecimalString.
From stdpp Require Import base list gmap.

Local Open Scope Z_scope.

(** ** Values, exceptions, results *)

Abbreviation bytes := (list byte).

(** A Python [str]: its code points. *)
Abbreviation pystr := (list Z).

(** The value of a decoded field: [pbuf_read_tagval] gives an [int] for wire
    type 0 and a [bytes] for wire type 2. *)
Inductive value : Type :=
| VInt (i : Z)
| VBytes (s : bytes).

Global Instance byte_eq_dec : EqDecision byte := Byte.byte_eq_dec.

Global Instance value_eq_dec : EqDecision value.
Proof. solve_decision. Defined.

(** The exceptions of the embedded code. [FuelExhausted] is no Python
    exception: it is what a bounded loop of the embedding answers when its
    bound is reached; the [_python] lemmas show that this never happens. *)
Inductive exn : Type :=
| UnexpectedEOF                       (* Exception('unexpected EOF') *)
| UnhandledField (f t : Z)            (* Exception('unhandled field f type t') *)
| UnhandledEncoding (s : gset Z)      (* Exception('unahndled encoding s') *)
| UnhandledTag (t : Z)                (* Exception('unhandled tag t in string table') *)
| AssertionError
| TypeError
| AttributeError
| IndexError
| OverflowError
| ValueError
| StopIteration
| RuntimeError                        (* a StopIteration leaving a generator *)
| UnboundLocalError (name : string)
| UnicodeDecodeError
| StructError                         (* struct.error *)
| ZlibError                           (* zlib.error *)
| FuelExhausted.

Inductive result (A : Type) : Type :=
| Ok (a : A)
| Raise (e : exn).
Arguments Ok {A} a.
Arguments Raise {A} e.

Definition bind {A B : Type} (r : result A) (k : A -> result B) : result B :=
  match r with
  | Ok a => k a
  | Raise e => Raise e
  end.

Notation "'let*' p ':=' r 'in' k" :=
  (bind r (fun p => k))
  (at level 10, p pattern, r at level 100, k at level 200).

(** A generator: the items yielded, then [None] when the generator returns
    and [Some e] when it raises [e]. *)
Definition gen (A : Type) : Type := (list A * option exn)%type.

Definition gen_cons {A : Type} (a : A) (g : gen A) : gen A := (a :: g.1, g.2).

Definition gen_app {A : Type} (l : list A) (g : gen A) : gen A := (l ++ g.1, g.2).

(** [for x in g: s = body(s, x)], a loop that yields nothing. *)
Fixpoint for_list {A S : Type} (body : S -> A -> result S) (xs : list A) (s : S)
  : result S :=
  match xs with
  | [] => Ok s
  | x :: xs' => let* s' := body s x in for_list body xs' s'
  end.

Definition for_gen {A S : Type} (body : S -> A -> result S) (g : gen A) (s : S)
  : result S :=
  let* s' := for_list body g.1 s in
  match g.2 with
  | None => Ok s'
  | Some e => Raise e
  end.

(** The same loop inside a generator: each turn of the body yields some items
    and then either goes on or raises. [yield_list] runs the body over the
    items at hand: what has been yielded, and the state reached or the
    exception raised. *)
Fixpoint yield_list {A B S : Type} (body : S -> A -> list B * result S)
  (xs : list A) (s : S) : list B * result S :=
  match xs with
  | [] => ([], Ok s)
  | x :: xs' =>
      let (out, r) := body s x in
      match r with
      | Ok s' => let (out', r') := yield_list body xs' s' in (out ++ out', r')
      | Raise e => (out, Raise e)
      end
  end.

Definition yield_gen {A B S : Type} (body : S -> A -> list B * result S)
  (g : gen A) (s : S) : gen B :=
  let (out, r) := yield_list body g.1 s in
  (out, match r with Ok _ => g.2 | Raise e => Some e end).

(** ** Bytes and the file cursor *)

Definition byte_val (b : byte) : Z := Z.of_N (Byte.to_N b).

Definition len {A : Type} (l : list A) : Z := Z.of_nat (length l).

(** [file.read(n)] for [n >= 0]: the bytes read and the file after them. *)
Definition read (n : Z) (file : bytes) : bytes * bytes :=
  (take (Z.to_nat n) file, drop (Z.to_nat n) file).

(** [sys.maxsize]: no bytes object and no file is longer, and [file.read]
    takes no larger count. *)
Definition maxsize : Z := 2 ^ 63 - 1.

(** [file.read(n)] for a count [n] that was read from the file. A count
    above [sys.maxsize] does not fit the size type of the interpreter:
    [OverflowError]. Such a count is above the length of every file; on a
    list so long that it holds the count, which stands for no file, the
    count is served. *)
Definition read_count (n : Z) (file : bytes) : result (bytes * bytes) :=
  if (maxsize <? n) && (len file <? n) then Raise OverflowError
  else Ok (read n file).

(** Truth value of an [int] and of a [bytes]. *)
Definition truthy (i : Z) : bool := negb (i =? 0).

Definition nonempty {A : Type} (l : list A) : bool :=
  match l with [] => false | _ => true end.

(** ** The varint codec *)

(** The [while t] loop of [pbuf_read_varint], one turn per byte read. *)
Fixpoint varint_loop (file : bytes) (r l i : Z) : result (Z * Z * bytes) :=
  match file with
  | [] => Raise UnexpectedEOF
  | s :: file' =>
      let l := l + 1 in
      let x := byte_val s in
      let r := Z.lor r (Z.shiftl (Z.land x 0x7f) i) in
      let i := i + 7 in
      let t := Z.land x 0x80 in
      if truthy t then varint_loop file' r l i else Ok (r, l, file')
  end.

Definition pbuf_read_varint (file : bytes) : result (Z * Z * bytes) :=
  varint_loop file 0 0 0.

Definition pbuf_read_varsint (file : bytes) : result (Z * Z * bytes) :=
  let* (v, l, file) := pbuf_read_varint file in
  let v := if truthy (Z.land v 1) then - (Z.shiftr v 1) else Z.shiftr v 1 in
  Ok (v, l, file).

(** ** The tag/value reader *)

(** The [while n > 0] loop of [pbuf_read_str]; [s] is unbound until the
    first read. *)
Fixpoint str_loop (fuel : nat) (file : bytes) (n : Z) (s : option bytes)
  (val : bytes) : result (option bytes * bytes * bytes) :=
  if n >? 0 then
    match fuel with
    | O => Raise FuelExhausted
    | S fuel' =>
        let* (s', file') := read_count n file in
        if nonempty s'
        then str_loop fuel' file' (n - len s') (Some s') (val ++ s')
        else Ok (Some s', val, file')
    end
  else Ok (s, val, file).

Definition pbuf_read_str (file : bytes) : result (bytes * Z * bytes) :=
  let* (n, l, file) := pbuf_read_varint file in
  if negb (truthy n) then Ok ([], l, file)
  else
    let* (s, val, file) := str_loop (S (length file)) file n None [] in
    match s with
    | Some s => Ok (s, len val + l, file)
    | None => Raise (UnboundLocalError "s")
    end.

Definition pbuf_read_tag (file : bytes) : result (Z * Z * Z * bytes) :=
  let* (v, l, file) := pbuf_read_varint file in
  let f := Z.shiftr v 3 in
  let t := Z.land v 7 in
  Ok (f, t, l, file).

Definition pbuf_read_tagval (file : bytes) : result (Z * value * Z * bytes) :=
  let* (f, t, n, file) := pbuf_read_tag file in
  if t =? 0 then
    let* (i, l, file) := pbuf_read_varint file in
    Ok (f, VInt i, n + l, file)
  else if t =? 2 then
    let* (s, l, file) := pbuf_read_str file in
    Ok (f, VBytes s, n + l, file)
  else Raise (UnhandledField f t).

(** [assert size == 0] *)
Definition assert_zero (size : Z) : option exn :=
  if size =? 0 then None else Some AssertionError.

(** The [while size > 0] loop of the generator [pbuf_parse_tagvals]. *)
Fixpoint tagvals_loop (fuel : nat) (file : bytes) (size : Z) : gen (Z * value) :=
  if size >? 0 then
    match fuel with
    | O => ([], Some FuelExhausted)
    | S fuel' =>
        match pbuf_read_tagval file with
        | Ok (t, v, l, file') => gen_cons (t, v) (tagvals_loop fuel' file' (size - l))
        | Raise e => ([], Some e)
        end
    end
  else ([], assert_zero size).

(** [io.BytesIO(data)] wants a bytes object. *)
Definition BytesIO (data : value) : result bytes :=
  match data with
  | VBytes s => Ok s
  | VInt _ => Raise TypeError
  end.

Definition pbuf_parse_tagvals (data : value) : gen (Z * value) :=
  match BytesIO data with
  | Ok file => tagvals_loop (S (length file)) file (len file)
  | Raise e => ([], Some e)
  end.

(** ** Packed and delta-coded arrays *)

Fixpoint packed_loop (fuel : nat) (file : bytes) (size : Z) (vals : list Z)
  : result (list Z) :=
  if size >? 0 then
    match fuel with
    | O => Raise FuelExhausted
    | S fuel' =>
        let* (v, l, file') := pbuf_read_varint file in
        packed_loop fuel' file' (size - l) (vals ++ [v])
    end
  else
    match assert_zero size with
    | None => Ok vals
    | Some e => Raise e
    end.

Definition pbuf_parse_packed (data : value) : result (list Z) :=
  let* file := BytesIO data in
  packed_loop (S (length file)) file (len file) [].

Fixpoint deltas_loop (fuel : nat) (file : bytes) (size : Z) (v : Z)
  (vals : list Z) : result (list Z) :=
  if size >? 0 then
    match fuel with
    | O => Raise FuelExhausted
    | S fuel' =>
        let* (d, l, file') := pbuf_read_varsint file in
        let v := v + d in
        deltas_loop fuel' file' (size - l) v (vals ++ [v])
    end
  else
    match assert_zero size with
    | None => Ok vals
    | Some e => Raise e
    end.

Definition pbuf_parse_packed_deltas (data : value) : result (list Z) :=
  match data with
  | VInt _ => Raise TypeError                      (* len(data) *)
  | VBytes s =>
      let size := len s in
      if negb (truthy size) then Ok []
      else
        let file := s in
        let* (v, l, file) := pbuf_read_varsint file in
        let size := size - l in
        deltas_loop (S (length file)) file size v [v]
  end.

(** ** Text *)

(** [s.decode()]: strict UTF-8, as [bytes.decode] does it. *)
Definition utf8_cont (x : Z) : bool := (0x80 <=? x) && (x <=? 0xBF).

Fixpoint utf8_decode (s : bytes) : result pystr :=
  match s with
  | [] => Ok []
  | b0 :: s1 =>
      let x0 := byte_val b0 in
      if x0 <? 0x80 then
        let* r := utf8_decode s1 in Ok (x0 :: r)
      else if (0xC2 <=? x0) && (x0 <=? 0xDF) then
        match s1 with
        | b1 :: s2 =>
            let x1 := byte_val b1 in
            if utf8_cont x1 then
              let* r := utf8_decode s2 in
              Ok (Z.lor (Z.shiftl (Z.land x0 0x1F) 6) (Z.land x1 0x3F) :: r)
            else Raise UnicodeDecodeError
        | _ => Raise UnicodeDecodeError
        end
      else if (0xE0 <=? x0) && (x0 <=? 0xEF) then
        match s1 with
        | b1 :: b2 :: s3 =>
            let x1 := byte_val b1 in
            let x2 := byte_val b2 in
            let lo := if x0 =? 0xE0 then 0xA0 else 0x80 in
            let hi := if x0 =? 0xED then 0x9F else 0xBF in
            if (lo <=? x1) && (x1 <=? hi) && utf8_cont x2 then
              let* r := utf8_decode s3 in
              Ok (Z.lor (Z.shiftl (Z.land x0 0x0F) 12)
                    (Z.lor (Z.shiftl (Z.land x1 0x3F) 6) (Z.land x2 0x3F)) :: r)
            else Raise UnicodeDecodeError
        | _ => Raise UnicodeDecodeError
        end
      else if (0xF0 <=? x0) && (x0 <=? 0xF4) then
        match s1 with
        | b1 :: b2 :: b3 :: s4 =>
            let x1 := byte_val b1 in
            let x2 := byte_val b2 in
            let x3 := byte_val b3 in
            let lo := if x0 =? 0xF0 then 0x90 else 0x80 in
            let hi := if x0 =? 0xF4 then 0x8F else 0xBF in
            if (lo <=? x1) && (x1 <=? hi) && utf8_cont x2 && utf8_cont x3 then
              let* r := utf8_decode s4 in
              Ok (Z.lor (Z.shiftl (Z.land x0 0x07) 18)
                    (Z.lor (Z.shiftl (Z.land x1 0x3F) 12)
                       (Z.lor (Z.shiftl (Z.land x2 0x3F) 6) (Z.land x3 0x3F))) :: r)
            else Raise UnicodeDecodeError
        | _ => Raise UnicodeDecodeError
        end
      else Raise UnicodeDecodeError
  end.

Definition decode (s : value) : result pystr :=
  match s with
  | VBytes s => utf8_decode s
  | VInt _ => Raise AttributeError
  end.

(** ** The block framing layer *)

(** [dict(vals)]: a later pair replaces an earlier one with the same key. *)
Definition dict (vals : list (Z * value)) : gmap Z value :=
  foldl (fun m kv => <[kv.1 := kv.2]> m) ∅ vals.

(** What [pbf_read] yields next to the type label: the decompressed bytes, or
    the body message itself. *)
Inductive payload : Type :=
| PBytes (v : bytes)
| PDict (m : gmap Z value).

(** Truth value of [m.get(k)]. *)
Definition truthy_get (v : option value) : bool :=
  match v with
  | None => false
  | Some (VInt i) => truthy i
  | Some (VBytes s) => nonempty s
  end.

(** [struct.unpack('>I', s)] *)
Definition unpack_I (s : bytes) : result Z :=
  match s with
  | [b0; b1; b2; b3] =>
      Ok (byte_val b0 * 2 ^ 24 + byte_val b1 * 2 ^ 16 + byte_val b2 * 2 ^ 8 + byte_val b3)
  | _ => Raise StructError
  end.

Fixpoint message_loop (fuel : nat) (file : bytes) (size : Z)
  (vals : list (Z * value)) : result (list (Z * value) * bytes) :=
  if size >? 0 then
    match fuel with
    | O => Raise FuelExhausted
    | S fuel' =>
        let* (t, v, l, file') := pbuf_read_tagval file in
        message_loop fuel' file' (size - l) (vals ++ [(t, v)])
    end
  else
    match assert_zero size with
    | None => Ok (vals, file)
    | Some e => Raise e
    end.

Definition read_message (file : bytes) (size : value)
  : result (gmap Z value * bytes) :=
  match size with
  | VBytes _ => Raise TypeError                    (* size > 0 *)
  | VInt size =>
      let* (vals, file) := message_loop (S (length file)) file size [] in
      Ok (dict vals, file)
  end.

Definition read_header (file : bytes) : result (option (gmap Z value) * bytes) :=
  let (s, file) := read 4 file in
  if negb (nonempty s) then Ok (None, file)
  else
    let* size := unpack_I s in
    let* (m, file) := read_message file (VInt size) in
    Ok (Some m, file).

(** [not h], for the [h] that [read_header] returns. *)
Definition falsy_header (h : option (gmap Z value)) : bool :=
  match h with
  | None => true
  | Some m => bool_decide (m = ∅)
  end.

Section Framing.

(** [zlib.decompress] on a bytes object; [None] when it raises
    [zlib.error]. *)
Variable decompress : bytes -> option bytes.

Definition zlib_decompress (v : option value) : result bytes :=
  match v with
  | Some (VBytes z) =>
      match decompress z with
      | Some v => Ok v
      | None => Raise ZlibError
      end
  | _ => Raise TypeError
  end.

(** [len(v) == n] *)
Definition len_eq (v : bytes) (n : value) : bool :=
  match n with
  | VInt n => len v =? n
  | VBytes _ => false
  end.

(** One turn of the [while True] loop of [pbf_read]: the loop breaks
    ([None]), or yields a frame and goes on with the rest of the file. *)
Definition pbf_read_turn (file : bytes)
  : result (option (option value * payload * bytes)) :=
  let* (h, file) := read_header file in
  if falsy_header h then Ok None
  else
    let h := default ∅ h in
    let t := h !! 1 in
    let n := default (VInt 0) (h !! 3) in
    let* (m, file) := read_message file n in
    if truthy_get (m !! 1) then Ok (Some (t, PDict m, file))
    else
      let n := default (VInt 0) (m !! 2) in
      if truthy_get (m !! 3) then
        let* v := zlib_decompress (m !! 3) in
        if len_eq v n then Ok (Some (t, PBytes v, file))
        else Raise AssertionError
      else Raise (UnhandledEncoding (dom m ∖ {[2]})).

Fixpoint pbf_read_loop (fuel : nat) (file : bytes) : gen (option value * payload) :=
  match fuel with
  | O => ([], Some FuelExhausted)
  | S fuel' =>
      match pbf_read_turn file with
      | Raise e => ([], Some e)
      | Ok None => ([], None)
      | Ok (Some (t, m, file')) => gen_cons (t, m) (pbf_read_loop fuel' file')
      end
  end.

Definition pbf_read (file : bytes) : gen (option value * payload) :=
  pbf_read_loop (S (length file)) file.

End Framing.

(** ** Header and data blocks *)

(** A field of the header block: field 1 is replaced by the list of its own
    fields. *)
Inductive header_field : Type :=
| HValue (v : value)
| HFields (vs : list (Z * value)).

(** [list(g)] *)
Definition list_of_gen {A : Type} (g : gen A) : result (list A) :=
  match g.2 with
  | None => Ok g.1
  | Some e => Raise e
  end.

Fixpoint header_block_loop (fuel : nat) (file : bytes) (size : Z)
  (vals : list (Z * header_field)) : result (list (Z * header_field)) :=
  if size >? 0 then
    match fuel with
    | O => Raise FuelExhausted
    | S fuel' =>
        let* (t, v, l, file') := pbuf_read_tagval file in
        let size := size - l in
        let* v := if t =? 1
                  then let* vs := list_of_gen (pbuf_parse_tagvals v) in Ok (HFields vs)
                  else Ok (HValue v) in
        header_block_loop fuel' file' size (vals ++ [(t, v)])
    end
  else Ok vals.

Definition osm_read_header_block (data : payload) : result (list (Z * header_field)) :=
  match data with
  | PDict _ => Raise TypeError                     (* io.BytesIO(data) *)
  | PBytes s => header_block_loop (S (length s)) s (len s) []
  end.

Definition osm_read_stringtable (data : value) : result (list pystr) :=
  for_gen
    (fun names '(t, s) =>
       if t =? 1 then let* n := decode s in Ok (names ++ [n])
       else Raise (UnhandledTag t))
    (pbuf_parse_tagvals data) [].

(** A point: the tuple that [osm_read_dense_nodes] builds, or the field list
    that [osm_read_node] returns. *)
Inductive node : Type :=
| DenseNode (id lat lon : Z) (kvs : list (pystr * pystr))
| RawNode (fields : list (Z * value)).

Definition osm_read_node (data : value) (names : option (list pystr))
  : result (list (Z * value)) :=
  for_gen (fun vals tv => Ok (vals ++ [tv])) (pbuf_parse_tagvals data) [].

(** [names[i]]; [names] is [None] until a string table has been read. *)
Definition subscript (names : option (list pystr)) (i : Z) : result pystr :=
  match names with
  | None => Raise TypeError
  | Some l =>
      let j := if i <? 0 then len l + i else i in
      if j <? 0 then Raise IndexError
      else match l !! Z.to_nat j with
           | Some s => Ok s
           | None => Raise IndexError
           end
  end.

(** The loop [for i in gs] over the packed tag run; [next(gs)] in its body
    takes the following element of the same iterator. *)
Fixpoint tags_loop (names : option (list pystr)) (gs : list Z)
  (kvs : list (list (pystr * pystr))) (node : list (pystr * pystr))
  : result (list (list (pystr * pystr)) * list (pystr * pystr)) :=
  match gs with
  | [] => Ok (kvs, node)
  | i :: gs' =>
      if i =? 0 then tags_loop names gs' (kvs ++ [node]) []
      else
        let* k := subscript names i in
        match gs' with
        | [] => Raise StopIteration
        | i :: gs'' =>
            let* v := subscript names i in
            tags_loop names gs'' kvs (node ++ [(k, v)])
        end
  end.

(** The local variables of [osm_read_dense_nodes] that the final check
    reads; [None] while unbound. *)
Record dense_locals : Type := {
  ids : option (list Z);
  lats : option (list Z);
  lons : option (list Z);
  kvs : option (list (list (pystr * pystr)))
}.

Definition dense_unbound : dense_locals :=
  {| ids := None; lats := None; lons := None; kvs := None |}.

(** The body of the loop over the fields of the dense message. *)
Definition dense_field (names : option (list pystr)) (st : dense_locals)
  (tv : Z * value) : result dense_locals :=
  let (t, v) := tv in
  if t =? 1 then
    let* a := pbuf_parse_packed_deltas v in
    Ok {| ids := Some a; lats := lats st; lons := lons st; kvs := kvs st |}
  else if t =? 8 then
    let* a := pbuf_parse_packed_deltas v in
    Ok {| ids := ids st; lats := Some a; lons := lons st; kvs := kvs st |}
  else if t =? 9 then
    let* a := pbuf_parse_packed_deltas v in
    Ok {| ids := ids st; lats := lats st; lons := Some a; kvs := kvs st |}
  else if t =? 10 then
    let* packed := pbuf_parse_packed v in
    let* (k, _) := tags_loop names packed [] [] in
    Ok {| ids := ids st; lats := lats st; lons := lons st; kvs := Some k |}
  else Ok st.

(** Reading a local variable. *)
Definition load {A : Type} (name : string) (x : option A) : result A :=
  match x with
  | Some a => Ok a
  | None => Raise (UnboundLocalError name)
  end.

(** [assert len(ids) == len(lats) == len(lons) == len(kvs)]: the operands are
    evaluated from the left, and the chain stops at the first comparison that
    is false. *)
Definition dense_check (st : dense_locals)
  : result (list Z * list Z * list Z * list (list (pystr * pystr))) :=
  let* a := load "ids" (ids st) in
  let* b := load "lats" (lats st) in
  if negb (len a =? len b) then Raise AssertionError
  else
    let* c := load "lons" (lons st) in
    if negb (len b =? len c) then Raise AssertionError
    else
      let* d := load "kvs" (kvs st) in
      if negb (len c =? len d) then Raise AssertionError
      else Ok (a, b, c, d).

(** [list(zip(ids, lats, lons, kvs))] *)
Fixpoint zip4 (a b c : list Z) (d : list (list (pystr * pystr))) : list node :=
  match a, b, c, d with
  | x :: a', y :: b', z :: c', w :: d' => DenseNode x y z w :: zip4 a' b' c' d'
  | _, _, _, _ => []
  end.

Definition osm_read_dense_nodes (data : value) (names : option (list pystr))
  : result (list node) :=
  let* st := for_gen (dense_field names) (pbuf_parse_tagvals data) dense_unbound in
  let* (a, b, c, d) := dense_check st in
  Ok (zip4 a b c d).

(** The body of the loop of [osm_read_group]. *)
Definition group_field (names : option (list pystr)) (vals : list node)
  (tv : Z * value) : result (list node) :=
  let (t, v) := tv in
  if t =? 1 then
    let* v := osm_read_node v names in Ok (vals ++ [RawNode v])
  else if t =? 2 then
    let* vs := osm_read_dense_nodes v names in Ok (vals ++ vs)
  else Ok vals.

Definition osm_read_group (data : value) (names : option (list pystr))
  : result (list node) :=
  for_gen (group_field names) (pbuf_parse_tagvals data) [].

(** An exception that leaves a generator: a [StopIteration] becomes a
    [RuntimeError]. *)
Definition leaving_generator (e : exn) : exn :=
  match e with
  | StopIteration => RuntimeError
  | _ => e
  end.

(** The body of the loop of [osm_read_data_block]: what it yields, and the
    string table afterwards. *)
Definition block_field (names : option (list pystr)) (tv : Z * value)
  : list (Z * list node) * result (option (list pystr)) :=
  let (t, v) := tv in
  if t =? 2 then
    match osm_read_group v names with
    | Ok v => ([(t, v)], Ok names)
    | Raise e => ([], Raise (leaving_generator e))
    end
  else if t =? 1 then
    match osm_read_stringtable v with
    | Ok names => ([], Ok (Some names))
    | Raise e => ([], Raise (leaving_generator e))
    end
  else ([], Ok names).

Definition osm_read_data_block (data : payload) : gen (Z * list node) :=
  match data with
  | PDict _ => ([], Some TypeError)                (* io.BytesIO(data) *)
  | PBytes s => yield_gen block_field (pbuf_parse_tagvals (VBytes s)) None
  end.

(** The body of the loop of [osm_enumerate_nodes]. *)
Definition enumerate_field (_ : unit) (tv : Z * list node)
  : list node * result unit :=
  let (t, v) := tv in
  if t =? 2 then (v, Ok tt) else ([], Ok tt).

Definition osm_enumerate_nodes (data : payload) : gen node :=
  yield_gen enumerate_field (osm_read_data_block data) tt.

(** ** The record iterator *)

(** [h == b'...'] *)
Definition is_label (h : option value) (s : string) : bool :=
  match h with
  | Some (VBytes b) => bool_decide (b = list_byte_of_string s)
  | _ => false
  end.

(** The loop of [main] over the frames, without the query, the printing and
    the limit on the number of matches: the nodes that the loop hands to the
    query, in order, and the way it ends. *)
Definition main_frame (_ : unit) (hm : option value * payload)
  : list node * result unit :=
  let (h, m) := hm in
  if is_label h "OSMHeader" then
    match osm_read_header_block m with
    | Ok _ => ([], Ok tt)
    | Raise e => ([], Raise e)
    end
  else if is_label h "OSMData" then
    let g := osm_enumerate_nodes m in
    (g.1, match g.2 with None => Ok tt | Some e => Raise e end)
  else ([], Ok tt).

Definition main_nodes (decompress : bytes -> option bytes) (file : bytes) : gen node :=
  yield_gen main_frame (pbf_read decompress file) tt.

(** ** Encoders

    The program only decodes. The encoders below write the format that it
    reads; the round-trip properties and the examples are stated with them. *)

(** The byte of value [x], for [0 <= x < 256]. *)
Definition byte_of (x : Z) : byte := default "000"%byte (Byte.of_N (Z.to_N x)).

Definition bytes_of (l : list Z) : bytes := map byte_of l.

(** Modelled from the spec: [encode_varint], the base-128 encoding that
    [read_varint] inverts: seven bits per byte from the low end, the high bit
    set on every byte but the last. *)
Fixpoint varint_bytes (fuel : nat) (x : Z) : bytes :=
  match fuel with
  | O => []
  | S fuel' =>
      if x <? 128 then [byte_of x]
      else byte_of (Z.lor (Z.land x 0x7f) 0x80) :: varint_bytes fuel' (Z.shiftr x 7)
  end.

Definition encode_varint (x : Z) : bytes :=
  varint_bytes (S (Z.to_nat (Z.log2 x))) x.

(** Modelled from the spec: the zig-zag encoding of a signed 64-bit integer,
    the mapping 0, -1, 1, -2, 2, ... to 0, 1, 2, 3, 4, ... of the
    serialization format. *)
Definition zigzag (n : Z) : Z := Z.lxor (Z.shiftl n 1) (Z.shiftr n 63).

(** Modelled from the spec: [encode_signed_varint]. *)
Definition encode_signed_varint (n : Z) : bytes := encode_varint (zigzag n).

(** Modelled from the spec: the delta encoding of a sequence, its first
    element and then the difference of each element from the one before it,
    each as a signed varint. *)
Fixpoint deltas (prev : Z) (xs : list Z) : list Z :=
  match xs with
  | [] => []
  | x :: xs' => (x - prev) :: deltas x xs'
  end.

Definition encode_packed_deltas (xs : list Z) : bytes :=
  concat (map encode_signed_varint (deltas 0 xs)).

Definition encode_packed (xs : list Z) : bytes :=
  concat (map encode_varint xs).

(** A field of wire type 2 and a field of wire type 0. *)
Definition field_bytes (f : Z) (s : bytes) : bytes :=
  encode_varint (Z.lor (Z.shiftl f 3) 2) ++ encode_varint (len s) ++ s.

Definition field_int (f : Z) (i : Z) : bytes :=
  encode_varint (Z.shiftl f 3) ++ encode_varint i.

(** [struct.pack('>I', n)] *)
Definition pack_I (n : Z) : bytes :=
  bytes_of [Z.shiftr n 24 mod 256; Z.shiftr n 16 mod 256; Z.shiftr n 8 mod 256; n mod 256].

(** A frame: the length of the header message, the header message with the
    type label and the length of the body, and the body message. *)
Definition frame (label : string) (body : bytes) : bytes :=
  let header := field_bytes 1 (list_byte_of_string label) ++ field_int 3 (len body) in
  pack_I (len header) ++ header ++ body.

(** ** A decompressor for the examples *)

Definition adler32 (s : bytes) : Z :=
  let '(a, b) :=
    fold_left (fun '(a, b) x =>
                 let a := (a + byte_val x) mod 65521 in (a, (b + a) mod 65521))
      s (1, 0) in
  b * 65536 + a.

(** [zlib_stored] inflates the zlib streams made of one stored block: the
    header 78 01, the block header 01, the length of the data and its
    complement on two bytes each, low byte first, the data, and its Adler-32
    checksum. On these it is [zlib.decompress]; it answers [None] on every
    other input, and is used at no other input. *)
Definition zlib_stored (z : bytes) : option bytes :=
  match z with
  | cmf :: flg :: hd :: l0 :: l1 :: n0 :: n1 :: rest =>
      let size := byte_val l0 + 256 * byte_val l1 in
      let nsize := byte_val n0 + 256 * byte_val n1 in
      let data := take (Z.to_nat size) rest in
      if (byte_val cmf =? 0x78) && (byte_val flg =? 0x01) && (byte_val hd =? 0x01)
         && (size + nsize =? 0xffff) && (len rest =? size + 4)
         && match unpack_I (drop (Z.to_nat size) rest) with
            | Ok sum => sum =? adler32 data
            | Raise _ => false
            end
      then Some data else None
  | _ => None
  end.

(** The stream that [zlib_stored] inflates to [data] (of at most 65535
    bytes). *)
Definition zlib_store (data : bytes) : bytes :=
  bytes_of [0x78; 0x01; 0x01;
            len data mod 256; Z.shiftr (len data) 8;
            (0xffff - len data) mod 256; Z.shiftr (0xffff - len data) 8]
  ++ data ++ pack_I (adler32 data).

(** ** The position of the framing loop

    [pbf_reaches decompress file frames file']: the loop of [pbf_read],
    started on [file], has yielded [frames] and is about to read the next
    frame from [file']. *)
Inductive pbf_reaches (decompress : bytes -> option bytes)
  : bytes -> list (option value * payload) -> bytes -> Prop :=
| pbf_reaches_start file :
    pbf_reaches decompress file [] file
| pbf_reaches_turn file t m file1 frames file' :
    pbf_read_turn decompress file = Ok (Some (t, m, file1)) ->
    pbf_reaches decompress file1 frames file' ->
    pbf_reaches decompress file ((t, m) :: frames) file'.

(** The [str] of an ASCII literal. *)
Definition str (s : string) : pystr := map byte_val (list_byte_of_string s).

(** ** Example inputs *)

(** The string table message with the two entries "amenity" and "cafe". *)
Definition scenario_strtab : bytes :=
  bytes_of [10; 7; 97; 109; 101; 110; 105; 116; 121;    (* field 1: "amenity" *)
            10; 4; 99; 97; 102; 101].                    (* field 1: "cafe" *)

(** The dense message: ids 100, +1; lats 10, +0; lons 20, +1 (zig-zag
    varints); tag run 1, 2, 0, 0. *)
Definition scenario_dense : bytes :=
  bytes_of [10; 3; 200; 1; 2;                            (* field 1 *)
            66; 2; 20; 0;                                (* field 8 *)
            74; 2; 40; 2;                                (* field 9 *)
            82; 4; 1; 2; 0; 0].                          (* field 10 *)

(** The data block: the string table (field 1), then a group (field 2)
    holding the dense message (field 2). *)
Definition scenario_block : bytes :=
  bytes_of [10; 15] ++ scenario_strtab ++ bytes_of [18; 21; 18; 19] ++ scenario_dense.

(** The same block with one more entry, the empty string, at the head of
    its string table. *)
Definition indexed_block : bytes :=
  bytes_of [10; 17; 10; 0] ++ scenario_strtab
  ++ bytes_of [18; 21; 18; 19] ++ scenario_dense.

(** A frame carrying [data] compressed: the declared size in field 2 of the
    body, the zlib stream in field 3. *)
Definition stored_frame (label : string) (data : bytes) : bytes :=
  frame label (field_int 2 (len data) ++ field_bytes 3 (zlib_store data)).

(** The same frame with another size declared in field 2. *)
Definition declared_frame (label : string) (size : Z) (data : bytes) : bytes :=
  frame label (field_int 2 size ++ field_bytes 3 (zlib_store data)).

(** A frame carrying [data] as it is, in field 1 of the body. *)
Definition raw_frame (label : string) (data : bytes) : bytes :=
  frame label (field_bytes 1 data).

Definition scenario_file : bytes :=
  stored_frame "OSMHeader" [] ++ stored_frame "OSMData" scenario_block.

Definition indexed_file : bytes :=
  stored_frame "OSMHeader" [] ++ stored_frame "OSMData" indexed_block.

(** The two points of the scenario. *)
Definition scenario_nodes : list node :=
  [DenseNode 100 10 20 [(str "amenity", str "cafe")]; DenseNode 101 10 21 []].

(** A dense message with two ids and one latitude, the group that holds it
    and the data block that holds the group. *)
Definition corrupt_dense : bytes :=
  bytes_of [10; 3; 200; 1; 2;                            (* ids 100, +1 *)
            66; 1; 20;                                   (* lats 10 *)
            74; 2; 40; 2;                                (* lons 20, +1 *)
            82; 4; 1; 2; 0; 0].                          (* tag run 1, 2, 0, 0 *)

Definition corrupt_group : bytes := bytes_of [18; 18] ++ corrupt_dense.

Definition corrupt_block : bytes :=
  bytes_of [10; 17; 10; 0] ++ scenario_strtab ++ bytes_of [18; 20] ++ corrupt_group.

(** A file with the corrupt block in its first frame, and one with the
    corrupt block between two frames that decode. *)
Definition aborted_file : bytes :=
  stored_frame "OSMData" corrupt_block ++ stored_frame "OSMData" indexed_block.

Definition interrupted_file : bytes :=
  stored_frame "OSMData" indexed_block
  ++ stored_frame "OSMData" corrupt_block ++ stored_frame "OSMData" indexed_block.

(** A dense message with one id, no latitude (field 8 is there, and empty),
    and neither field 9 nor field 10. *)
Definition short_dense : bytes :=
  bytes_of [10; 2; 200; 1;                               (* ids 100 *)
            66; 0].                                      (* lats, empty *)

(** The dense message of the scenario with the pair 2, 1 after the last
    sentinel of its tag run; the same with three ids. *)
Definition trailing_dense : bytes :=
  bytes_of [10; 3; 200; 1; 2;
            66; 2; 20; 0;
            74; 2; 40; 2;
            82; 6; 1; 2; 0; 0; 2; 1].

Definition trailing_dense3 : bytes :=
  bytes_of [10; 4; 200; 1; 2; 2;
            66; 3; 20; 0; 0;
            74; 3; 40; 2; 0;
            82; 6; 1; 2; 0; 0; 2; 1].

(** The dense message of the scenario with the key index 1 and no value
    index after the last sentinel of its tag run; the same with the pair
    5, 1, whose key index is no position of a string table of three
    entries. *)
Definition dangling_dense : bytes :=
  bytes_of [10; 3; 200; 1; 2;
            66; 2; 20; 0;
            74; 2; 40; 2;
            82; 5; 1; 2; 0; 0; 1].

Definition unresolved_dense : bytes :=
  bytes_of [10; 3; 200; 1; 2;
            66; 2; 20; 0;
            74; 2; 40; 2;
            82; 6; 1; 2; 0; 0; 5; 1].

(** The two type labels, as [pbf_read] yields them. *)
Definition OSMData : option value := Some (VBytes (list_byte_of_string "OSMData")).

Definition OSMHeader : option value := Some (VBytes (list_byte_of_string "OSMHeader")).

(** A file with a length prefix 0 between two data frames. *)
Definition stopped_file : bytes :=
  stored_frame "OSMData" indexed_block
  ++ pack_I 0 ++ stored_frame "OSMData" indexed_block.

(** A file whose second frame declares one byte more than its payload has,
    and one whose second frame declares one byte less. *)
Definition oversized_file : bytes :=
  stored_frame "OSMData" indexed_block
  ++ declared_frame "OSMData" (len indexed_block + 1) indexed_block.

Definition undersized_file : bytes :=
  stored_frame "OSMData" indexed_block
  ++ declared_frame "OSMData" (len indexed_block - 1) indexed_block.

(** ** What the decoders return on encoded input *)

(** What [pbuf_read_varsint] returns for the zig-zag encoding of [d]. *)
Definition decoded (d : Z) : Z := if d <? 0 then d + 1 else d.

(** The mapping that [pbuf_read_varsint] inverts: the magnitude doubled, with
    the sign in the low bit. *)
Definition sign_in_low_bit (n : Z) : Z := if n <? 0 then 2 * (- n) + 1 else 2 * n.

(** The running sums of [ds] from [v]: what the accumulator of
    [pbuf_parse_packed_deltas] goes through. *)
Fixpoint sums (v : Z) (ds : list Z) : list Z :=
  match ds with
  | [] => []
  | d :: ds' => (v + d) :: sums (v + d) ds'
  end.

(** ** Notions used in the statements *)

(** An exception of the program, not the bound of a loop of the embedding. *)
Definition python_exn (e : exn) : Prop := e <> FuelExhausted.

(** The nodes of the groups that [osm_read_data_block] has yielded, as
    [osm_enumerate_nodes] passes them on. *)
Definition nodes_of (groups : list (Z * list node)) : list node :=
  concat (map (fun tv : Z * list node => if tv.1 =? 2 then tv.2 else []) groups).

(** The first of the four arrays of [osm_read_dense_nodes] that is unbound,
    in the order in which the final check reads them. *)
Definition first_unbound (st : dense_locals) : option string :=
  match ids st, lats st, lons st, kvs st with
  | None, _, _, _ => Some "ids"%string
  | Some _, None, _, _ => Some "lats"%string
  | Some _, Some _, None, _ => Some "lons"%string
  | Some _, Some _, Some _, None => Some "kvs"%string
  | Some _, Some _, Some _, Some _ => None
  end.

(** The arrays read before the first unbound one have the same length. *)
Definition agree_before (st : dense_locals) : bool :=
  match ids st, lats st, lons st, kvs st with
  | Some a, Some b, None, _ => len a =? len b
  | Some a, Some b, Some c, _ => (len a =? len b) && (len b =? len c)
  | _, _, _, _ => true
  end.

(** A run of key and value indices, as it lies in the packed array. *)
Definition flat (run : list (Z * Z)) : list Z :=
  concat (map (fun kv : Z * Z => [kv.1; kv.2]) run).

(** A pair of indices that the tag loop reads as a key and a value: the key
    index is not the sentinel, and both are positions of the string
    table. *)
Definition resolves (names : option (list pystr)) (kv : Z * Z) : Prop :=
  kv.1 <> 0
  /\ (exists k, subscript names kv.1 = Ok k)
  /\ (exists v, subscript names kv.2 = Ok v).

(** ** Encoded messages *)

(** The encoding of a field, by the type of its value, and of a message. *)
Definition encode_field (tv : Z * value) : bytes :=
  match tv.2 with
  | VInt i => field_int tv.1 i
  | VBytes s => field_bytes tv.1 s
  end.

Definition encode_fields (fields : list (Z * value)) : bytes :=
  concat (map encode_field fields).

(** A field that the encoders can write: the field number and an integer
    value are not negative. *)
Definition encodable (tv : Z * value) : Prop :=
  0 <= tv.1 /\ match tv.2 with VInt i => 0 <= i | VBytes _ => True end.

(** ** Encoded string tables and dense messages *)

(** The body of the loop of [osm_read_stringtable]. *)
Definition stringtable_field (names : list pystr) (tv : Z * value)
  : result (list pystr) :=
  let (t, s) := tv in
  if t =? 1 then let* n := decode s in Ok (names ++ [n])
  else Raise (UnhandledTag t).

(** The string table message with the entries [entries]. *)
Definition encode_stringtable (entries : list bytes) : bytes :=
  encode_fields (map (fun s : bytes => (1, VBytes s)) entries).

(** The string at position [i] of the string table, and the tag that a pair
    of indices stands for. *)
Definition name_at (names : option (list pystr)) (i : Z) : pystr :=
  match subscript names i with
  | Ok s => s
  | Raise _ => []
  end.

Definition tag_of (names : option (list pystr)) (kv : Z * Z) : pystr * pystr :=
  (name_at names kv.1, name_at names kv.2).

(** The packed tag array of a dense message: the pairs of every point, each
    point closed by the sentinel 0. *)
Definition tag_run (runs : list (list (Z * Z))) : list Z :=
  concat (map (fun run : list (Z * Z) => flat run ++ [0]) runs).

(** A pair of indices into a string table of [n] entries, the key index not
    being the sentinel. *)
Definition in_table (n : Z) (kv : Z * Z) : Prop :=
  0 < kv.1 < n /\ 0 <= kv.2 < n.

(** The dense message with the arrays [ids], [lats], [lons] and the tags
    [runs]. *)
Definition encode_dense (ids lats lons : list Z) (runs : list (list (Z * Z))) : bytes :=
  encode_fields [(1, VBytes (encode_packed_deltas ids));
                 (8, VBytes (encode_packed_deltas lats));
                 (9, VBytes (encode_packed_deltas lons));
                 (10, VBytes (encode_packed (tag_run runs)))].

(** ** Encoded files and header blocks *)

(** A frame with a compressed payload: the body carries the size of the
    payload [v] in field 2 and the compressed bytes [z] in field 3. *)
Definition compressed_frame (label : string) (z v : bytes) : bytes :=
  frame label (field_int 2 (len v) ++ field_bytes 3 z).

(** A file of such frames, each given by its label, its compressed bytes and
    its payload. *)
Definition encode_file (items : list (string * bytes * bytes)) : bytes :=
  concat (map (fun item : string * bytes * bytes =>
                 compressed_frame item.1.1 item.1.2 item.2) items).

(** A frame that [decompress] inflates: the compressed bytes are not empty
    and decompress to the payload, and the length of the header fits the
    four bytes of the length prefix. *)
Definition inflates (decompress : bytes -> option bytes)
  (item : string * bytes * bytes) : Prop :=
  item.1.2 <> []
  /\ decompress item.1.2 = Some item.2
  /\ len (encode_fields
            [(1, VBytes (list_byte_of_string item.1.1));
             (3, VInt (len (field_int 2 (len item.2) ++ field_bytes 3 item.1.2)))])
     < 2 ^ 32.

(** What [pbf_read] yields for a frame. *)
Definition yielded (item : string * bytes * bytes) : option value * payload :=
  (Some (VBytes (list_byte_of_string item.1.1)), PBytes item.2).

(** The encoding of a field of the header block: a field 1 holds a nested
    message. *)
Definition encode_header_field (tf : Z * header_field) : bytes :=
  match tf.2 with
  | HValue v => encode_field (tf.1, v)
  | HFields vs => encode_field (tf.1, VBytes (encode_fields vs))
  end.

Definition encode_header_block (fields : list (Z * header_field)) : bytes :=
  concat (map encode_header_field fields).

(** A field of the header block as [osm_read_header_block] gives it back:
    the nested list stands at the fields numbered 1 and only there. *)
Definition header_encodable (tf : Z * header_field) : Prop :=
  match tf.2 with
  | HValue v => tf.1 <> 1 /\ encodable (tf.1, v)
  | HFields vs => tf.1 = 1 /\ Forall encodable vs
  end.

(** ** The query

    [main] keeps the nodes that answer a query: a list of glob patterns
    [key] or [key=value], matched against the id and the tags of a node. *)

(** [sys.int_info.default_max_str_digits], the limit that the program
    leaves in place. *)
Definition max_str_digits : Z := 4300.

(** [str(i)] of an integer: its decimal digits, after a minus sign when it
    is negative. An integer of more than [max_str_digits] digits is
    refused: [ValueError]. *)
Definition str_int (i : Z) : result pystr :=
  if 10 ^ max_str_digits <=? Z.abs i then Raise ValueError
  else Ok (str (DecimalString.NilZero.string_of_int (Z.to_int i))).

(** [s.split('=', maxsplit=1)]: the text before the first '=' and, when
    there is one, the text after it. *)
Fixpoint split_eq (s : pystr) : pystr * option pystr :=
  match s with
  | [] => ([], None)
  | c :: s' =>
      if c =? 61 then ([], Some s')
      else let (k, v) := split_eq s' in (c :: k, v)
  end.

(** [node[i]] on a list. *)
Definition item {A : Type} (l : list A) (i : nat) : result A :=
  match l !! i with
  | Some x => Ok x
  | None => Raise IndexError
  end.

Section Query.

(** The compiled patterns: [compile s] is
    [re.compile(fnmatch.translate(s))], and [rmatch p s] tells whether
    [p.match(s)] finds a match. *)
Context {pattern : Type}.
Variable compile : pystr -> pattern.
Variable rmatch : pattern -> pystr -> bool.

(** The body of the loop of [_compile_query]. *)
Definition query_pair (s : pystr) : pattern * pattern :=
  match split_eq s with
  | (k, None) => (compile k, compile (str "*"))
  | (k, Some v) => (compile k, compile v)
  end.

Definition _compile_query (query : list pystr) : list (pattern * pattern) :=
  foldl (fun qs s => qs ++ [query_pair s]) [] query.

(** The loop [for q, (rk,rv) in enumerate(query)] of [_node_match] with its
    [break]: the index of the first pair of which both patterns match. *)
Fixpoint query_loop (query : list (pattern * pattern)) (q : nat) (k v : pystr)
  : option nat :=
  match query with
  | [] => None
  | (rk, rv) :: rest =>
      if rmatch rk k && rmatch rv v then Some q
      else query_loop rest (S q) k v
  end.

(** One item of the node, the id or a tag, against the query: [match] and
    [seen] afterwards. *)
Definition match_item (query : list (pattern * pattern))
  (st : list (pystr * pystr) * gset nat) (kv : pystr * pystr)
  : list (pystr * pystr) * gset nat :=
  match query_loop query 0 kv.1 kv.2 with
  | Some q => (st.1 ++ [kv], {[q]} ∪ st.2)
  | None => st
  end.

(** [_node_match]: [Ok None] when the function returns nothing. A node that
    [osm_read_node] returned is a list of fields: [node[0]] and [node[3]]
    are pairs of a field number and a value, and the loop [for k,v in kvs]
    over such a pair fails to unpack the field number. *)
Definition _node_match (nd : node) (query : list (pattern * pattern))
  : result (option (list (pystr * pystr))) :=
  match nd with
  | DenseNode id _ _ kvs =>
      let* nid := str_int id in
      let st := match_item query ([], ∅) (str "id", nid) in
      let st := foldl (match_item query) st kvs in
      if bool_decide (size st.2 = length query) then Ok (Some st.1) else Ok None
  | RawNode fields =>
      let* _ := item fields 0 in
      let* _ := item fields 3 in
      Raise TypeError
  end.

(** [(args.limit is not None) and (count >= args.limit)] *)
Definition limit_reached (limit : option Z) (count : Z) : bool :=
  match limit with
  | Some n => n <=? count
  | None => false
  end.

(** The loop of [main] over the nodes, with the query and the limit: the
    nodes printed, each with its match, and how the loop ends: [Ok None]
    when [main] returns at the limit, [Ok (Some count)] when the nodes are
    exhausted. *)
Fixpoint match_loop (query : list (pattern * pattern)) (limit : option Z)
  (nodes : list node) (count : Z)
  : list (node * list (pystr * pystr)) * result (option Z) :=
  match nodes with
  | [] => ([], Ok (Some count))
  | nd :: rest =>
      match _node_match nd query with
      | Raise e => ([], Raise e)
      | Ok None => match_loop query limit rest count
      | Ok (Some m) =>
          let count := count + 1 in
          if limit_reached limit count then ([(nd, m)], Ok None)
          else
            let (out, r) := match_loop query limit rest count in
            ((nd, m) :: out, r)
      end
  end.

(** [main] without the printing: the nodes that it prints, each with its
    match, and the exception that ends it, if any. The nodes come from the
    generators one at a time: what follows the node at which [main] returns
    is never decoded. *)
Definition main_matches (decompress : bytes -> option bytes)
  (query : list pystr) (limit : option Z) (file : bytes)
  : list (node * list (pystr * pystr)) * option exn :=
  let g := main_nodes decompress file in
  let (out, r) := match_loop (_compile_query query) limit g.1 0 in
  (out, match r with
        | Raise e => Some e
        | Ok None => None
        | Ok (Some _) => g.2
        end).

(** Both patterns of a pair match an item. *)
Definition pair_matches (p : pattern * pattern) (kv : pystr * pystr) : bool :=
  rmatch p.1 kv.1 && rmatch p.2 kv.2.

(** Some pair of the query matches the item. *)
Definition matched (query : list (pattern * pattern)) (kv : pystr * pystr) : bool :=
  existsb (fun p => pair_matches p kv) query.

(** The pair at position [q] of the query matches the item, and no pair
    before it does. *)
Definition answers (query : list (pattern * pattern)) (q : nat)
  (kv : pystr * pystr) : Prop :=
  (exists p, query !! q = Some p /\ pair_matches p kv = true)
  /\ forall i p, (i < q)%nat -> query !! i = Some p -> pair_matches p kv = false.

End Query.

(** A matcher for the examples: on the pattern [*] and on the patterns
    without a wildcard character it is the matcher of [fnmatch]; it is used
    on no other pattern. *)
Definition literal_match (p s : pystr) : bool :=
  bool_decide (p = str "*") || bool_decide (p = s).

(** * Properties *)

(** ** Bytes *)

Lemma byte_val_range (b : byte) : 0 <= byte_val b < 256.
Proof.
  unfold byte_val. pose proof (Byte.to_N_bounded b). lia.
Qed.

Lemma byte_val_of (x : Z) : 0 <= x < 256 -> byte_val (byte_of x) = x.
Proof.
  intros Hx. unfold byte_val, byte_of.
  destruct (Byte.of_N (Z.to_N x)) as [b|] eqn:E; simpl.
  - apply Byte.to_of_N in E. lia.
  - apply Byte.of_N_None_iff in E. lia.
Qed.

Lemma len_app {A : Type} (l1 l2 : list A) : len (l1 ++ l2) = len l1 + len l2.
Proof. unfold len. rewrite length_app. lia. Qed.

Lemma len_nonneg {A : Type} (l : list A) : 0 <= len l.
Proof. unfold len. lia. Qed.

Lemma nonempty_false {A : Type} (l : list A) : nonempty l = false -> l = [].
Proof. destruct l; [reflexivity | discriminate]. Qed.

Lemma truthy_false (i : Z) : truthy i = false -> i = 0.
Proof. unfold truthy. intros H. apply negb_false_iff in H. lia. Qed.

Lemma truthy_true (i : Z) : truthy i = true -> i <> 0.
Proof. unfold truthy. intros H. apply negb_true_iff in H. lia. Qed.

(** ** The varint reader *)

(** A varint read consumes [l] bytes, at least one. *)
Lemma varint_loop_consumes (file : bytes) :
  forall r l i v l' file',
    varint_loop file r l i = Ok (v, l', file') ->
    len file = len file' + (l' - l) /\ l < l'.
Proof.
  induction file as [|s file IH]; intros r l i v l' file' H; simpl in H.
  - discriminate.
  - destruct (truthy (Z.land (byte_val s) 128)).
    + apply IH in H. unfold len in *. simpl. lia.
    + inversion H; subst. unfold len. simpl. lia.
Qed.

Lemma pbuf_read_varint_consumes (file : bytes) v l file' :
  pbuf_read_varint file = Ok (v, l, file') ->
  len file = len file' + l /\ 0 < l.
Proof.
  intros H. apply varint_loop_consumes in H. lia.
Qed.

Lemma varint_loop_nonneg (file : bytes) :
  forall r l i v l' file',
    0 <= r -> 0 <= i ->
    varint_loop file r l i = Ok (v, l', file') -> 0 <= v.
Proof.
  induction file as [|s file IH]; intros r l i v l' file' Hr Hi H; simpl in H.
  - discriminate.
  - assert (Hacc : 0 <= Z.lor r (Z.shiftl (Z.land (byte_val s) 127) i)).
    { apply Z.lor_nonneg. split; [assumption|].
      apply Z.shiftl_nonneg. apply Z.land_nonneg. right. lia. }
    destruct (truthy (Z.land (byte_val s) 128)).
    + eapply IH; [exact Hacc | | exact H]. lia.
    + inversion H; subst. assumption.
Qed.

Lemma pbuf_read_varint_nonneg (file : bytes) v l file' :
  pbuf_read_varint file = Ok (v, l, file') -> 0 <= v.
Proof.
  intros H. eapply varint_loop_nonneg; [| | exact H]; lia.
Qed.

(** ** The string reader *)

(** [pbuf_read_str] in closed form. With [n] bytes declared and fewer than
    [n] left, [file.read(n)] raises [OverflowError] when [n] is above
    [sys.maxsize]; otherwise the loop reads what is left, meets the end of
    the file on its second turn, and the function returns the empty result
    of that last read. *)
Lemma pbuf_read_str_eq (file : bytes) :
  pbuf_read_str file =
  (let* (n, l, rest) := pbuf_read_varint file in
   if n =? 0 then Ok ([], l, rest)
   else if n <=? len rest
        then Ok (take (Z.to_nat n) rest, n + l, drop (Z.to_nat n) rest)
        else if maxsize <? n then Raise OverflowError
        else Ok ([], len rest + l, [])).
Proof.
  unfold pbuf_read_str.
  destruct (pbuf_read_varint file) as [[[n l] rest]|e] eqn:Hv; cbn [bind]; [|reflexivity].
  pose proof (pbuf_read_varint_nonneg _ _ _ _ Hv) as Hn.
  unfold truthy. rewrite negb_involutive.
  destruct (Z.eqb_spec n 0) as [Hn0|Hn0]; [reflexivity|].
  assert (Hpos : (n >? 0) = true) by (apply Z.gtb_lt; lia).
  cbn [str_loop]. rewrite Hpos. unfold read_count, read.
  pose proof (len_nonneg rest) as Hr.
  destruct (Z.leb_spec n (len rest)) as [Hle|Hgt].
  - replace (len rest <? n) with false by (symmetry; apply Z.ltb_ge; lia).
    rewrite andb_false_r. cbn [bind].
    assert (Hlen : len (take (Z.to_nat n) rest) = n).
    { unfold len in *. rewrite length_take. lia. }
    destruct (take (Z.to_nat n) rest) as [|b t] eqn:Ht.
    + unfold len in Hlen. simpl in Hlen. lia.
    + cbn [nonempty app]. rewrite Hlen, Z.sub_diag.
      destruct (length rest); cbn [str_loop]; change (0 >? 0) with false;
        cbn [bind]; rewrite Hlen; reflexivity.
  - replace (len rest <? n) with true by (symmetry; apply Z.ltb_lt; lia).
    rewrite andb_true_r.
    destruct (Z.ltb_spec maxsize n) as [Hbig|Hsmall]; [reflexivity|].
    cbn [bind].
    assert (Htk : take (Z.to_nat n) rest = rest)
      by (apply take_ge; unfold len in Hgt; lia).
    assert (Hdr : drop (Z.to_nat n) rest = [])
      by (apply drop_ge; unfold len in Hgt; lia).
    rewrite Htk, Hdr.
    destruct rest as [|b rest]; [reflexivity|].
    cbn [nonempty app length str_loop].
    assert (Hrem : (n - len (b :: rest) >? 0) = true) by (apply Z.gtb_lt; lia).
    rewrite Hrem. unfold read_count, read.
    replace (maxsize <? n - len (b :: rest)) with false
      by (symmetry; apply Z.ltb_ge; lia).
    cbn [andb bind]. rewrite take_nil, drop_nil. reflexivity.
Qed.

Lemma pbuf_read_str_consumes (file : bytes) s l file' :
  pbuf_read_str file = Ok (s, l, file') ->
  len file = len file' + l /\ 0 < l.
Proof.
  rewrite pbuf_read_str_eq.
  destruct (pbuf_read_varint file) as [[[n k] rest]|e] eqn:Hv; simpl; [|discriminate].
  pose proof (pbuf_read_varint_nonneg _ _ _ _ Hv) as Hn.
  apply pbuf_read_varint_consumes in Hv. destruct Hv as [Hlen Hk].
  pose proof (len_nonneg rest) as Hrest.
  destruct (Z.eqb_spec n 0) as [Hn0|Hn0].
  - intros H. inversion H; subst. lia.
  - destruct (Z.leb_spec n (len rest)) as [Hle|Hle].
    + intros H; inversion H; subst.
      assert (Hd : len (drop (Z.to_nat n) rest) = len rest - n).
      { unfold len in *. rewrite length_drop. lia. }
      rewrite Hd. lia.
    + destruct (maxsize <? n); [discriminate|].
      intros H; inversion H; subst. unfold len at 2. simpl. lia.
Qed.

(** What [pbuf_read_str] raises: the end of the file inside the length, or
    a length above [sys.maxsize]. *)
Lemma pbuf_read_str_raises (file : bytes) e :
  pbuf_read_str file = Raise e -> e = UnexpectedEOF \/ e = OverflowError.
Proof.
  rewrite pbuf_read_str_eq. unfold pbuf_read_varint.
  assert (Hloop : forall f r l i e', varint_loop f r l i = Raise e' -> e' = UnexpectedEOF).
  { induction f as [|s f IH]; intros r l i e' H; simpl in H.
    - congruence.
    - destruct (truthy (Z.land (byte_val s) 128)); [eauto | discriminate]. }
  destruct (varint_loop file 0 0 0) as [[[n k] rest]|e'] eqn:Hv; simpl.
  - destruct (n =? 0); [discriminate|]. destruct (n <=? len rest); [discriminate|].
    destruct (maxsize <? n); [|discriminate].
    intros H. inversion H; subst. right. reflexivity.
  - intros H. inversion H; subst. left. eauto.
Qed.

(** ** The tag/value reader *)

Lemma pbuf_read_tagval_consumes (file : bytes) f v l file' :
  pbuf_read_tagval file = Ok (f, v, l, file') ->
  len file = len file' + l /\ 0 < l.
Proof.
  unfold pbuf_read_tagval, pbuf_read_tag.
  destruct (pbuf_read_varint file) as [[[tag n] rest]|e] eqn:Hv; simpl; [|discriminate].
  apply pbuf_read_varint_consumes in Hv.
  destruct (Z.land tag 7 =? 0).
  - destruct (pbuf_read_varint rest) as [[[i k] rest']|e] eqn:Hi; simpl; [|discriminate].
    apply pbuf_read_varint_consumes in Hi. intros H. inversion H; subst. lia.
  - destruct (Z.land tag 7 =? 2); [|discriminate].
    destruct (pbuf_read_str rest) as [[[s k] rest']|e] eqn:Hs; simpl; [|discriminate].
    apply pbuf_read_str_consumes in Hs. intros H. inversion H; subst. lia.
Qed.

Lemma pbuf_read_tagval_shorter (file : bytes) f v l file' :
  pbuf_read_tagval file = Ok (f, v, l, file') ->
  (length file' < length file)%nat.
Proof.
  intros H. apply pbuf_read_tagval_consumes in H. unfold len in H. lia.
Qed.

(** The bounded loops never reach their bound: any two bounds above the
    length of the file give the same result. *)
Lemma tagvals_loop_fuel (fuel : nat) :
  forall fuel' file size,
    (length file < fuel)%nat -> (length file < fuel')%nat ->
    tagvals_loop fuel file size = tagvals_loop fuel' file size.
Proof.
  induction fuel as [|fuel IH]; intros [|fuel'] file size Hf Hf'; try lia.
  cbn [tagvals_loop]. destruct (size >? 0); [|reflexivity].
  destruct (pbuf_read_tagval file) as [[[[t v] l] file']|e] eqn:Hr; [|reflexivity].
  pose proof (pbuf_read_tagval_shorter _ _ _ _ _ Hr) as Hs.
  rewrite (IH fuel' file') by lia. reflexivity.
Qed.

Lemma message_loop_fuel (fuel : nat) :
  forall fuel' file size vals,
    (length file < fuel)%nat -> (length file < fuel')%nat ->
    message_loop fuel file size vals = message_loop fuel' file size vals.
Proof.
  induction fuel as [|fuel IH]; intros [|fuel'] file size vals Hf Hf'; try lia.
  cbn [message_loop]. destruct (size >? 0); [|reflexivity].
  destruct (pbuf_read_tagval file) as [[[[t v] l] file']|e] eqn:Hr; [|reflexivity].
  pose proof (pbuf_read_tagval_shorter _ _ _ _ _ Hr) as Hs.
  simpl. rewrite (IH fuel' file') by lia. reflexivity.
Qed.

(** The loops, one turn at a time. *)
Lemma tagvals_loop_eq (file : bytes) (size : Z) :
  tagvals_loop (S (length file)) file size =
  if size >? 0 then
    match pbuf_read_tagval file with
    | Ok (t, v, l, file') =>
        gen_cons (t, v) (tagvals_loop (S (length file')) file' (size - l))
    | Raise e => ([], Some e)
    end
  else ([], assert_zero size).
Proof.
  cbn [tagvals_loop]. destruct (size >? 0); [|reflexivity].
  destruct (pbuf_read_tagval file) as [[[[t v] l] file']|e] eqn:Hr; [|reflexivity].
  pose proof (pbuf_read_tagval_shorter _ _ _ _ _ Hr) as Hs.
  rewrite (tagvals_loop_fuel _ (S (length file'))) by lia. reflexivity.
Qed.

Lemma message_loop_eq (file : bytes) (size : Z) (vals : list (Z * value)) :
  message_loop (S (length file)) file size vals =
  if size >? 0 then
    (let* (t, v, l, file') := pbuf_read_tagval file in
     message_loop (S (length file')) file' (size - l) (vals ++ [(t, v)]))
  else
    match assert_zero size with
    | None => Ok (vals, file)
    | Some e => Raise e
    end.
Proof.
  cbn [message_loop]. destruct (size >? 0); [|reflexivity].
  destruct (pbuf_read_tagval file) as [[[[t v] l] file']|e] eqn:Hr; [|reflexivity].
  pose proof (pbuf_read_tagval_shorter _ _ _ _ _ Hr) as Hs.
  simpl. rewrite (message_loop_fuel _ (S (length file'))) by lia. reflexivity.
Qed.

Lemma message_loop_shorter (fuel : nat) :
  forall file size vals vals' file',
    message_loop fuel file size vals = Ok (vals', file') ->
    (length file' <= length file)%nat.
Proof.
  induction fuel as [|fuel IH]; intros file size vals vals' file' H;
    cbn [message_loop] in H; destruct (size >? 0).
  - discriminate.
  - destruct (assert_zero size); inversion H; subst; lia.
  - destruct (pbuf_read_tagval file) as [[[[t v] l] file1]|e] eqn:Hr; [|discriminate].
    apply pbuf_read_tagval_shorter in Hr. simpl in H. apply IH in H. lia.
  - destruct (assert_zero size); inversion H; subst; lia.
Qed.

Lemma read_message_shorter (file : bytes) (size : value) m file' :
  read_message file size = Ok (m, file') -> (length file' <= length file)%nat.
Proof.
  unfold read_message. destruct size as [n|s]; [|discriminate].
  destruct (message_loop (S (length file)) file n []) as [[vals f]|e] eqn:Hm;
    simpl; [|discriminate].
  apply message_loop_shorter in Hm. intros H. inversion H; subst. exact Hm.
Qed.

(** ** The framing loop *)

Section FramingLoop.

Variable decompress : bytes -> option bytes.

Lemma read_header_shorter (file : bytes) h file' :
  read_header file = Ok (Some h, file') -> (length file' < length file)%nat.
Proof.
  unfold read_header, read.
  destruct (nonempty (take (Z.to_nat 4) file)) eqn:Hs; cbn [negb]; [|discriminate].
  destruct (unpack_I (take (Z.to_nat 4) file)) as [size|e]; cbn [bind]; [|discriminate].
  destruct (read_message (drop (Z.to_nat 4) file) (VInt size)) as [[m f]|e] eqn:Hm;
    cbn [bind]; [|discriminate].
  apply read_message_shorter in Hm. rewrite length_drop in Hm.
  intros H. inversion H; subst.
  destruct file; [discriminate|]. simpl in *. lia.
Qed.

Lemma pbf_read_turn_shorter (file : bytes) t m file' :
  pbf_read_turn decompress file = Ok (Some (t, m, file')) ->
  (length file' < length file)%nat.
Proof.
  unfold pbf_read_turn.
  destruct (read_header file) as [[h file1]|e] eqn:Hh; cbn [bind]; [|discriminate].
  destruct (falsy_header h) eqn:Hf; [discriminate|].
  destruct h as [h|]; [|discriminate].
  apply read_header_shorter in Hh.
  destruct (read_message file1 (default (VInt 0) (default ∅ (Some h) !! 3)))
    as [[b file2]|e] eqn:Hb; cbn [bind]; [|discriminate].
  apply read_message_shorter in Hb.
  destruct (truthy_get (b !! 1)).
  - intros H. inversion H; subst. lia.
  - destruct (truthy_get (b !! 3)); [|discriminate].
    destruct (zlib_decompress decompress (b !! 3)) as [v|e]; cbn [bind]; [|discriminate].
    destruct (len_eq v (default (VInt 0) (b !! 2))); [|discriminate].
    intros H. inversion H; subst. lia.
Qed.

Lemma pbf_read_loop_fuel (fuel : nat) :
  forall fuel' file,
    (length file < fuel)%nat -> (length file < fuel')%nat ->
    pbf_read_loop decompress fuel file = pbf_read_loop decompress fuel' file.
Proof.
  induction fuel as [|fuel IH]; intros [|fuel'] file Hf Hf'; try lia.
  cbn [pbf_read_loop].
  destruct (pbf_read_turn decompress file) as [[[[t m] file']|]|e] eqn:Ht;
    try reflexivity.
  apply pbf_read_turn_shorter in Ht.
  rewrite (IH fuel' file') by lia. reflexivity.
Qed.

(** [pbf_read], one turn of its loop at a time. *)
Lemma pbf_read_eq (file : bytes) :
  pbf_read decompress file =
  match pbf_read_turn decompress file with
  | Raise e => ([], Some e)
  | Ok None => ([], None)
  | Ok (Some (t, m, file')) => gen_cons (t, m) (pbf_read decompress file')
  end.
Proof.
  unfold pbf_read. cbn [pbf_read_loop].
  destruct (pbf_read_turn decompress file) as [[[[t m] file']|]|e] eqn:Ht;
    try reflexivity.
  apply pbf_read_turn_shorter in Ht.
  rewrite (pbf_read_loop_fuel _ (S (length file'))) by lia. reflexivity.
Qed.

(** What the loop yields up to a position, it yields first. *)
Lemma pbf_read_reaches (file : bytes) frames file' :
  pbf_reaches decompress file frames file' ->
  pbf_read decompress file = gen_app frames (pbf_read decompress file').
Proof.
  induction 1 as [file|file t m file1 frames file' Ht _ IH].
  - unfold gen_app. simpl. destruct (pbf_read decompress file); reflexivity.
  - rewrite pbf_read_eq, Ht, IH. reflexivity.
Qed.

End FramingLoop.

(** ** The varint codec and its encoder *)

(** A property of all the integers below a bound, checked by running through
    them. *)
Lemma below_forall (P : Z -> bool) (n : nat) :
  forallb P (map Z.of_nat (seq 0 n)) = true ->
  forall y, 0 <= y < Z.of_nat n -> P y = true.
Proof.
  intros Hall y Hy. rewrite forallb_forall in Hall. apply Hall.
  apply in_map_iff. exists (Z.to_nat y). split; [lia|].
  apply in_seq. lia.
Qed.

Lemma low_byte (y : Z) :
  0 <= y < 128 -> Z.land y 127 = y /\ Z.land y 128 = 0.
Proof.
  intros Hy.
  pose proof (below_forall
                (fun y => (Z.land y 127 =? y) && (Z.land y 128 =? 0)) 128
                eq_refl y Hy) as H.
  apply andb_true_iff in H. lia.
Qed.

Lemma high_byte (y : Z) :
  0 <= y < 128 ->
  0 <= Z.lor y 128 < 256 /\ Z.land (Z.lor y 128) 127 = y
  /\ Z.land (Z.lor y 128) 128 = 128.
Proof.
  intros Hy.
  pose proof (below_forall
                (fun y => (0 <=? Z.lor y 128) && (Z.lor y 128 <? 256)
                          && (Z.land (Z.lor y 128) 127 =? y)
                          && (Z.land (Z.lor y 128) 128 =? 128)) 128
                eq_refl y Hy) as H.
  repeat (apply andb_true_iff in H; destruct H as [H ?]). lia.
Qed.

Lemma land_127 (x : Z) : Z.land x 127 = x mod 128.
Proof. change 127 with (Z.ones 7). rewrite Z.land_ones by lia. reflexivity. Qed.

(** The low seven bits and the rest make up the number. *)
Lemma split_low_bits (x i : Z) :
  0 <= i ->
  Z.lor (Z.shiftl (Z.land x 127) i) (Z.shiftl (Z.shiftr x 7) (i + 7)) = Z.shiftl x i.
Proof.
  intros Hi. rewrite (Z.add_comm i 7), <- Z.shiftl_shiftl by lia.
  rewrite <- Z.shiftl_lor. f_equal.
  change 127 with (Z.ones 7). rewrite <- Z.ldiff_ones_r by lia.
  rewrite Z.lor_comm. apply Z.lor_ldiff_and.
Qed.

Lemma varint_bytes_S (fuel : nat) (x : Z) :
  varint_bytes (S fuel) x =
  if x <? 128 then [byte_of x]
  else byte_of (Z.lor (Z.land x 127) 128) :: varint_bytes fuel (Z.shiftr x 7).
Proof. reflexivity. Qed.

Lemma varint_loop_bytes (fuel : nat) :
  forall x rest r l i,
    0 <= x < 128 ^ Z.of_nat (S fuel) -> 0 <= i ->
    varint_loop (varint_bytes (S fuel) x ++ rest) r l i
    = Ok (Z.lor r (Z.shiftl x i), l + len (varint_bytes (S fuel) x), rest).
Proof.
  induction fuel as [|fuel IH]; intros x rest r l i Hx Hi;
    rewrite varint_bytes_S; destruct (Z.ltb_spec x 128) as [Hlt|Hge].
  - cbn [app varint_loop]. rewrite byte_val_of by lia.
    destruct (low_byte x) as [H1 H2]; [lia|]. rewrite H1, H2. reflexivity.
  - change (128 ^ Z.of_nat 1) with 128 in Hx. lia.
  - cbn [app varint_loop]. rewrite byte_val_of by lia.
    destruct (low_byte x) as [H1 H2]; [lia|]. rewrite H1, H2. reflexivity.
  - assert (Hy : 0 <= Z.land x 127 < 128).
    { rewrite land_127. apply Z.mod_pos_bound. lia. }
    destruct (high_byte _ Hy) as [Hb [H1 H2]].
    rewrite <- app_comm_cons. cbn [varint_loop].
    rewrite byte_val_of by exact Hb. rewrite H1, H2.
    change (truthy 128) with true. cbv iota.
    rewrite IH.
    + rewrite <- Z.lor_assoc, split_low_bits by lia.
      f_equal. f_equal. f_equal. unfold len. cbn [length]. lia.
    + rewrite Z.shiftr_div_pow2 by lia. split.
      * apply Z.div_pos; lia.
      * apply Z.div_lt_upper_bound; [lia|].
        rewrite <- Z.pow_succ_r by lia.
        replace (Z.succ (Z.of_nat (S fuel))) with (Z.of_nat (S (S fuel))) by lia.
        lia.
    + lia.
Qed.

(** The bound of [encode_varint] is enough. *)
Lemma encode_varint_bound (x : Z) :
  0 <= x -> x < 128 ^ Z.of_nat (S (Z.to_nat (Z.log2 x))).
Proof.
  intros Hx. destruct (Z.eq_dec x 0) as [->|Hnz]; [reflexivity|].
  assert (Hlog : 0 <= Z.log2 x) by apply Z.log2_nonneg.
  replace (Z.of_nat (S (Z.to_nat (Z.log2 x)))) with (Z.succ (Z.log2 x)) by lia.
  assert (H2 : x < 2 ^ Z.succ (Z.log2 x)) by (apply Z.log2_spec; lia).
  assert (Hle : 2 ^ Z.succ (Z.log2 x) <= 128 ^ Z.succ (Z.log2 x)).
  { apply Z.pow_le_mono_l. lia. }
  lia.
Qed.

(** Unsigned round trip: reading back the encoding of any [x >= 0] gives
    [x], the number of bytes of the encoding, and the rest of the file. *)
Lemma pbuf_read_varint_encode (x : Z) (rest : bytes) :
  0 <= x ->
  pbuf_read_varint (encode_varint x ++ rest)
  = Ok (x, len (encode_varint x), rest).
Proof.
  intros Hx. unfold pbuf_read_varint, encode_varint.
  rewrite varint_loop_bytes; [|split; [exact Hx | apply encode_varint_bound; exact Hx] | lia].
  rewrite Z.shiftl_0_r, Z.lor_0_l. reflexivity.
Qed.

Lemma encode_varint_nonempty (x : Z) : 0 < len (encode_varint x).
Proof.
  unfold encode_varint. rewrite varint_bytes_S.
  destruct (x <? 128); unfold len; cbn [length]; lia.
Qed.

(** The zig-zag encoding on the signed 64-bit integers. *)
Lemma zigzag_nonneg (n : Z) : 0 <= n < 2 ^ 63 -> zigzag n = 2 * n.
Proof.
  intros Hn. unfold zigzag.
  rewrite Z.shiftl_mul_pow2, Z.shiftr_div_pow2 by lia.
  rewrite Z.div_small by lia. rewrite Z.lxor_0_r. lia.
Qed.

Lemma zigzag_neg (n : Z) : - 2 ^ 63 <= n < 0 -> zigzag n = - 2 * n - 1.
Proof.
  intros Hn. unfold zigzag.
  rewrite Z.shiftl_mul_pow2, Z.shiftr_div_pow2 by lia.
  assert (Hq : n / 2 ^ 63 = -1).
  { symmetry. apply (Z.div_unique n (2 ^ 63) (-1) (n + 2 ^ 63)); lia. }
  rewrite Hq, Z.lxor_m1_r. unfold Z.lnot. lia.
Qed.

(** Signed reading of the zig-zag encoding: a value that is not negative
    comes back; a negative value [n] comes back as [n + 1]. *)
Lemma pbuf_read_varsint_encode (n : Z) (rest : bytes) :
  - 2 ^ 63 <= n < 2 ^ 63 ->
  pbuf_read_varsint (encode_signed_varint n ++ rest)
  = Ok (decoded n, len (encode_signed_varint n), rest).
Proof.
  intros Hn. unfold pbuf_read_varsint, encode_signed_varint, decoded.
  destruct (Z.ltb_spec n 0) as [Hneg|Hpos].
  - pose proof (zigzag_neg n ltac:(lia)) as Hz.
    rewrite pbuf_read_varint_encode by lia. cbn [bind].
    assert (Hodd : Z.land (zigzag n) 1 = 1).
    { change 1 with (Z.ones 1) at 1. rewrite Z.land_ones by lia.
      rewrite Hz. change (2 ^ 1) with 2.
      symmetry. apply (Z.mod_unique (- 2 * n - 1) 2 (- n - 1) 1); lia. }
    rewrite Hodd. change (truthy 1) with true. cbv iota.
    rewrite Z.shiftr_div_pow2 by lia. change (2 ^ 1) with 2.
    assert (Hq : zigzag n / 2 = - n - 1).
    { symmetry. apply (Z.div_unique (zigzag n) 2 (- n - 1) 1); lia. }
    rewrite Hq. do 3 f_equal. lia.
  - pose proof (zigzag_nonneg n ltac:(lia)) as Hz.
    rewrite pbuf_read_varint_encode by lia. cbn [bind].
    assert (Heven : Z.land (zigzag n) 1 = 0).
    { change 1 with (Z.ones 1) at 1. rewrite Z.land_ones by lia.
      rewrite Hz. change (2 ^ 1) with 2.
      symmetry. apply (Z.mod_unique (2 * n) 2 n 0); lia. }
    rewrite Heven. change (truthy 0) with false. cbv iota.
    rewrite Z.shiftr_div_pow2 by lia. change (2 ^ 1) with 2.
    assert (Hq : zigzag n / 2 = n).
    { symmetry. apply (Z.div_unique (zigzag n) 2 n 0); lia. }
    rewrite Hq. reflexivity.
Qed.

(** The signed reader inverts [sign_in_low_bit], which is not the zig-zag
    encoding: the two differ on every negative number. *)
Lemma pbuf_read_varsint_sign_in_low_bit (n : Z) (rest : bytes) :
  pbuf_read_varsint (encode_varint (sign_in_low_bit n) ++ rest)
  = Ok (n, len (encode_varint (sign_in_low_bit n)), rest).
Proof.
  unfold pbuf_read_varsint, sign_in_low_bit.
  destruct (Z.ltb_spec n 0) as [Hneg|Hpos].
  - rewrite pbuf_read_varint_encode by lia. cbn [bind].
    assert (Hodd : Z.land (2 * - n + 1) 1 = 1).
    { change 1 with (Z.ones 1) at 2. rewrite Z.land_ones by lia. change (2 ^ 1) with 2.
      symmetry. apply (Z.mod_unique (2 * - n + 1) 2 (- n) 1); lia. }
    rewrite Hodd. change (truthy 1) with true. cbv iota.
    rewrite Z.shiftr_div_pow2 by lia. change (2 ^ 1) with 2.
    assert (Hq : (2 * - n + 1) / 2 = - n).
    { symmetry. apply (Z.div_unique (2 * - n + 1) 2 (- n) 1); lia. }
    rewrite Hq. do 3 f_equal. lia.
  - rewrite pbuf_read_varint_encode by lia. cbn [bind].
    assert (Heven : Z.land (2 * n) 1 = 0).
    { change 1 with (Z.ones 1). rewrite Z.land_ones by lia. change (2 ^ 1) with 2.
      symmetry. apply (Z.mod_unique (2 * n) 2 n 0); lia. }
    rewrite Heven. change (truthy 0) with false. cbv iota.
    rewrite Z.shiftr_div_pow2 by lia. change (2 ^ 1) with 2.
    assert (Hq : 2 * n / 2 = n).
    { symmetry. apply (Z.div_unique (2 * n) 2 n 0); lia. }
    rewrite Hq. reflexivity.
Qed.

(** C5, at the input where the code departs from it. The zig-zag encoding of
    -1 is the single byte 01; [pbuf_read_varsint] reads it back as 0: for an
    odd raw value it returns [-(raw >> 1)], one more than the value encoded.
    ([pbuf_read_varint_encode] is the unsigned half of the claim, which
    holds; [pbuf_read_varsint_encode] gives the signed result for every
    64-bit value.) *)
Theorem pbuf_read_varsint_minus_one :
  encode_signed_varint (-1) = bytes_of [1]
  /\ pbuf_read_varsint (bytes_of [1]) = Ok (0, 1, []).
Proof. split; reflexivity. Qed.

(** ** The delta decoder *)

Lemma pbuf_read_varsint_shorter (file : bytes) v l file' :
  pbuf_read_varsint file = Ok (v, l, file') -> (length file' < length file)%nat.
Proof.
  unfold pbuf_read_varsint.
  destruct (pbuf_read_varint file) as [[[r k] rest]|e] eqn:Hv; cbn [bind]; [|discriminate].
  apply pbuf_read_varint_consumes in Hv. intros H. inversion H; subst.
  unfold len in Hv. lia.
Qed.

Lemma deltas_loop_encode (ds : list Z) :
  forall fuel v vals,
    Forall (fun d => - 2 ^ 63 <= d < 2 ^ 63) ds ->
    (length (concat (map encode_signed_varint ds)) < fuel)%nat ->
    deltas_loop fuel (concat (map encode_signed_varint ds))
      (len (concat (map encode_signed_varint ds))) v vals
    = Ok (vals ++ sums v (map decoded ds)).
Proof.
  induction ds as [|d ds IH]; intros fuel v vals Hds Hfuel.
  - destruct fuel; [simpl in Hfuel; lia|]. simpl. rewrite app_nil_r. reflexivity.
  - inversion Hds as [|? ? Hd Hds']; subst.
    cbn [map concat] in *.
    pose proof (encode_varint_nonempty (zigzag d)) as Hne.
    fold (encode_signed_varint d) in Hne.
    rewrite len_app. rewrite length_app in Hfuel.
    pose proof (len_nonneg (concat (map encode_signed_varint ds))) as Hr.
    destruct fuel as [|fuel]; [lia|]. cbn [deltas_loop].
    assert (Hpos : (len (encode_signed_varint d)
                    + len (concat (map encode_signed_varint ds)) >? 0) = true).
    { apply Z.gtb_lt. lia. }
    rewrite Hpos, pbuf_read_varsint_encode by exact Hd. cbn [bind].
    replace (len (encode_signed_varint d)
             + len (concat (map encode_signed_varint ds))
             - len (encode_signed_varint d))
      with (len (concat (map encode_signed_varint ds))) by lia.
    rewrite IH; [|exact Hds' | unfold len in Hne; lia].
    cbn [sums]. rewrite <- app_assoc. reflexivity.
Qed.

(** The delta decoder on the delta encoding of [xs]: the running sums of the
    deltas as [pbuf_read_varsint] reads them. Where no delta is negative,
    these are the deltas themselves and the sums are [xs]
    ([pbuf_parse_packed_deltas_ascending]). *)
Lemma pbuf_parse_packed_deltas_encode (xs : list Z) :
  Forall (fun d => - 2 ^ 63 <= d < 2 ^ 63) (deltas 0 xs) ->
  pbuf_parse_packed_deltas (VBytes (encode_packed_deltas xs))
  = Ok (sums 0 (map decoded (deltas 0 xs))).
Proof.
  intros Hds. unfold pbuf_parse_packed_deltas, encode_packed_deltas.
  destruct xs as [|x xs]; [reflexivity|].
  cbn [deltas map concat] in *. inversion Hds as [|? ? Hd Hds']; subst.
  pose proof (encode_varint_nonempty (zigzag (x - 0))) as Hne.
  fold (encode_signed_varint (x - 0)) in Hne.
  pose proof (len_nonneg (concat (map encode_signed_varint (deltas x xs)))) as Hr.
  rewrite len_app.
  assert (Ht : truthy (len (encode_signed_varint (x - 0))
                       + len (concat (map encode_signed_varint (deltas x xs)))) = true).
  { unfold truthy. apply negb_true_iff. apply Z.eqb_neq. lia. }
  rewrite Ht. cbn [negb].
  rewrite pbuf_read_varsint_encode by exact Hd. cbn [bind].
  replace (len (encode_signed_varint (x - 0))
           + len (concat (map encode_signed_varint (deltas x xs)))
           - len (encode_signed_varint (x - 0)))
    with (len (concat (map encode_signed_varint (deltas x xs)))) by lia.
  rewrite deltas_loop_encode; [|exact Hds' | lia].
  cbn [sums app]. reflexivity.
Qed.

Lemma sums_deltas (xs : list Z) : forall v, sums v (deltas v xs) = xs.
Proof.
  induction xs as [|x xs IH]; intros v; cbn [deltas sums]; [reflexivity|].
  replace (v + (x - v)) with x by lia. rewrite IH. reflexivity.
Qed.

Lemma pbuf_parse_packed_deltas_ascending (xs : list Z) :
  Forall (fun d => 0 <= d < 2 ^ 63) (deltas 0 xs) ->
  pbuf_parse_packed_deltas (VBytes (encode_packed_deltas xs)) = Ok xs.
Proof.
  intros Hds. rewrite pbuf_parse_packed_deltas_encode.
  - replace (map decoded (deltas 0 xs)) with (deltas 0 xs); [rewrite sums_deltas; reflexivity|].
    induction Hds as [|d ds Hd _ IH]; [reflexivity|].
    cbn [map]. rewrite <- IH. unfold decoded.
    destruct (Z.ltb_spec d 0); [lia | reflexivity].
  - eapply Forall_impl; [exact Hds|]. cbv beta. intros d Hd. lia.
Qed.

(** C6, at the input where the code departs from it. The sequence 5, 3 is
    delta-encoded as 5, -2, the bytes 0a 03; the decoder reads the second
    delta as -1 and returns 5, 4. This is the defect of C5 in
    [pbuf_read_varsint]: every negative delta is read one too high
    ([pbuf_parse_packed_deltas_encode]). The empty buffer decodes to the
    empty sequence, as the claim says. *)
Theorem pbuf_parse_packed_deltas_descending :
  encode_packed_deltas [5; 3] = bytes_of [10; 3]
  /\ pbuf_parse_packed_deltas (VBytes (bytes_of [10; 3])) = Ok [5; 4]
  /\ pbuf_parse_packed_deltas (VBytes []) = Ok [].
Proof. repeat split; reflexivity. Qed.

(** ** Truncated length-delimited fields *)

(** With fewer bytes left than the length declares, and a length that
    [file.read] takes, [pbuf_read_str] raises nothing: it returns the empty
    bytes object, and counts the bytes that were left as consumed. *)
Lemma pbuf_read_str_truncated (file : bytes) n l rest :
  pbuf_read_varint file = Ok (n, l, rest) ->
  len rest < n <= maxsize ->
  pbuf_read_str file = Ok ([], len rest + l, []).
Proof.
  intros Hv Hlt. rewrite pbuf_read_str_eq, Hv. cbn [bind].
  pose proof (len_nonneg rest) as Hr.
  destruct (Z.eqb_spec n 0); [lia|].
  destruct (Z.leb_spec n (len rest)); [lia|].
  destruct (Z.ltb_spec maxsize n); [lia | reflexivity].
Qed.

(** C3, at the input where the code departs from it. The field 0a 05 61 62
    declares five bytes and two are left. [pbuf_read_tagval] raises nothing:
    it returns field 1 with the empty value and four bytes consumed, and
    [pbuf_parse_tagvals] yields that pair and ends normally. The loop of
    [pbuf_read_str] leaves on the empty read ([if not s: break]) where
    [pbuf_read_varint] raises, and the function returns the last read [s],
    not the bytes gathered in [val] ([pbuf_read_str_truncated]). *)
Theorem pbuf_read_tagval_truncated_field :
  pbuf_read_tagval (bytes_of [10; 5; 97; 98]) = Ok (1, VBytes [], 4, [])
  /\ pbuf_parse_tagvals (VBytes (bytes_of [10; 5; 97; 98])) = ([(1, VBytes [])], None).
Proof. split; reflexivity. Qed.

(** ** Frames with a raw payload *)

(** A frame whose body has a field 1 that is true (a bytes object that is
    not empty, or an integer that is not 0): the loop yields the body
    message, a dict, next to the type label. *)
Lemma pbf_read_turn_raw decompress (file : bytes) h file1 m file2 :
  read_header file = Ok (Some h, file1) ->
  h <> ∅ ->
  read_message file1 (default (VInt 0) (h !! 3)) = Ok (m, file2) ->
  truthy_get (m !! 1) = true ->
  pbf_read_turn decompress file = Ok (Some (h !! 1, PDict m, file2)).
Proof.
  intros Hh Hne Hm Ht. unfold pbf_read_turn. rewrite Hh. cbn [bind falsy_header].
  rewrite bool_decide_eq_false_2 by exact Hne.
  change (default ∅ (Some h)) with h. rewrite Hm. cbn [bind]. rewrite Ht. reflexivity.
Qed.

(** C2, at the input where the code departs from it: one frame, labelled
    OSMData, whose body carries a data block in field 1. [pbf_read] yields
    the body message itself, the dict [{1: data}], not the bytes of field 1
    (the branch binds them to [v] and yields [m]; the branch for compressed
    bodies yields [v]). The loop of [main] hands the dict to
    [osm_enumerate_nodes], where [io.BytesIO] raises [TypeError]; the same
    block in a compressed body decodes to the two nodes. *)
Theorem pbf_read_raw_payload_yields_message (decompress : bytes -> option bytes) :
  pbf_read decompress (raw_frame "OSMData" indexed_block)
  = ([(Some (VBytes (list_byte_of_string "OSMData")),
       PDict (dict [(1, VBytes indexed_block)]))], None)
  /\ main_nodes decompress (raw_frame "OSMData" indexed_block) = ([], Some TypeError)
  /\ osm_enumerate_nodes (PBytes indexed_block) = (scenario_nodes, None).
Proof. repeat split; vm_compute; reflexivity. Qed.

(** ** A frame with an empty header *)

Lemma read_header_empty (rest : bytes) :
  read_header (pack_I 0 ++ rest) = Ok (Some ∅, rest).
Proof. reflexivity. Qed.

Lemma pbf_read_turn_empty_header decompress (rest : bytes) :
  pbf_read_turn decompress (pack_I 0 ++ rest) = Ok None.
Proof.
  unfold pbf_read_turn. rewrite read_header_empty. cbn [bind falsy_header].
  rewrite bool_decide_eq_true_2 by reflexivity. reflexivity.
Qed.

(** C8. When the loop of [pbf_read] comes to a frame whose length prefix is
    0, the header message has no field, [read_header] returns the empty
    dict, [not h] holds and the loop breaks: the generator ends normally,
    with the frames yielded so far, whatever follows in the file, as it does
    at the end of the file. *)
Theorem pbf_read_stops_at_empty_header decompress (file : bytes) frames rest :
  pbf_reaches decompress file frames (pack_I 0 ++ rest) ->
  pbf_read decompress file = (frames, None)
  /\ pbf_read decompress (pack_I 0 ++ rest) = pbf_read decompress [].
Proof.
  intros Hr.
  assert (Hz : pbf_read decompress (pack_I 0 ++ rest) = ([], None)).
  { rewrite pbf_read_eq, pbf_read_turn_empty_header. reflexivity. }
  split.
  - rewrite (pbf_read_reaches _ _ _ _ Hr), Hz. unfold gen_app. cbn [fst snd].
    rewrite app_nil_r. reflexivity.
  - rewrite Hz. reflexivity.
Qed.

Lemma pbf_read_stops_at_empty_header_witness :
  pbf_reaches zlib_stored stopped_file [(OSMData, PBytes indexed_block)]
    (pack_I 0 ++ stored_frame "OSMData" indexed_block)
  /\ pbf_read zlib_stored stopped_file = ([(OSMData, PBytes indexed_block)], None)
  /\ pbf_read zlib_stored (stored_frame "OSMData" indexed_block)
     = ([(OSMData, PBytes indexed_block)], None).
Proof.
  assert (Hr : pbf_reaches zlib_stored stopped_file [(OSMData, PBytes indexed_block)]
                 (pack_I 0 ++ stored_frame "OSMData" indexed_block)).
  { apply (pbf_reaches_turn _ _ _ _
             (pack_I 0 ++ stored_frame "OSMData" indexed_block)).
    - vm_compute. reflexivity.
    - apply pbf_reaches_start. }
  split; [exact Hr|]. split.
  - exact (proj1 (pbf_read_stops_at_empty_header zlib_stored stopped_file _ _ Hr)).
  - vm_compute. reflexivity.
Defined.

(** ** The declared size of a compressed payload *)

Lemma pbf_read_turn_size_mismatch decompress (file : bytes) h file1 m file2 z v n :
  read_header file = Ok (Some h, file1) ->
  h <> ∅ ->
  read_message file1 (default (VInt 0) (h !! 3)) = Ok (m, file2) ->
  truthy_get (m !! 1) = false ->
  m !! 3 = Some (VBytes z) -> z <> [] ->
  decompress z = Some v ->
  m !! 2 = Some (VInt n) -> len v <> n ->
  pbf_read_turn decompress file = Raise AssertionError.
Proof.
  intros Hh Hne Hm H1 H3 Hz Hd H2 Hlen.
  unfold pbf_read_turn. rewrite Hh. cbn [bind falsy_header].
  rewrite bool_decide_eq_false_2 by exact Hne.
  change (default ∅ (Some h)) with h. rewrite Hm. cbn [bind].
  rewrite H1, H3, H2. cbn [truthy_get zlib_decompress].
  destruct z; [congruence|]. cbn [nonempty]. rewrite Hd. cbn [bind].
  change (len_eq v (default (VInt 0) (Some (VInt n)))) with (len v =? n).
  destruct (Z.eqb_spec (len v) n); [contradiction | reflexivity].
Qed.

(** C7. The loop of [pbf_read] stands at a frame whose body has no raw
    payload (field 1 absent or empty), the compressed bytes [z] in field 3
    and the size [n] in field 2. If [z] decompresses to a payload whose
    length is not [n] (one byte more or less included), the assertion
    [len(v) == n] fails: the generator raises [AssertionError] after the
    frames before this one, and yields nothing for it. *)
Theorem pbf_read_size_mismatch decompress (file : bytes) frames file0 h file1 m
    file2 z v n :
  pbf_reaches decompress file frames file0 ->
  read_header file0 = Ok (Some h, file1) ->
  h <> ∅ ->
  read_message file1 (default (VInt 0) (h !! 3)) = Ok (m, file2) ->
  truthy_get (m !! 1) = false ->
  m !! 3 = Some (VBytes z) -> z <> [] ->
  decompress z = Some v ->
  m !! 2 = Some (VInt n) -> len v <> n ->
  pbf_read decompress file = (frames, Some AssertionError).
Proof.
  intros Hr Hh Hne Hm H1 H3 Hz Hd H2 Hlen.
  rewrite (pbf_read_reaches _ _ _ _ Hr), pbf_read_eq.
  rewrite (pbf_read_turn_size_mismatch decompress file0 h file1 m file2 z v n)
    by assumption.
  unfold gen_app. cbn [fst snd]. rewrite app_nil_r. reflexivity.
Qed.

Lemma pbf_read_size_mismatch_witness :
  zlib_stored (zlib_store indexed_block) = Some indexed_block
  /\ len indexed_block = 42
  /\ pbf_read zlib_stored oversized_file
     = ([(OSMData, PBytes indexed_block)], Some AssertionError)
  /\ pbf_read zlib_stored undersized_file
     = ([(OSMData, PBytes indexed_block)], Some AssertionError).
Proof.
  assert (Hd : zlib_stored (zlib_store indexed_block) = Some indexed_block)
    by (vm_compute; reflexivity).
  assert (Hne : forall n : Z,
             dict [(1, VBytes (list_byte_of_string "OSMData")); (3, VInt n)] <> ∅).
  { intros n E. apply (f_equal (fun m : gmap Z value => m !! 1)) in E.
    vm_compute in E. discriminate E. }
  assert (Hz : zlib_store indexed_block <> []) by (vm_compute; discriminate).
  split; [exact Hd|]. split; [reflexivity|]. split.
  - apply (pbf_read_size_mismatch zlib_stored oversized_file
             [(OSMData, PBytes indexed_block)]
             (declared_frame "OSMData" 43 indexed_block)
             (dict [(1, VBytes (list_byte_of_string "OSMData")); (3, VInt 57)])
             (field_int 2 43 ++ field_bytes 3 (zlib_store indexed_block))
             (dict [(2, VInt 43); (3, VBytes (zlib_store indexed_block))])
             [] (zlib_store indexed_block) indexed_block 43).
    + apply (pbf_reaches_turn _ _ _ _ (declared_frame "OSMData" 43 indexed_block)).
      * vm_compute. reflexivity.
      * apply pbf_reaches_start.
    + vm_compute. reflexivity.
    + apply Hne.
    + vm_compute. reflexivity.
    + vm_compute. reflexivity.
    + vm_compute. reflexivity.
    + exact Hz.
    + exact Hd.
    + vm_compute. reflexivity.
    + vm_compute. discriminate.
  - apply (pbf_read_size_mismatch zlib_stored undersized_file
             [(OSMData, PBytes indexed_block)]
             (declared_frame "OSMData" 41 indexed_block)
             (dict [(1, VBytes (list_byte_of_string "OSMData")); (3, VInt 57)])
             (field_int 2 41 ++ field_bytes 3 (zlib_store indexed_block))
             (dict [(2, VInt 41); (3, VBytes (zlib_store indexed_block))])
             [] (zlib_store indexed_block) indexed_block 41).
    + apply (pbf_reaches_turn _ _ _ _ (declared_frame "OSMData" 41 indexed_block)).
      * vm_compute. reflexivity.
      * apply pbf_reaches_start.
    + vm_compute. reflexivity.
    + apply Hne.
    + vm_compute. reflexivity.
    + vm_compute. reflexivity.
    + vm_compute. reflexivity.
    + exact Hz.
    + exact Hd.
    + vm_compute. reflexivity.
    + vm_compute. discriminate.
Defined.

(** ** Frames with a compressed payload *)

Lemma pbf_read_turn_compressed decompress (file : bytes) h file1 m file2 z v :
  read_header file = Ok (Some h, file1) ->
  h <> ∅ ->
  read_message file1 (default (VInt 0) (h !! 3)) = Ok (m, file2) ->
  truthy_get (m !! 1) = false ->
  m !! 3 = Some (VBytes z) -> z <> [] ->
  decompress z = Some v ->
  len_eq v (default (VInt 0) (m !! 2)) = true ->
  pbf_read_turn decompress file = Ok (Some (h !! 1, PBytes v, file2)).
Proof.
  intros Hh Hne Hm H1 H3 Hz Hd Hlen.
  unfold pbf_read_turn. rewrite Hh. cbn [bind falsy_header].
  rewrite bool_decide_eq_false_2 by exact Hne.
  change (default ∅ (Some h)) with h. rewrite Hm. cbn [bind].
  rewrite H1, H3. cbn [truthy_get zlib_decompress].
  destruct z; [congruence|]. cbn [nonempty]. rewrite Hd. cbn [bind].
  rewrite Hlen. reflexivity.
Qed.

Lemma dict_label_nonempty (label : bytes) (n : Z) :
  dict [(1, VBytes label); (3, VInt n)] <> ∅.
Proof.
  intros E. apply (f_equal (fun m : gmap Z value => m !! 1)) in E.
  unfold dict in E. cbn [foldl fst snd] in E.
  rewrite lookup_insert_ne, lookup_insert_eq, lookup_empty in E by lia.
  discriminate E.
Qed.

(** ** The scenario of the specification *)

(** C1 fails on the code. In the file of the scenario the string table of
    the data block decodes to ["amenity", "cafe"] and the tag run is
    1, 2, 0, 0. [osm_read_dense_nodes] looks the indices up as positions of
    that list, counted from 0: [names[1]] is "cafe" and [names[2]] raises
    [IndexError]. No node is decoded. *)
Lemma scenario_raises_index_error :
  osm_read_stringtable (VBytes scenario_strtab) = Ok [str "amenity"; str "cafe"]
  /\ pbf_read zlib_stored scenario_file
     = ([(OSMHeader, PBytes []); (OSMData, PBytes scenario_block)], None)
  /\ osm_read_dense_nodes (VBytes scenario_dense) (Some [str "amenity"; str "cafe"])
     = Raise IndexError
  /\ osm_enumerate_nodes (PBytes scenario_block) = ([], Some IndexError)
  /\ main_nodes zlib_stored scenario_file = ([], Some IndexError)
  /\ main_nodes zlib_stored scenario_file <> (scenario_nodes, None).
Proof.
  repeat split; try (vm_compute; reflexivity).
  vm_compute. discriminate.
Qed.

(** The metadata frame of the scenario has an empty body. A frame whose body
    message is empty, or whose body has an empty field 1, is refused by
    [pbf_read] as an unhandled encoding: the empty payload has to come
    compressed. *)
Lemma empty_body_unhandled :
  main_nodes zlib_stored (frame "OSMHeader" [] ++ stored_frame "OSMData" scenario_block)
  = ([], Some (UnhandledEncoding ∅))
  /\ main_nodes zlib_stored
       (raw_frame "OSMHeader" [] ++ stored_frame "OSMData" scenario_block)
     = ([], Some (UnhandledEncoding {[1]})).
Proof. split; vm_compute; reflexivity. Qed.

(** C1 as amended. The string table carries one more entry, the empty
    string, at position 0, so that "amenity" and "cafe" stand at positions 1
    and 2; the two frames carry their payloads compressed. With a
    decompressor that inflates the two streams of the file, the loop of
    [main] visits exactly the two nodes of the scenario, in order, and ends
    normally. *)
Theorem indexed_scenario_decodes (decompress : bytes -> option bytes) :
  decompress (zlib_store []) = Some [] ->
  decompress (zlib_store indexed_block) = Some indexed_block ->
  pbf_read decompress indexed_file
  = ([(OSMHeader, PBytes []); (OSMData, PBytes indexed_block)], None)
  /\ main_nodes decompress indexed_file = (scenario_nodes, None).
Proof.
  intros H0 H1.
  assert (Hf : pbf_read decompress indexed_file
               = ([(OSMHeader, PBytes []); (OSMData, PBytes indexed_block)], None)).
  { rewrite pbf_read_eq.
    rewrite (pbf_read_turn_compressed decompress indexed_file
               (dict [(1, VBytes (list_byte_of_string "OSMHeader")); (3, VInt 15)])
               (field_int 2 0 ++ field_bytes 3 (zlib_store [])
                ++ stored_frame "OSMData" indexed_block)
               (dict [(2, VInt 0); (3, VBytes (zlib_store []))])
               (stored_frame "OSMData" indexed_block)
               (zlib_store []) []);
      [ | vm_compute; reflexivity | apply dict_label_nonempty
        | vm_compute; reflexivity | vm_compute; reflexivity
        | vm_compute; reflexivity | vm_compute; discriminate
        | exact H0 | vm_compute; reflexivity ].
    rewrite pbf_read_eq.
    rewrite (pbf_read_turn_compressed decompress (stored_frame "OSMData" indexed_block)
               (dict [(1, VBytes (list_byte_of_string "OSMData")); (3, VInt 57)])
               (field_int 2 42 ++ field_bytes 3 (zlib_store indexed_block))
               (dict [(2, VInt 42); (3, VBytes (zlib_store indexed_block))])
               [] (zlib_store indexed_block) indexed_block);
      [ | vm_compute; reflexivity | apply dict_label_nonempty
        | vm_compute; reflexivity | vm_compute; reflexivity
        | vm_compute; reflexivity | vm_compute; discriminate
        | exact H1 | vm_compute; reflexivity ].
    rewrite pbf_read_eq.
    replace (pbf_read_turn decompress []) with (@Ok (option (option value * payload * bytes)) None)
      by reflexivity.
    vm_compute. reflexivity. }
  split; [exact Hf|].
  unfold main_nodes. rewrite Hf. vm_compute. reflexivity.
Qed.

Lemma indexed_scenario_decodes_witness :
  osm_read_stringtable (VBytes (bytes_of [10; 0] ++ scenario_strtab))
  = Ok [str ""; str "amenity"; str "cafe"]
  /\ main_nodes zlib_stored indexed_file = (scenario_nodes, None).
Proof.
  split; [vm_compute; reflexivity|].
  apply (indexed_scenario_decodes zlib_stored); vm_compute; reflexivity.
Defined.

(** ** Loops *)

Section Loops.

Context {A B S : Type}.

(** A loop whose body raises at an item stops there: the items after it
    play no part. *)
Lemma for_list_raises (body : S -> A -> result S) (pre : list A) x post :
  forall s s' e,
    for_list body pre s = Ok s' ->
    body s' x = Raise e ->
    for_list body (pre ++ x :: post) s = Raise e.
Proof.
  induction pre as [|y pre IH]; intros s s' e Hpre Hx; cbn [for_list app] in *.
  - inversion Hpre; subst. rewrite Hx. reflexivity.
  - destruct (body s y) as [s1|e1]; cbn [bind] in *; [|discriminate].
    eapply IH; eassumption.
Qed.

Lemma for_list_app (body : S -> A -> result S) (pre post : list A) :
  forall s s',
    for_list body pre s = Ok s' ->
    for_list body (pre ++ post) s = for_list body post s'.
Proof.
  induction pre as [|y pre IH]; intros s s' Hpre; cbn [for_list app] in *.
  - inversion Hpre; subst. reflexivity.
  - destruct (body s y) as [s1|e1]; cbn [bind] in *; [|discriminate].
    apply IH. exact Hpre.
Qed.

Lemma yield_list_raises (body : S -> A -> list B * result S) (pre : list A) x post :
  forall s out s' out' e,
    yield_list body pre s = (out, Ok s') ->
    body s' x = (out', Raise e) ->
    yield_list body (pre ++ x :: post) s = (out ++ out', Raise e).
Proof.
  induction pre as [|y pre IH]; intros s out s' out' e Hpre Hx;
    cbn [yield_list app] in *.
  - inversion Hpre; subst. rewrite Hx. reflexivity.
  - destruct (body s y) as [o1 [s1|e1]]; [|inversion Hpre].
    destruct (yield_list body pre s1) as [o2 r2] eqn:Hrest.
    inversion Hpre; subst.
    rewrite (IH s1 o2 s' out' e Hrest Hx). rewrite app_assoc. reflexivity.
Qed.

End Loops.

(** [osm_enumerate_nodes] passes on the nodes of every group that the data
    block yields, and raises what the data block raises. *)
Lemma yield_list_enumerate (groups : list (Z * list node)) :
  yield_list enumerate_field groups tt = (nodes_of groups, Ok tt).
Proof.
  induction groups as [|[t v] groups IH]; [reflexivity|].
  cbn [yield_list enumerate_field]. unfold nodes_of in *. cbn [map concat fst snd].
  destruct (t =? 2); rewrite IH; reflexivity.
Qed.

Lemma osm_enumerate_nodes_eq (data : payload) :
  osm_enumerate_nodes data
  = (nodes_of (osm_read_data_block data).1, (osm_read_data_block data).2).
Proof.
  unfold osm_enumerate_nodes, yield_gen. rewrite yield_list_enumerate. reflexivity.
Qed.

(** ** A dense group with arrays of different lengths *)

(** The final check on four bound arrays that differ in length. *)
Lemma dense_check_mismatch (a b c : list Z) (k : list (list (pystr * pystr))) :
  ~ (len a = len b /\ len b = len c /\ len c = len k) ->
  dense_check {| ids := Some a; lats := Some b; lons := Some c; kvs := Some k |}
  = Raise AssertionError.
Proof.
  intros Hne. unfold dense_check. cbn [ids lats lons kvs load bind].
  destruct (Z.eqb_spec (len a) (len b)); cbn [negb]; [|reflexivity].
  destruct (Z.eqb_spec (len b) (len c)); cbn [negb]; [|reflexivity].
  destruct (Z.eqb_spec (len c) (len k)); cbn [negb]; [|reflexivity].
  exfalso. apply Hne. auto.
Qed.

Lemma osm_read_dense_nodes_mismatch (d : value) names a b c k :
  for_gen (dense_field names) (pbuf_parse_tagvals d) dense_unbound
  = Ok {| ids := Some a; lats := Some b; lons := Some c; kvs := Some k |} ->
  ~ (len a = len b /\ len b = len c /\ len c = len k) ->
  osm_read_dense_nodes d names = Raise AssertionError.
Proof.
  intros Hloop Hne. unfold osm_read_dense_nodes. rewrite Hloop. cbn [bind].
  rewrite dense_check_mismatch by exact Hne. reflexivity.
Qed.

(** The exception of a dense message leaves [osm_read_group] ... *)
Lemma osm_read_group_raises (g : value) names gpre d gpost gstatus vals e :
  pbuf_parse_tagvals g = (gpre ++ (2, d) :: gpost, gstatus) ->
  for_list (group_field names) gpre [] = Ok vals ->
  osm_read_dense_nodes d names = Raise e ->
  osm_read_group g names = Raise e.
Proof.
  intros Hg Hpre Hd. unfold osm_read_group, for_gen. rewrite Hg. cbn [fst snd].
  rewrite (for_list_raises (group_field names) gpre (2, d) gpost [] vals e Hpre).
  - reflexivity.
  - unfold group_field. change (2 =? 1) with false. change (2 =? 2) with true.
    cbv iota. rewrite Hd. reflexivity.
Qed.

(** ... ends [osm_read_data_block] after the groups yielded before ... *)
Lemma osm_read_data_block_raises (block : bytes) bpre g bpost bstatus groups names e :
  pbuf_parse_tagvals (VBytes block) = (bpre ++ (2, g) :: bpost, bstatus) ->
  yield_list block_field bpre None = (groups, Ok names) ->
  osm_read_group g names = Raise e ->
  osm_read_data_block (PBytes block) = (groups, Some (leaving_generator e)).
Proof.
  intros Hb Hpre Hg. unfold osm_read_data_block, yield_gen. rewrite Hb. cbn [fst snd].
  rewrite (yield_list_raises block_field bpre (2, g) bpost None groups names []
             (leaving_generator e) Hpre).
  - rewrite app_nil_r. reflexivity.
  - unfold block_field. change (2 =? 2) with true. cbv iota. rewrite Hg. reflexivity.
Qed.

(** ... and stops the loop of [main]: no later frame is decoded. *)
Lemma main_nodes_raises decompress (file : bytes) frames block later status rs ns e :
  pbf_read decompress file = (frames ++ (OSMData, PBytes block) :: later, status) ->
  yield_list main_frame frames tt = (rs, Ok tt) ->
  osm_enumerate_nodes (PBytes block) = (ns, Some e) ->
  main_nodes decompress file = (rs ++ ns, Some e).
Proof.
  intros Hf Hpre Hb. unfold main_nodes, yield_gen. rewrite Hf. cbn [fst snd].
  rewrite (yield_list_raises main_frame frames (OSMData, PBytes block) later tt rs tt
             ns e Hpre).
  - reflexivity.
  - unfold main_frame. change (is_label OSMData "OSMHeader") with false.
    change (is_label OSMData "OSMData") with true. cbv iota.
    rewrite Hb. reflexivity.
Qed.

(** C4 fails on the code. The first frame of [aborted_file] holds a dense
    group with two ids and one latitude, the second frame holds the block of
    the scenario, which decodes to two nodes when it is alone in a file. The
    assertion of [osm_read_dense_nodes] fails on the first frame; nothing
    catches the [AssertionError], the loop of [main] ends with it, and the
    nodes of the second frame are never decoded. *)
Lemma corrupt_group_aborts_decoding :
  pbf_read zlib_stored aborted_file
  = ([(OSMData, PBytes corrupt_block); (OSMData, PBytes indexed_block)], None)
  /\ osm_read_dense_nodes (VBytes corrupt_dense)
       (Some [str ""; str "amenity"; str "cafe"]) = Raise AssertionError
  /\ main_nodes zlib_stored (stored_frame "OSMData" indexed_block)
     = (scenario_nodes, None)
  /\ main_nodes zlib_stored aborted_file = ([], Some AssertionError).
Proof. repeat split; vm_compute; reflexivity. Qed.

(** C4 as amended. A dense message [d] whose four arrays are bound and do
    not all have the same length makes [osm_read_dense_nodes] raise
    [AssertionError] and return no node. Nothing catches the exception: it
    leaves the group [g] and the data block that hold [d], and it ends the
    loop of [main] over the frames. The loop has visited the nodes [rs] of
    the frames before and the nodes of the groups before [g] in the block,
    and visits no node of [g], of what follows [g] in the block, or of any
    later frame. *)
Theorem dense_length_mismatch_aborts decompress (file : bytes) frames block later
    status rs bpre g bpost bstatus groups names gpre d gpost gstatus vals a b c k :
  pbf_read decompress file = (frames ++ (OSMData, PBytes block) :: later, status) ->
  yield_list main_frame frames tt = (rs, Ok tt) ->
  pbuf_parse_tagvals (VBytes block) = (bpre ++ (2, g) :: bpost, bstatus) ->
  yield_list block_field bpre None = (groups, Ok names) ->
  pbuf_parse_tagvals g = (gpre ++ (2, d) :: gpost, gstatus) ->
  for_list (group_field names) gpre [] = Ok vals ->
  for_gen (dense_field names) (pbuf_parse_tagvals d) dense_unbound
  = Ok {| ids := Some a; lats := Some b; lons := Some c; kvs := Some k |} ->
  ~ (len a = len b /\ len b = len c /\ len c = len k) ->
  osm_read_dense_nodes d names = Raise AssertionError
  /\ osm_read_group g names = Raise AssertionError
  /\ osm_enumerate_nodes (PBytes block) = (nodes_of groups, Some AssertionError)
  /\ main_nodes decompress file = (rs ++ nodes_of groups, Some AssertionError).
Proof.
  intros Hf Hfr Hb Hbpre Hg Hgpre Hd Hne.
  pose proof (osm_read_dense_nodes_mismatch d names a b c k Hd Hne) as H1.
  pose proof (osm_read_group_raises g names gpre d gpost gstatus vals _ Hg Hgpre H1)
    as H2.
  pose proof (osm_read_data_block_raises block bpre g bpost bstatus groups names _
                Hb Hbpre H2) as H3.
  cbn [leaving_generator] in H3.
  assert (H4 : osm_enumerate_nodes (PBytes block)
               = (nodes_of groups, Some AssertionError)).
  { rewrite osm_enumerate_nodes_eq, H3. reflexivity. }
  repeat split; try assumption.
  exact (main_nodes_raises decompress file frames block later status rs _ _ Hf Hfr H4).
Qed.

Lemma dense_length_mismatch_aborts_witness :
  pbf_read zlib_stored interrupted_file
  = ([(OSMData, PBytes indexed_block)]
       ++ (OSMData, PBytes corrupt_block) :: [(OSMData, PBytes indexed_block)], None)
  /\ for_gen (dense_field (Some [str ""; str "amenity"; str "cafe"]))
       (pbuf_parse_tagvals (VBytes corrupt_dense)) dense_unbound
     = Ok {| ids := Some [100; 101]; lats := Some [10]; lons := Some [20; 21];
             kvs := Some [[(str "amenity", str "cafe")]; []] |}
  /\ main_nodes zlib_stored interrupted_file = (scenario_nodes, Some AssertionError).
Proof.
  assert (Hf : pbf_read zlib_stored interrupted_file
               = ([(OSMData, PBytes indexed_block)]
                    ++ (OSMData, PBytes corrupt_block)
                       :: [(OSMData, PBytes indexed_block)], None))
    by (vm_compute; reflexivity).
  assert (Hd : for_gen (dense_field (Some [str ""; str "amenity"; str "cafe"]))
                 (pbuf_parse_tagvals (VBytes corrupt_dense)) dense_unbound
               = Ok {| ids := Some [100; 101]; lats := Some [10];
                       lons := Some [20; 21];
                       kvs := Some [[(str "amenity", str "cafe")]; []] |})
    by (vm_compute; reflexivity).
  split; [exact Hf|]. split; [exact Hd|].
  replace scenario_nodes with (scenario_nodes ++ nodes_of []) by reflexivity.
  refine (proj2 (proj2 (proj2
    (dense_length_mismatch_aborts zlib_stored interrupted_file
       [(OSMData, PBytes indexed_block)] corrupt_block
       [(OSMData, PBytes indexed_block)] None scenario_nodes
       [(1, VBytes (bytes_of [10; 0] ++ scenario_strtab))] (VBytes corrupt_group) []
       None [] (Some [str ""; str "amenity"; str "cafe"])
       [] (VBytes corrupt_dense) [] None []
       [100; 101] [10] [20; 21] [[(str "amenity", str "cafe")]; []]
       Hf _ _ _ _ _ Hd _)))).
  - vm_compute. reflexivity.
  - vm_compute. reflexivity.
  - vm_compute. reflexivity.
  - vm_compute. reflexivity.
  - reflexivity.
  - vm_compute. intros [H _]. discriminate H.
Defined.

(** ** A dense message without one of its four fields *)

(** A field of another number leaves an array as it is. *)
Lemma dense_field_keeps names st t v st' :
  dense_field names st (t, v) = Ok st' ->
  (t <> 1 -> ids st' = ids st) /\ (t <> 8 -> lats st' = lats st)
  /\ (t <> 9 -> lons st' = lons st) /\ (t <> 10 -> kvs st' = kvs st).
Proof.
  unfold dense_field.
  destruct (Z.eqb_spec t 1) as [E1|N1];
    [|destruct (Z.eqb_spec t 8) as [E8|N8];
      [|destruct (Z.eqb_spec t 9) as [E9|N9];
        [|destruct (Z.eqb_spec t 10) as [E10|N10]]]].
  1-3: destruct (pbuf_parse_packed_deltas v) as [a|ex]; cbn [bind]; [|discriminate];
       intros H; inversion H; subst; cbn; repeat split; congruence.
  - destruct (pbuf_parse_packed v) as [packed|ex]; cbn [bind]; [|discriminate].
    destruct (tags_loop names packed [] []) as [[k nd]|ex]; cbn [bind]; [|discriminate].
    intros H; inversion H; subst; cbn; repeat split; congruence.
  - intros H; inversion H; subst. repeat split; reflexivity.
Qed.

Lemma dense_loop_keeps names (items : list (Z * value)) :
  forall st st',
    for_list (dense_field names) items st = Ok st' ->
    (1 ∉ items.*1 -> ids st' = ids st) /\ (8 ∉ items.*1 -> lats st' = lats st)
    /\ (9 ∉ items.*1 -> lons st' = lons st) /\ (10 ∉ items.*1 -> kvs st' = kvs st).
Proof.
  induction items as [|[t v] items IH]; intros st st' H; cbn [for_list] in H.
  - inversion H; subst. repeat split; reflexivity.
  - destruct (dense_field names st (t, v)) as [st1|e] eqn:Hf; cbn [bind] in H;
      [|discriminate].
    apply dense_field_keeps in Hf. destruct Hf as (K1 & K8 & K9 & K10).
    apply IH in H. destruct H as (I1 & I8 & I9 & I10).
    cbn [fmap list_fmap fst].
    repeat split; intros Hn; apply not_elem_of_cons in Hn; destruct Hn as [Hne Hn].
    + rewrite I1, K1 by auto. reflexivity.
    + rewrite I8, K8 by auto. reflexivity.
    + rewrite I9, K9 by auto. reflexivity.
    + rewrite I10, K10 by auto. reflexivity.
Qed.

(** The final check with an unbound array. *)
Lemma dense_check_unbound (st : dense_locals) name :
  first_unbound st = Some name ->
  dense_check st
  = Raise (if agree_before st then UnboundLocalError name else AssertionError).
Proof.
  unfold first_unbound, agree_before, dense_check.
  destruct (ids st) as [a|]; cbn [load bind].
  2:{ intros H; inversion H; subst; reflexivity. }
  destruct (lats st) as [b|]; cbn [load bind].
  2:{ intros H; inversion H; subst; reflexivity. }
  destruct (lons st) as [c|]; cbn [load bind].
  2:{ intros H; inversion H; subst. destruct (len a =? len b); reflexivity. }
  destruct (kvs st) as [d|]; cbn [load bind]; [discriminate|].
  intros H; inversion H; subst.
  destruct (len a =? len b); cbn [negb andb]; [|reflexivity].
  destruct (len b =? len c); reflexivity.
Qed.

Lemma dense_loop_unbound names (items : list (Z * value)) st :
  for_list (dense_field names) items dense_unbound = Ok st ->
  1 ∉ items.*1 \/ 8 ∉ items.*1 \/ 9 ∉ items.*1 \/ 10 ∉ items.*1 ->
  exists name, first_unbound st = Some name.
Proof.
  intros Hloop Habs.
  apply dense_loop_keeps in Hloop. destruct Hloop as (I1 & I8 & I9 & I10).
  unfold first_unbound.
  destruct Habs as [H|[H|[H|H]]].
  - rewrite (I1 H). cbn. eauto.
  - rewrite (I8 H). cbn. destruct (ids st); eauto.
  - rewrite (I9 H). cbn. destruct (ids st); eauto. destruct (lats st); eauto.
  - rewrite (I10 H). cbn. destruct (ids st); eauto. destruct (lats st); eauto.
    destruct (lons st); eauto.
Qed.

(** With a field missing, [osm_read_dense_nodes] never returns. *)
Lemma dense_missing_field_raises (data : value) names items status :
  pbuf_parse_tagvals data = (items, status) ->
  1 ∉ items.*1 \/ 8 ∉ items.*1 \/ 9 ∉ items.*1 \/ 10 ∉ items.*1 ->
  exists e, osm_read_dense_nodes data names = Raise e.
Proof.
  intros Hp Habs. unfold osm_read_dense_nodes, for_gen. rewrite Hp. cbn [fst snd].
  destruct (for_list (dense_field names) items dense_unbound) as [st|e] eqn:Hloop;
    cbn [bind]; [|eauto].
  destruct status as [e|]; cbn [bind]; [eauto|].
  destruct (dense_loop_unbound names items st Hloop Habs) as [name Hu].
  rewrite (dense_check_unbound st name Hu). cbn [bind]. eauto.
Qed.

(** C9 fails on the code. [short_dense] has one id, an empty latitude array
    and neither field 9 nor field 10. The final check compares [len(ids)]
    with [len(lats)] first; they differ, the chain of comparisons stops, and
    the assertion fails before [lons] is read: the exception is
    [AssertionError], not an unbound-local error. *)
Lemma missing_field_assertion_error :
  pbuf_parse_tagvals (VBytes short_dense)
  = ([(1, VBytes (bytes_of [200; 1])); (8, VBytes [])], None)
  /\ osm_read_dense_nodes (VBytes short_dense) None = Raise AssertionError
  /\ osm_read_dense_nodes (VBytes short_dense) None
     <> Raise (UnboundLocalError "lons").
Proof.
  repeat split; try (vm_compute; reflexivity).
  vm_compute. discriminate.
Qed.

(** C9 as amended. When one of the fields 1, 8, 9, 10 is absent from a dense
    message whose fields have all been read, the array of the absent field
    is unbound at the final check, never empty. The check reads [ids],
    [lats], [lons], [kvs] in this order and compares the lengths as it
    goes: it raises the unbound-local error of the first unbound array,
    unless two arrays read before it differ in length, in which case it
    raises [AssertionError]. No node is returned. *)
Theorem dense_missing_field (data : value) names items st :
  pbuf_parse_tagvals data = (items, None) ->
  for_list (dense_field names) items dense_unbound = Ok st ->
  1 ∉ items.*1 \/ 8 ∉ items.*1 \/ 9 ∉ items.*1 \/ 10 ∉ items.*1 ->
  exists name,
    first_unbound st = Some name
    /\ osm_read_dense_nodes data names
       = Raise (if agree_before st then UnboundLocalError name else AssertionError).
Proof.
  intros Hp Hloop Habs.
  destruct (dense_loop_unbound names items st Hloop Habs) as [name Hu].
  exists name. split; [exact Hu|].
  unfold osm_read_dense_nodes, for_gen. rewrite Hp. cbn [fst snd].
  rewrite Hloop. cbn [bind].
  rewrite (dense_check_unbound st name Hu). reflexivity.
Qed.

Lemma dense_missing_field_witness :
  (exists name,
      first_unbound {| ids := Some [100]; lats := None; lons := None; kvs := None |}
      = Some name
      /\ osm_read_dense_nodes (VBytes (bytes_of [10; 2; 200; 1])) None
         = Raise (UnboundLocalError name))
  /\ (exists name,
         first_unbound {| ids := Some [100]; lats := Some []; lons := None; kvs := None |}
         = Some name
         /\ osm_read_dense_nodes (VBytes short_dense) None = Raise AssertionError).
Proof.
  split.
  - apply (dense_missing_field (VBytes (bytes_of [10; 2; 200; 1])) None
             [(1, VBytes (bytes_of [200; 1]))]
             {| ids := Some [100]; lats := None; lons := None; kvs := None |}).
    + vm_compute. reflexivity.
    + vm_compute. reflexivity.
    + right. left. cbn. intros H. apply list_elem_of_singleton in H. discriminate H.
  - apply (dense_missing_field (VBytes short_dense) None
             [(1, VBytes (bytes_of [200; 1])); (8, VBytes [])]
             {| ids := Some [100]; lats := Some []; lons := None; kvs := None |}).
    + vm_compute. reflexivity.
    + vm_compute. reflexivity.
    + right. right. left. cbn. intros H.
      apply elem_of_cons in H. destruct H as [H|H]; [discriminate H|].
      apply list_elem_of_singleton in H. discriminate H.
Defined.

(** ** The tag run of a dense message *)

(** The tag loop over a prefix that it reads to the end, then over the
    rest. *)
Lemma tags_loop_app names (n : nat) :
  forall p q ks nd ks' nd',
    (length p <= n)%nat ->
    tags_loop names p ks nd = Ok (ks', nd') ->
    tags_loop names (p ++ q) ks nd = tags_loop names q ks' nd'.
Proof.
  induction n as [|n IH]; intros p q ks nd ks' nd' Hlen Hp.
  - destruct p; [|simpl in Hlen; lia]. cbn in Hp. inversion Hp; subst. reflexivity.
  - destruct p as [|i p]; [cbn in Hp; inversion Hp; subst; reflexivity|].
    cbn [tags_loop app] in *. destruct (i =? 0).
    + apply IH; [simpl in Hlen; lia | exact Hp].
    + destruct (subscript names i) as [k|ex]; cbn [bind] in *; [|discriminate].
      destruct p as [|j p]; [discriminate|].
      cbn [app]. destruct (subscript names j) as [v|ex]; cbn [bind] in *; [|discriminate].
      apply IH; [simpl in Hlen; lia | exact Hp].
Qed.

(** A run of pairs that resolve adds to the tag list in progress and leaves
    the tag lists already closed as they are. *)
Lemma tags_loop_run names (run : list (Z * Z)) :
  forall ks nd,
    Forall (resolves names) run ->
    exists nd', tags_loop names (flat run) ks nd = Ok (ks, nd').
Proof.
  induction run as [|[i j] run IH]; intros ks nd Hrun.
  - exists nd. reflexivity.
  - inversion Hrun as [|? ? Hr Hrun']; subst.
    destruct Hr as (Hnz & [k Hk] & [v Hv]). cbn [fst snd] in *.
    unfold flat. cbn [map concat app fst snd tags_loop]. fold (flat run).
    destruct (Z.eqb_spec i 0) as [E|_]; [contradiction|].
    rewrite Hk, Hv. cbn [bind]. apply IH. exact Hrun'.
Qed.

(** The tag lists that field 10 binds are those of the terminated runs. *)
Lemma dense_field_trailing names st (v v' : value) p run ks :
  pbuf_parse_packed v = Ok (p ++ flat run) ->
  pbuf_parse_packed v' = Ok p ->
  tags_loop names p [] [] = Ok (ks, []) ->
  Forall (resolves names) run ->
  dense_field names st (10, v) = dense_field names st (10, v').
Proof.
  intros Hv Hv' Hp Hrun. unfold dense_field.
  change (10 =? 1) with false. change (10 =? 8) with false.
  change (10 =? 9) with false. change (10 =? 10) with true. cbv iota.
  rewrite Hv, Hv'. cbn [bind].
  rewrite (tags_loop_app names (length p) p (flat run) [] [] ks [] (le_n _) Hp), Hp.
  destruct (tags_loop_run names run ks [] Hrun) as [nd' Hnd]. rewrite Hnd.
  reflexivity.
Qed.

Lemma for_list_replace {A S : Type} (body : S -> A -> result S) (pre : list A)
    x x' post :
  (forall s, body s x = body s x') ->
  forall s, for_list body (pre ++ x :: post) s = for_list body (pre ++ x' :: post) s.
Proof.
  intros Hx. induction pre as [|y pre IH]; intros s; cbn [for_list app].
  - rewrite Hx. reflexivity.
  - destruct (body s y); cbn [bind]; [apply IH | reflexivity].
Qed.

(** C10 fails on the code as it is worded. What follows the last sentinel
    of the tag run is not always dropped in silence. In [dangling_dense] one
    key index follows it and no value index: [next(gs)] raises
    [StopIteration]. In [unresolved_dense] the pair 5, 1 follows it and the
    string table has three entries: [names[5]] raises [IndexError]. Both
    are raised inside the tag loop, before the comparison of the lengths is
    reached; without these indices the message decodes to the two nodes of
    the scenario. *)
Lemma trailing_indices_raise :
  osm_read_dense_nodes (VBytes scenario_dense)
    (Some [str ""; str "amenity"; str "cafe"]) = Ok scenario_nodes
  /\ pbuf_parse_packed (VBytes (bytes_of [1; 2; 0; 0; 1])) = Ok [1; 2; 0; 0; 1]
  /\ osm_read_dense_nodes (VBytes dangling_dense)
       (Some [str ""; str "amenity"; str "cafe"]) = Raise StopIteration
  /\ pbuf_parse_packed (VBytes (bytes_of [1; 2; 0; 0; 5; 1])) = Ok [1; 2; 0; 0; 5; 1]
  /\ osm_read_dense_nodes (VBytes unresolved_dense)
       (Some [str ""; str "amenity"; str "cafe"]) = Raise IndexError.
Proof. repeat split; vm_compute; reflexivity. Qed.

(** C10 as amended. Two dense messages have the same fields but for a
    field 10: in [data'] its packed array [p] is made of terminated runs
    (the tag loop reads it to the end and is left with no pair in
    progress), in [data] it is [p] followed by complete pairs of key and
    value indices with no sentinel after them, each with a key index that
    is not 0 and with indices that are positions of the string table.
    [osm_read_dense_nodes] returns the same for both: the pairs after the
    last sentinel are read, resolved, and never appended to the tag lists.
    Nothing is raised for them; only the final comparison of the array
    lengths, which is the same for both messages, can fail. *)
Theorem dense_trailing_run_dropped (data data' : value) names pre post status
    (v v' : value) p run ks :
  pbuf_parse_tagvals data = (pre ++ (10, v) :: post, status) ->
  pbuf_parse_tagvals data' = (pre ++ (10, v') :: post, status) ->
  pbuf_parse_packed v = Ok (p ++ flat run) ->
  pbuf_parse_packed v' = Ok p ->
  tags_loop names p [] [] = Ok (ks, []) ->
  Forall (resolves names) run ->
  osm_read_dense_nodes data names = osm_read_dense_nodes data' names.
Proof.
  intros Hd Hd' Hv Hv' Hp Hrun.
  unfold osm_read_dense_nodes, for_gen. rewrite Hd, Hd'. cbn [fst snd].
  rewrite (for_list_replace (dense_field names) pre (10, v) (10, v') post).
  - reflexivity.
  - intros s. exact (dense_field_trailing names s v v' p run ks Hv Hv' Hp Hrun).
Qed.

Lemma dense_trailing_run_dropped_witness :
  pbuf_parse_packed (VBytes (bytes_of [1; 2; 0; 0; 2; 1])) = Ok ([1; 2; 0; 0] ++ flat [(2, 1)])
  /\ osm_read_dense_nodes (VBytes scenario_dense)
       (Some [str ""; str "amenity"; str "cafe"]) = Ok scenario_nodes
  /\ osm_read_dense_nodes (VBytes trailing_dense)
       (Some [str ""; str "amenity"; str "cafe"])
     = osm_read_dense_nodes (VBytes scenario_dense)
         (Some [str ""; str "amenity"; str "cafe"]).
Proof.
  split; [vm_compute; reflexivity|]. split; [vm_compute; reflexivity|].
  apply (dense_trailing_run_dropped (VBytes trailing_dense) (VBytes scenario_dense)
           (Some [str ""; str "amenity"; str "cafe"])
           [(1, VBytes (bytes_of [200; 1; 2])); (8, VBytes (bytes_of [20; 0]));
            (9, VBytes (bytes_of [40; 2]))] [] None
           (VBytes (bytes_of [1; 2; 0; 0; 2; 1])) (VBytes (bytes_of [1; 2; 0; 0]))
           [1; 2; 0; 0] [(2, 1)] [[(str "amenity", str "cafe")]; []]).
  - vm_compute. reflexivity.
  - vm_compute. reflexivity.
  - vm_compute. reflexivity.
  - vm_compute. reflexivity.
  - vm_compute. reflexivity.
  - constructor; [|constructor]. unfold resolves. cbn [fst snd]. split; [discriminate|].
    split; eexists; vm_compute; reflexivity.
Defined.

(** The trailing pair of a third point: its tag list is missing from the tag
    lists, and the message fails the comparison of the lengths. The same
    tag run with two points passes it ([dense_trailing_run_dropped]). *)
Lemma trailing_run_of_third_point :
  osm_read_dense_nodes (VBytes trailing_dense3)
    (Some [str ""; str "amenity"; str "cafe"]) = Raise AssertionError.
Proof. vm_compute. reflexivity. Qed.

(** A key index with no value index after it is not dropped: [next(gs)]
    raises [StopIteration]. *)
Lemma dangling_key_raises :
  tags_loop (Some [str ""; str "amenity"; str "cafe"]) [1; 2; 0; 1] [] []
  = Raise StopIteration.
Proof. reflexivity. Qed.


(** ** The bounds of the loops are never reached

    Every bounded loop of the embedding is run with a bound above the
    length of the file it reads, and every turn reads at least one byte: no
    function of the embedding answers [FuelExhausted]. *)

(** The exception raised on the spot is one of the program. *)
Ltac raised_here :=
  let H := fresh "H" in intros H; inversion H; subst; discriminate.

Lemma varint_loop_python (file : bytes) :
  forall r l i e, varint_loop file r l i = Raise e -> e = UnexpectedEOF.
Proof.
  induction file as [|s file IH]; intros r l i e H; cbn [varint_loop] in H.
  - congruence.
  - destruct (truthy (Z.land (byte_val s) 128)); [eauto | discriminate].
Qed.

Lemma pbuf_read_varsint_python (file : bytes) e :
  pbuf_read_varsint file = Raise e -> python_exn e.
Proof.
  unfold pbuf_read_varsint, pbuf_read_varint.
  destruct (varint_loop file 0 0 0) as [[[v l] rest]|ex] eqn:Hv; cbn [bind];
    [discriminate|].
  intros H. inversion H; subst. apply varint_loop_python in Hv. subst. discriminate.
Qed.

Lemma pbuf_read_tagval_python (file : bytes) e :
  pbuf_read_tagval file = Raise e -> python_exn e.
Proof.
  unfold pbuf_read_tagval, pbuf_read_tag, pbuf_read_varint.
  destruct (varint_loop file 0 0 0) as [[[tag n] rest]|ex] eqn:Hv; cbn [bind].
  - destruct (Z.land tag 7 =? 0).
    + destruct (varint_loop rest 0 0 0) as [[[i k] rest']|ex] eqn:Hi; cbn [bind];
        [discriminate|].
      intros H. inversion H; subst. apply varint_loop_python in Hi. subst. discriminate.
    + destruct (Z.land tag 7 =? 2); [|raised_here].
      destruct (pbuf_read_str rest) as [[[s k] rest']|ex] eqn:Hs; cbn [bind];
        [discriminate|].
      intros H. inversion H; subst. apply pbuf_read_str_raises in Hs.
      destruct Hs as [->| ->]; discriminate.
  - intros H. inversion H; subst. apply varint_loop_python in Hv. subst. discriminate.
Qed.

Lemma assert_zero_python (size : Z) e : assert_zero size = Some e -> python_exn e.
Proof.
  unfold assert_zero. destruct (size =? 0); [discriminate|].
  raised_here.
Qed.

Lemma tagvals_loop_python (fuel : nat) :
  forall file size e,
    (length file < fuel)%nat ->
    (tagvals_loop fuel file size).2 = Some e -> python_exn e.
Proof.
  induction fuel as [|fuel IH]; intros file size e Hf; [lia|].
  cbn [tagvals_loop]. destruct (size >? 0).
  - destruct (pbuf_read_tagval file) as [[[[t v] l] file']|ex] eqn:Hr.
    + apply pbuf_read_tagval_shorter in Hr. cbn [gen_cons snd].
      apply IH. lia.
    + cbn [snd]. intros H. inversion H; subst.
      eapply pbuf_read_tagval_python. exact Hr.
  - cbn [snd]. apply assert_zero_python.
Qed.

Lemma pbuf_parse_tagvals_python (data : value) e :
  (pbuf_parse_tagvals data).2 = Some e -> python_exn e.
Proof.
  unfold pbuf_parse_tagvals. destruct data as [i|s]; cbn [BytesIO snd].
  - raised_here.
  - apply tagvals_loop_python. lia.
Qed.

Lemma packed_loop_python (fuel : nat) :
  forall file size vals e,
    (length file < fuel)%nat ->
    packed_loop fuel file size vals = Raise e -> python_exn e.
Proof.
  induction fuel as [|fuel IH]; intros file size vals e Hf; [lia|].
  cbn [packed_loop]. destruct (size >? 0).
  - unfold pbuf_read_varint.
    destruct (varint_loop file 0 0 0) as [[[v l] file']|ex] eqn:Hv; cbn [bind].
    + apply varint_loop_consumes in Hv. apply IH. unfold len in Hv. lia.
    + intros H. inversion H; subst. apply varint_loop_python in Hv. subst. discriminate.
  - destruct (assert_zero size) as [ex|] eqn:Ha; [|discriminate].
    intros H. inversion H; subst. eapply assert_zero_python. exact Ha.
Qed.

Lemma pbuf_parse_packed_python (data : value) e :
  pbuf_parse_packed data = Raise e -> python_exn e.
Proof.
  unfold pbuf_parse_packed. destruct data as [i|s]; cbn [BytesIO bind].
  - raised_here.
  - apply packed_loop_python. lia.
Qed.

Lemma deltas_loop_python (fuel : nat) :
  forall file size v vals e,
    (length file < fuel)%nat ->
    deltas_loop fuel file size v vals = Raise e -> python_exn e.
Proof.
  induction fuel as [|fuel IH]; intros file size v vals e Hf; [lia|].
  cbn [deltas_loop]. destruct (size >? 0).
  - destruct (pbuf_read_varsint file) as [[[d l] file']|ex] eqn:Hv; cbn [bind].
    + apply pbuf_read_varsint_shorter in Hv. apply IH. lia.
    + intros H. inversion H; subst. eapply pbuf_read_varsint_python. exact Hv.
  - destruct (assert_zero size) as [ex|] eqn:Ha; [|discriminate].
    intros H. inversion H; subst. eapply assert_zero_python. exact Ha.
Qed.

Lemma pbuf_parse_packed_deltas_python (data : value) e :
  pbuf_parse_packed_deltas data = Raise e -> python_exn e.
Proof.
  unfold pbuf_parse_packed_deltas. destruct data as [i|s].
  - raised_here.
  - destruct (negb (truthy (len s))); [discriminate|].
    destruct (pbuf_read_varsint s) as [[[v l] file']|ex] eqn:Hv; cbn [bind].
    + apply deltas_loop_python. lia.
    + intros H. inversion H; subst. eapply pbuf_read_varsint_python. exact Hv.
Qed.

Lemma message_loop_python (fuel : nat) :
  forall file size vals e,
    (length file < fuel)%nat ->
    message_loop fuel file size vals = Raise e -> python_exn e.
Proof.
  induction fuel as [|fuel IH]; intros file size vals e Hf; [lia|].
  cbn [message_loop]. destruct (size >? 0).
  - destruct (pbuf_read_tagval file) as [[[[t v] l] file']|ex] eqn:Hr; cbn [bind].
    + apply pbuf_read_tagval_shorter in Hr. apply IH. lia.
    + intros H. inversion H; subst. eapply pbuf_read_tagval_python. exact Hr.
  - destruct (assert_zero size) as [ex|] eqn:Ha; [|discriminate].
    intros H. inversion H; subst. eapply assert_zero_python. exact Ha.
Qed.

Lemma read_message_python (file : bytes) (size : value) e :
  read_message file size = Raise e -> python_exn e.
Proof.
  unfold read_message. destruct size as [n|s].
  - destruct (message_loop (S (length file)) file n []) as [[vals f]|ex] eqn:Hm;
      cbn [bind]; [discriminate|].
    intros H. inversion H; subst. eapply message_loop_python; [|exact Hm]. lia.
  - raised_here.
Qed.

Lemma unpack_I_python (s : bytes) e : unpack_I s = Raise e -> e = StructError.
Proof.
  unfold unpack_I. destruct s as [|a [|b [|c [|d [|x s]]]]];
    intros H; inversion H; reflexivity.
Qed.

Lemma read_header_python (file : bytes) e :
  read_header file = Raise e -> python_exn e.
Proof.
  unfold read_header, read.
  destruct (negb (nonempty (take (Z.to_nat 4) file))); [discriminate|].
  destruct (unpack_I (take (Z.to_nat 4) file)) as [size|ex] eqn:Hu; cbn [bind].
  - destruct (read_message (drop (Z.to_nat 4) file) (VInt size)) as [[m f]|ex] eqn:Hm;
      cbn [bind]; [discriminate|].
    intros H. inversion H; subst. eapply read_message_python. exact Hm.
  - intros H. inversion H; subst. apply unpack_I_python in Hu. subst. discriminate.
Qed.

Lemma pbf_read_turn_python decompress (file : bytes) e :
  pbf_read_turn decompress file = Raise e -> python_exn e.
Proof.
  unfold pbf_read_turn.
  destruct (read_header file) as [[h file1]|ex] eqn:Hh; cbn [bind].
  2:{ intros H. inversion H; subst. eapply read_header_python. exact Hh. }
  destruct (falsy_header h); [discriminate|].
  destruct (read_message file1 (default (VInt 0) (default ∅ h !! 3)))
    as [[m file2]|ex] eqn:Hm; cbn [bind].
  2:{ intros H. inversion H; subst. eapply read_message_python. exact Hm. }
  destruct (truthy_get (m !! 1)); [discriminate|].
  destruct (truthy_get (m !! 3)); [|raised_here].
  unfold zlib_decompress.
  destruct (m !! 3) as [[i|z]|]; cbn [bind]; try (raised_here).
  destruct (decompress z) as [v|]; cbn [bind]; [|raised_here].
  destruct (len_eq v (default (VInt 0) (m !! 2))); [discriminate|].
  raised_here.
Qed.

Lemma pbf_read_loop_python decompress (fuel : nat) :
  forall file e,
    (length file < fuel)%nat ->
    (pbf_read_loop decompress fuel file).2 = Some e -> python_exn e.
Proof.
  induction fuel as [|fuel IH]; intros file e Hf; [lia|].
  cbn [pbf_read_loop].
  destruct (pbf_read_turn decompress file) as [[[[t m] file']|]|ex] eqn:Ht.
  - apply pbf_read_turn_shorter in Ht. cbn [gen_cons snd]. apply IH. lia.
  - discriminate.
  - cbn [snd]. intros H. inversion H; subst. eapply pbf_read_turn_python. exact Ht.
Qed.

Lemma pbf_read_python decompress (file : bytes) e :
  (pbf_read decompress file).2 = Some e -> python_exn e.
Proof. apply pbf_read_loop_python. lia. Qed.

Section LoopsRaise.

Context {A B S : Type}.

Lemma for_list_python (body : S -> A -> result S) :
  (forall s x e, body s x = Raise e -> python_exn e) ->
  forall xs s e, for_list body xs s = Raise e -> python_exn e.
Proof.
  intros Hbody. induction xs as [|x xs IH]; intros s e H; cbn [for_list] in H.
  - discriminate.
  - destruct (body s x) as [s'|ex] eqn:Hx; cbn [bind] in H.
    + eapply IH. exact H.
    + inversion H; subst. eapply Hbody. exact Hx.
Qed.

Lemma for_gen_python (body : S -> A -> result S) (g : gen A) :
  (forall s x e, body s x = Raise e -> python_exn e) ->
  (forall e, g.2 = Some e -> python_exn e) ->
  forall s e, for_gen body g s = Raise e -> python_exn e.
Proof.
  intros Hbody Hg s e. unfold for_gen.
  destruct (for_list body g.1 s) as [s'|ex] eqn:Hl; cbn [bind].
  - destruct g.2 as [ex|]; [|discriminate].
    intros H. inversion H; subst. apply Hg. reflexivity.
  - intros H. inversion H; subst. eapply for_list_python; eassumption.
Qed.

Lemma yield_list_python (body : S -> A -> list B * result S) :
  (forall s x e, (body s x).2 = Raise e -> python_exn e) ->
  forall xs s e, (yield_list body xs s).2 = Raise e -> python_exn e.
Proof.
  intros Hbody. induction xs as [|x xs IH]; intros s e H; cbn [yield_list] in H.
  - discriminate.
  - pose proof (Hbody s x) as Hx.
    destruct (body s x) as [out [s'|ex]].
    + pose proof (IH s' e) as IH'.
      destruct (yield_list body xs s') as [out' r']. apply IH'. exact H.
    + apply Hx. exact H.
Qed.

Lemma yield_gen_python (body : S -> A -> list B * result S) (g : gen A) :
  (forall s x e, (body s x).2 = Raise e -> python_exn e) ->
  (forall e, g.2 = Some e -> python_exn e) ->
  forall s e, (yield_gen body g s).2 = Some e -> python_exn e.
Proof.
  intros Hbody Hg s e. unfold yield_gen.
  pose proof (yield_list_python body Hbody g.1 s) as Hl.
  destruct (yield_list body g.1 s) as [out [s'|ex]]; cbn [snd] in *.
  - apply Hg.
  - intros H. inversion H; subst. apply Hl. reflexivity.
Qed.

End LoopsRaise.

Lemma header_block_loop_python (fuel : nat) :
  forall file size vals e,
    (length file < fuel)%nat ->
    header_block_loop fuel file size vals = Raise e -> python_exn e.
Proof.
  induction fuel as [|fuel IH]; intros file size vals e Hf; [lia|].
  cbn [header_block_loop]. destruct (size >? 0); [|discriminate].
  destruct (pbuf_read_tagval file) as [[[[t v] l] file']|ex] eqn:Hr; cbn [bind].
  2:{ intros H. inversion H; subst. eapply pbuf_read_tagval_python. exact Hr. }
  apply pbuf_read_tagval_shorter in Hr.
  destruct (t =? 1); cbn [bind].
  - unfold list_of_gen.
    destruct (pbuf_parse_tagvals v).2 as [ex|] eqn:Hp; cbn [bind].
    + intros H. inversion H; subst. eapply pbuf_parse_tagvals_python. exact Hp.
    + apply IH. lia.
  - apply IH. lia.
Qed.

Lemma osm_read_header_block_python (data : payload) e :
  osm_read_header_block data = Raise e -> python_exn e.
Proof.
  unfold osm_read_header_block. destruct data as [s|m].
  - apply header_block_loop_python. lia.
  - raised_here.
Qed.

Lemma utf8_decode_python (n : nat) :
  forall (s : bytes) e,
    (length s <= n)%nat -> utf8_decode s = Raise e -> e = UnicodeDecodeError.
Proof.
  induction n as [|n IH]; intros s e Hn H.
  - destruct s; [discriminate | simpl in Hn; lia].
  - destruct s as [|b0 s1]; [discriminate|]. cbn [utf8_decode] in H.
    cbn [length] in Hn.
    repeat match type of H with
           | Raise _ = Raise _ => inversion H; reflexivity
           | Ok _ = Raise _ => discriminate H
           | bind (utf8_decode ?r) _ = Raise _ =>
               let E := fresh "E" in
               destruct (utf8_decode r) as [?|?] eqn:E; cbn [bind] in H;
               [discriminate H
               | inversion H; subst; apply (IH r); [cbn [length] in Hn; lia | exact E]]
           | context [if ?c then _ else _] => destruct c
           | context [match ?l with [] => _ | _ :: _ => _ end] =>
               destruct l; cbn [length] in Hn
           end.
Qed.

Lemma osm_read_stringtable_python (data : value) e :
  osm_read_stringtable data = Raise e -> python_exn e.
Proof.
  unfold osm_read_stringtable. apply for_gen_python.
  - intros names [t s] ex. destruct (t =? 1).
    + destruct s as [i|s]; cbn [decode bind].
      * raised_here.
      * destruct (utf8_decode s) as [n|ex'] eqn:Hu; cbn [bind]; [discriminate|].
        intros H. inversion H; subst. apply (utf8_decode_python (length s)) in Hu; [|apply le_n].
        subst. discriminate.
    + raised_here.
  - apply pbuf_parse_tagvals_python.
Qed.

Lemma osm_read_node_python (data : value) names e :
  osm_read_node data names = Raise e -> python_exn e.
Proof.
  unfold osm_read_node. apply for_gen_python.
  - intros vals tv ex. discriminate.
  - apply pbuf_parse_tagvals_python.
Qed.

Lemma subscript_python names (i : Z) e :
  subscript names i = Raise e -> python_exn e.
Proof.
  unfold subscript. destruct names as [l|]; [|raised_here].
  destruct ((if i <? 0 then len l + i else i) <? 0);
    [raised_here|].
  destruct (l !! Z.to_nat (if i <? 0 then len l + i else i));
    raised_here.
Qed.

Lemma tags_loop_python names (n : nat) :
  forall gs ks nd e,
    (length gs <= n)%nat ->
    tags_loop names gs ks nd = Raise e -> python_exn e.
Proof.
  induction n as [|n IH]; intros gs ks nd e Hlen H.
  - destruct gs; [discriminate | simpl in Hlen; lia].
  - destruct gs as [|i gs]; [discriminate|]. cbn [tags_loop] in H.
    destruct (i =? 0).
    + eapply IH; [|exact H]. simpl in Hlen. lia.
    + destruct (subscript names i) as [k|ex] eqn:Hk; cbn [bind] in H.
      2:{ inversion H; subst. eapply subscript_python. exact Hk. }
      destruct gs as [|j gs]; [inversion H; discriminate|].
      destruct (subscript names j) as [v|ex] eqn:Hv; cbn [bind] in H.
      2:{ inversion H; subst. eapply subscript_python. exact Hv. }
      eapply IH; [|exact H]. simpl in Hlen. lia.
Qed.

Lemma dense_field_python names st tv e :
  dense_field names st tv = Raise e -> python_exn e.
Proof.
  destruct tv as [t v]. unfold dense_field.
  destruct (t =? 1); [|destruct (t =? 8); [|destruct (t =? 9); [|destruct (t =? 10)]]].
  1-3: destruct (pbuf_parse_packed_deltas v) as [a|ex] eqn:Hp; cbn [bind];
       [discriminate|]; intros H; inversion H; subst;
       eapply pbuf_parse_packed_deltas_python; exact Hp.
  - destruct (pbuf_parse_packed v) as [packed|ex] eqn:Hp; cbn [bind].
    2:{ intros H; inversion H; subst. eapply pbuf_parse_packed_python. exact Hp. }
    destruct (tags_loop names packed [] []) as [[k nd]|ex] eqn:Ht; cbn [bind];
      [discriminate|].
    intros H; inversion H; subst. eapply tags_loop_python; [|exact Ht]. apply le_n.
  - discriminate.
Qed.

Lemma dense_check_python (st : dense_locals) e :
  dense_check st = Raise e -> python_exn e.
Proof.
  unfold dense_check, load.
  destruct (ids st); cbn [bind]; [|raised_here].
  destruct (lats st); cbn [bind]; [|raised_here].
  destruct (negb _); [raised_here|].
  destruct (lons st); cbn [bind]; [|raised_here].
  destruct (negb _); [raised_here|].
  destruct (kvs st); cbn [bind]; [|raised_here].
  destruct (negb _); [raised_here | discriminate].
Qed.

Lemma osm_read_dense_nodes_python (data : value) names e :
  osm_read_dense_nodes data names = Raise e -> python_exn e.
Proof.
  unfold osm_read_dense_nodes.
  destruct (for_gen (dense_field names) (pbuf_parse_tagvals data) dense_unbound)
    as [st|ex] eqn:Hl; cbn [bind].
  - destruct (dense_check st) as [[[[a b] c] d]|ex] eqn:Hc; cbn [bind]; [discriminate|].
    intros H. inversion H; subst. eapply dense_check_python. exact Hc.
  - intros H. inversion H; subst.
    eapply for_gen_python; [| |exact Hl].
    + intros s x ex. apply dense_field_python.
    + apply pbuf_parse_tagvals_python.
Qed.

Lemma osm_read_group_python (data : value) names e :
  osm_read_group data names = Raise e -> python_exn e.
Proof.
  unfold osm_read_group. apply for_gen_python.
  - intros vals [t v] ex. unfold group_field.
    destruct (t =? 1); [|destruct (t =? 2)].
    + destruct (osm_read_node v names) as [r|ex'] eqn:Hn; cbn [bind]; [discriminate|].
      intros H. inversion H; subst. eapply osm_read_node_python. exact Hn.
    + destruct (osm_read_dense_nodes v names) as [r|ex'] eqn:Hn; cbn [bind];
        [discriminate|].
      intros H. inversion H; subst. eapply osm_read_dense_nodes_python. exact Hn.
    + discriminate.
  - apply pbuf_parse_tagvals_python.
Qed.

Lemma leaving_generator_python (e : exn) : python_exn e -> python_exn (leaving_generator e).
Proof. destruct e; cbn; intros H; try exact H; discriminate. Qed.

Lemma osm_read_data_block_python (data : payload) e :
  (osm_read_data_block data).2 = Some e -> python_exn e.
Proof.
  unfold osm_read_data_block. destruct data as [s|m].
  - apply yield_gen_python.
    + intros names [t v] ex. unfold block_field.
      destruct (t =? 2); [|destruct (t =? 1)].
      * destruct (osm_read_group v names) as [r|ex'] eqn:Hg; cbn [snd]; [discriminate|].
        intros H. inversion H; subst. apply leaving_generator_python.
        eapply osm_read_group_python. exact Hg.
      * destruct (osm_read_stringtable v) as [r|ex'] eqn:Hg; cbn [snd]; [discriminate|].
        intros H. inversion H; subst. apply leaving_generator_python.
        eapply osm_read_stringtable_python. exact Hg.
      * discriminate.
    + apply pbuf_parse_tagvals_python.
  - cbn [snd]. raised_here.
Qed.

Lemma osm_enumerate_nodes_python (data : payload) e :
  (osm_enumerate_nodes data).2 = Some e -> python_exn e.
Proof.
  rewrite osm_enumerate_nodes_eq. cbn [snd]. apply osm_read_data_block_python.
Qed.

(** The loop of [main] ends normally or with an exception of the program. *)
Lemma main_nodes_python decompress (file : bytes) e :
  (main_nodes decompress file).2 = Some e -> python_exn e.
Proof.
  unfold main_nodes. apply yield_gen_python.
  - intros [] [h m] ex. unfold main_frame.
    destruct (is_label h "OSMHeader").
    + destruct (osm_read_header_block m) as [r|ex'] eqn:Hh; cbn [snd]; [discriminate|].
      intros H. inversion H; subst. eapply osm_read_header_block_python. exact Hh.
    + destruct (is_label h "OSMData"); [|discriminate]. cbn [snd].
      destruct (osm_enumerate_nodes m).2 as [ex'|] eqn:He; [|discriminate].
      intros H. inversion H; subst. eapply osm_enumerate_nodes_python. exact He.
  - apply pbf_read_python.
Qed.


(** * Further properties *)

(** ** The varint reader *)

Lemma varint_loop_drops (file : bytes) :
  forall r l i v l' file',
    varint_loop file r l i = Ok (v, l', file') ->
    file' = drop (Z.to_nat (l' - l)) file.
Proof.
  induction file as [|s file IH]; intros r l i v l' file' H.
  - discriminate.
  - pose proof (varint_loop_consumes _ _ _ _ _ _ _ H) as [_ Hl].
    cbn [varint_loop] in H.
    destruct (truthy (Z.land (byte_val s) 128)).
    + pose proof (varint_loop_consumes _ _ _ _ _ _ _ H) as [_ Hl'].
      apply IH in H. subst file'.
      replace (Z.to_nat (l' - l)) with (S (Z.to_nat (l' - (l + 1)))) by lia.
      reflexivity.
    + inversion H; subst. replace (l + 1 - l) with 1 by lia. reflexivity.
Qed.

Lemma lor_below (a b k : Z) :
  0 <= k -> 0 <= a < 2 ^ k -> 0 <= b < 2 ^ k -> 0 <= Z.lor a b < 2 ^ k.
Proof.
  intros Hk Ha Hb. split; [apply Z.lor_nonneg; lia|].
  destruct (Z.eq_dec a 0) as [->|Hna]; [rewrite Z.lor_0_l; lia|].
  destruct (Z.eq_dec b 0) as [->|Hnb]; [rewrite Z.lor_0_r; lia|].
  apply Z.log2_lt_pow2; [|rewrite Z.log2_lor by lia].
  - assert (0 <= Z.lor a b) by (apply Z.lor_nonneg; lia).
    assert (Z.lor a b <> 0); [|lia].
    intros E. apply Z.lor_eq_0_iff in E. lia.
  - apply Z.max_lub_lt; apply Z.log2_lt_pow2; lia.
Qed.

Lemma varint_loop_below (file : bytes) :
  forall r l i v l' file',
    0 <= i -> 0 <= r < 2 ^ i ->
    varint_loop file r l i = Ok (v, l', file') ->
    0 <= v < 2 ^ (i + 7 * (l' - l)).
Proof.
  induction file as [|s file IH]; intros r l i v l' file' Hi Hr H.
  - discriminate.
  - pose proof (varint_loop_consumes _ _ _ _ _ _ _ H) as [_ Hl].
    cbn [varint_loop] in H.
    assert (Hi7 : 0 <= i + 7) by lia.
    assert (Hs : 0 <= Z.shiftl (Z.land (byte_val s) 127) i < 2 ^ (i + 7)).
    { assert (Hm : 0 <= Z.land (byte_val s) 127 < 2 ^ 7).
      { rewrite land_127. change (2 ^ 7) with 128. apply Z.mod_pos_bound. lia. }
      rewrite Z.shiftl_mul_pow2 by lia. rewrite Z.pow_add_r by lia.
      assert (0 < 2 ^ i) by (apply Z.pow_pos_nonneg; lia). nia. }
    assert (Hacc : 0 <= Z.lor r (Z.shiftl (Z.land (byte_val s) 127) i) < 2 ^ (i + 7)).
    { apply lor_below; [lia| |exact Hs]. split; [lia|].
      assert (2 ^ i <= 2 ^ (i + 7)) by (apply Z.pow_le_mono_r; lia). lia. }
    destruct (truthy (Z.land (byte_val s) 128)).
    + pose proof (IH _ _ _ _ _ _ Hi7 Hacc H) as Hv.
      replace (i + 7 * (l' - l)) with (i + 7 + 7 * (l' - (l + 1))) by lia. exact Hv.
    + inversion H; subst. replace (i + 7 * (l + 1 - l)) with (i + 7) by lia. exact Hacc.
Qed.

(** X1. Unsigned round trip. For every integer [x >= 0], reading the
    base-128 encoding of [x], whatever follows it in the file, returns [x],
    the number of bytes of the encoding, and leaves the file at the byte
    after it. *)
Theorem pbuf_read_varint_round_trip (x : Z) (rest : bytes) :
  0 <= x ->
  pbuf_read_varint (encode_varint x ++ rest) = Ok (x, len (encode_varint x), rest).
Proof. apply pbuf_read_varint_encode. Qed.

Lemma pbuf_read_varint_round_trip_witness :
  encode_varint 300 = bytes_of [172; 2]
  /\ pbuf_read_varint (encode_varint 300 ++ bytes_of [7]) = Ok (300, 2, bytes_of [7]).
Proof.
  split; [reflexivity|].
  exact (pbuf_read_varint_round_trip 300 (bytes_of [7]) ltac:(lia)).
Defined.

(** X2. What a varint read accounts for. When [pbuf_read_varint] returns
    [(v, l)], it has read exactly the first [l] bytes of the file, [l] is at
    least 1 and at most the length of the file, and [v] is a natural number
    below [2 ^ (7 * l)]. *)
Theorem pbuf_read_varint_accounting (file : bytes) v l file' :
  pbuf_read_varint file = Ok (v, l, file') ->
  file' = drop (Z.to_nat l) file
  /\ 1 <= l <= len file
  /\ 0 <= v < 2 ^ (7 * l).
Proof.
  intros H. unfold pbuf_read_varint in H.
  pose proof (varint_loop_drops _ _ _ _ _ _ _ H) as Hd.
  pose proof (varint_loop_consumes _ _ _ _ _ _ _ H) as [Hlen Hl].
  assert (H0 : 0 <= 0 < 2 ^ 0) by (change (2 ^ 0) with 1; lia).
  pose proof (varint_loop_below file 0 0 0 v l file' (Z.le_refl 0) H0 H) as Hv.
  pose proof (len_nonneg file') as Hf.
  rewrite Z.sub_0_r in *. rewrite Z.add_0_l in Hv.
  repeat split; try lia. exact Hd.
Qed.

Lemma pbuf_read_varint_accounting_witness :
  pbuf_read_varint (bytes_of [172; 2; 7]) = Ok (300, 2, bytes_of [7])
  /\ bytes_of [7] = drop (Z.to_nat 2) (bytes_of [172; 2; 7])
  /\ 1 <= 2 <= len (bytes_of [172; 2; 7])
  /\ 0 <= 300 < 2 ^ (7 * 2).
Proof.
  split; [reflexivity|].
  exact (pbuf_read_varint_accounting (bytes_of [172; 2; 7]) 300 2 (bytes_of [7])
           eq_refl).
Defined.

Lemma varint_loop_unterminated (file : bytes) :
  forall r l i,
    Forall (fun b => 128 <= byte_val b) file ->
    varint_loop file r l i = Raise UnexpectedEOF.
Proof.
  induction file as [|s file IH]; intros r l i Hall; [reflexivity|].
  inversion Hall as [|? ? Hs Hrest]; subst. cbn [varint_loop].
  assert (Ht : truthy (Z.land (byte_val s) 128) = true).
  { pose proof (byte_val_range s) as Hb.
    pose proof (below_forall
                  (fun y => (y <? 128) || negb (Z.land y 128 =? 0)) 256 eq_refl
                  (byte_val s) Hb) as Hc.
    cbv beta in Hc. unfold truthy.
    destruct (Z.ltb_spec (byte_val s) 128); [lia | exact Hc]. }
  rewrite Ht. apply IH. exact Hrest.
Qed.

(** X3. An unterminated varint. If every byte left in the file has its high
    bit set (the empty file included), [pbuf_read_varint] raises
    'unexpected EOF'; and it raises nothing else on any file. *)
Theorem pbuf_read_varint_unterminated (file : bytes) :
  (Forall (fun b => 128 <= byte_val b) file ->
   pbuf_read_varint file = Raise UnexpectedEOF)
  /\ (forall e, pbuf_read_varint file = Raise e -> e = UnexpectedEOF).
Proof.
  split; [apply varint_loop_unterminated | intros e; apply varint_loop_python].
Qed.

Lemma pbuf_read_varint_unterminated_witness :
  Forall (fun b => 128 <= byte_val b) (bytes_of [172; 130])
  /\ pbuf_read_varint (bytes_of [172; 130]) = Raise UnexpectedEOF.
Proof.
  assert (H : Forall (fun b => 128 <= byte_val b) (bytes_of [172; 130])).
  { repeat constructor; vm_compute; discriminate. }
  split; [exact H|].
  exact (proj1 (pbuf_read_varint_unterminated (bytes_of [172; 130])) H).
Defined.

(** X4. Signed round trip of the values that are not negative. For every
    [n] with [0 <= n < 2 ^ 63], reading the zig-zag varint encoding of [n]
    returns [n] and the number of bytes of the encoding. *)
Theorem pbuf_read_varsint_nonneg_round_trip (n : Z) (rest : bytes) :
  0 <= n < 2 ^ 63 ->
  pbuf_read_varsint (encode_signed_varint n ++ rest)
  = Ok (n, len (encode_signed_varint n), rest).
Proof.
  intros Hn. rewrite pbuf_read_varsint_encode by lia.
  unfold decoded. destruct (Z.ltb_spec n 0); [lia | reflexivity].
Qed.

Lemma pbuf_read_varsint_nonneg_round_trip_witness :
  encode_signed_varint 100 = bytes_of [200; 1]
  /\ pbuf_read_varsint (encode_signed_varint 100 ++ []) = Ok (100, 2, []).
Proof.
  split; [reflexivity|].
  exact (pbuf_read_varsint_nonneg_round_trip 100 [] ltac:(lia)).
Defined.

(** ** The tag/value reader *)

Lemma to_nat_len {A : Type} (l : list A) : Z.to_nat (len l) = length l.
Proof. unfold len. apply Nat2Z.id. Qed.

Lemma pbuf_read_str_encode (s rest : bytes) :
  pbuf_read_str (encode_varint (len s) ++ s ++ rest)
  = Ok (s, len (encode_varint (len s)) + len s, rest).
Proof.
  pose proof (len_nonneg s) as Hs.
  rewrite pbuf_read_str_eq, pbuf_read_varint_encode by exact Hs. cbn [bind].
  destruct (Z.eqb_spec (len s) 0) as [E|N].
  - destruct s; [|unfold len in E; simpl in E; lia].
    cbn [app]. replace (len (@nil byte)) with 0 by reflexivity.
    rewrite Z.add_0_r. reflexivity.
  - destruct (Z.leb_spec (len s) (len (s ++ rest))) as [_|Hlt].
    + rewrite to_nat_len, take_app_length, drop_app_length.
      rewrite (Z.add_comm (len s)). reflexivity.
    + rewrite len_app in Hlt. pose proof (len_nonneg rest). lia.
Qed.

(** X5. Round trip of a length-delimited value. For every bytes object [s],
    [pbuf_read_str] on the varint of its length followed by [s] returns [s]
    itself, counts the bytes of the length and of [s] as consumed, and leaves
    the file at the byte after [s]. *)
Theorem pbuf_read_str_round_trip (s rest : bytes) :
  pbuf_read_str (encode_varint (len s) ++ s ++ rest)
  = Ok (s, len (encode_varint (len s)) + len s, rest).
Proof. apply pbuf_read_str_encode. Qed.

(** The tag of a field: the field number above the three bits of the wire
    type. *)
Lemma tag_split (f t : Z) :
  0 <= f -> 0 <= t < 8 ->
  0 <= Z.lor (Z.shiftl f 3) t
  /\ Z.shiftr (Z.lor (Z.shiftl f 3) t) 3 = f
  /\ Z.land (Z.lor (Z.shiftl f 3) t) 7 = t.
Proof.
  intros Hf Ht. repeat split.
  - apply Z.lor_nonneg. split; [apply Z.shiftl_nonneg|]; lia.
  - rewrite Z.shiftr_lor, Z.shiftr_shiftl_l by lia.
    rewrite Z.sub_diag, Z.shiftl_0_r.
    rewrite (Z.shiftr_div_pow2 t) by lia. change (2 ^ 3) with 8.
    rewrite Z.div_small by lia. apply Z.lor_0_r.
  - rewrite Z.land_lor_distr_l. change 7 with (Z.ones 3).
    rewrite !Z.land_ones by lia. change (2 ^ 3) with 8.
    rewrite Z.shiftl_mul_pow2 by lia. change (2 ^ 3) with 8.
    rewrite Z.mod_mul by lia. rewrite Z.mod_small by lia. apply Z.lor_0_l.
Qed.

Lemma pbuf_read_tag_encode (f t : Z) (rest : bytes) :
  0 <= f -> 0 <= t < 8 ->
  pbuf_read_tag (encode_varint (Z.lor (Z.shiftl f 3) t) ++ rest)
  = Ok (f, t, len (encode_varint (Z.lor (Z.shiftl f 3) t)), rest).
Proof.
  intros Hf Ht. destruct (tag_split f t Hf Ht) as (H0 & H1 & H2).
  unfold pbuf_read_tag. rewrite pbuf_read_varint_encode by exact H0. cbn [bind].
  rewrite H1, H2. reflexivity.
Qed.

Lemma pbuf_read_tagval_encode (tv : Z * value) (rest : bytes) :
  encodable tv ->
  pbuf_read_tagval (encode_field tv ++ rest) = Ok (tv.1, tv.2, len (encode_field tv), rest).
Proof.
  destruct tv as [f [i|s]]; unfold encodable, encode_field; cbn [fst snd];
    intros [Hf Hv].
  - unfold field_int, pbuf_read_tagval. rewrite <- (Z.lor_0_r (Z.shiftl f 3)).
    rewrite <- app_assoc, pbuf_read_tag_encode by lia. cbn [bind].
    change (0 =? 0) with true. cbv iota.
    rewrite pbuf_read_varint_encode by exact Hv. cbn [bind].
    rewrite len_app. reflexivity.
  - unfold field_bytes, pbuf_read_tagval.
    rewrite <- app_assoc, pbuf_read_tag_encode by lia. cbn [bind].
    change (2 =? 0) with false. change (2 =? 2) with true. cbv iota.
    rewrite <- app_assoc, pbuf_read_str_encode. cbn [bind].
    rewrite !len_app. reflexivity.
Qed.

(** X6. Round trip of a field. For a field number [f >= 0]: reading the
    encoding of an integer field ([i >= 0], wire type 0) returns
    [(f, i)], reading the encoding of a bytes field (wire type 2) returns
    [(f, s)]; in both cases the count returned is the length of the encoding
    and the file is left at the byte after it. *)
Theorem pbuf_read_tagval_round_trip (f i : Z) (s rest : bytes) :
  0 <= f -> 0 <= i ->
  pbuf_read_tagval (field_int f i ++ rest)
  = Ok (f, VInt i, len (field_int f i), rest)
  /\ pbuf_read_tagval (field_bytes f s ++ rest)
     = Ok (f, VBytes s, len (field_bytes f s), rest).
Proof.
  intros Hf Hi. split.
  - apply (pbuf_read_tagval_encode (f, VInt i)). split; assumption.
  - apply (pbuf_read_tagval_encode (f, VBytes s)). split; [assumption | exact I].
Qed.

Lemma pbuf_read_tagval_round_trip_witness :
  field_bytes 1 (bytes_of [99; 97; 102; 101]) = bytes_of [10; 4; 99; 97; 102; 101]
  /\ pbuf_read_tagval (field_int 3 57 ++ [])
     = Ok (3, VInt 57, len (field_int 3 57), [])
  /\ pbuf_read_tagval (field_bytes 1 (bytes_of [99; 97; 102; 101]) ++ [])
     = Ok (1, VBytes (bytes_of [99; 97; 102; 101]),
           len (field_bytes 1 (bytes_of [99; 97; 102; 101])), []).
Proof.
  split; [reflexivity|].
  pose proof (pbuf_read_tagval_round_trip 3 57 (bytes_of [99; 97; 102; 101]) []
                ltac:(lia) ltac:(lia)) as [H3 _].
  pose proof (pbuf_read_tagval_round_trip 1 57 (bytes_of [99; 97; 102; 101]) []
                ltac:(lia) ltac:(lia)) as [_ H1].
  split; assumption.
Defined.



(** ** Messages *)

Lemma encode_field_nonempty (tv : Z * value) : 0 < len (encode_field tv).
Proof.
  destruct tv as [f [i|s]]; unfold encode_field, field_int, field_bytes; cbn [fst snd];
    rewrite len_app.
  - pose proof (encode_varint_nonempty (Z.shiftl f 3)).
    pose proof (encode_varint_nonempty i). lia.
  - pose proof (encode_varint_nonempty (Z.lor (Z.shiftl f 3) 2)).
    pose proof (len_nonneg (encode_varint (len s) ++ s)). lia.
Qed.

Lemma tagvals_loop_encode (fields : list (Z * value)) :
  Forall encodable fields ->
  tagvals_loop (S (length (encode_fields fields))) (encode_fields fields)
    (len (encode_fields fields)) = (fields, None).
Proof.
  induction fields as [|tv fields IH]; intros Hall; [reflexivity|].
  inversion Hall as [|? ? Htv Hrest]; subst.
  rewrite tagvals_loop_eq. unfold encode_fields in *. cbn [map concat].
  pose proof (encode_field_nonempty tv) as Hne.
  pose proof (len_nonneg (concat (map encode_field fields))) as Hr.
  rewrite len_app.
  assert (Hpos : (len (encode_field tv) + len (concat (map encode_field fields)) >? 0)
                 = true) by (apply Z.gtb_lt; lia).
  rewrite Hpos, pbuf_read_tagval_encode by exact Htv.
  replace (len (encode_field tv) + len (concat (map encode_field fields))
           - len (encode_field tv))
    with (len (concat (map encode_field fields))) by lia.
  rewrite IH by exact Hrest. destruct tv. reflexivity.
Qed.

Lemma pbuf_parse_tagvals_encode (fields : list (Z * value)) :
  Forall encodable fields ->
  pbuf_parse_tagvals (VBytes (encode_fields fields)) = (fields, None).
Proof.
  intros Hall. unfold pbuf_parse_tagvals. cbn [BytesIO].
  apply tagvals_loop_encode. exact Hall.
Qed.

(** X8. Round trip of a message. For every list of fields with field
    numbers and integer values that are not negative, [pbuf_parse_tagvals]
    on the concatenation of their encodings yields exactly these fields, in
    order, and ends normally. *)
Theorem pbuf_parse_tagvals_round_trip (fields : list (Z * value)) :
  Forall encodable fields ->
  pbuf_parse_tagvals (VBytes (encode_fields fields)) = (fields, None).
Proof. apply pbuf_parse_tagvals_encode. Qed.

Lemma pbuf_parse_tagvals_round_trip_witness :
  encode_fields [(2, VInt 42); (3, VBytes (bytes_of [120; 1]))]
  = bytes_of [16; 42; 26; 2; 120; 1]
  /\ pbuf_parse_tagvals
       (VBytes (encode_fields [(2, VInt 42); (3, VBytes (bytes_of [120; 1]))]))
     = ([(2, VInt 42); (3, VBytes (bytes_of [120; 1]))], None).
Proof.
  split; [reflexivity|].
  apply pbuf_parse_tagvals_round_trip.
  repeat constructor; cbn; lia.
Defined.







(** ** Packed arrays *)

Lemma packed_loop_encode (xs : list Z) :
  forall fuel vals,
    Forall (fun x => 0 <= x) xs ->
    (length (encode_packed xs) < fuel)%nat ->
    packed_loop fuel (encode_packed xs) (len (encode_packed xs)) vals
    = Ok (vals ++ xs).
Proof.
  unfold encode_packed.
  induction xs as [|x xs IH]; intros fuel vals Hxs Hfuel.
  - destruct fuel; [simpl in Hfuel; lia|]. simpl. rewrite app_nil_r. reflexivity.
  - inversion Hxs as [|? ? Hx Hxs']; subst. cbn [map concat] in *.
    pose proof (encode_varint_nonempty x) as Hne.
    pose proof (len_nonneg (concat (map encode_varint xs))) as Hr.
    rewrite len_app. rewrite length_app in Hfuel.
    destruct fuel as [|fuel]; [lia|]. cbn [packed_loop].
    assert (Hpos : (len (encode_varint x) + len (concat (map encode_varint xs)) >? 0)
                   = true) by (apply Z.gtb_lt; lia).
    rewrite Hpos, pbuf_read_varint_encode by exact Hx. cbn [bind].
    replace (len (encode_varint x) + len (concat (map encode_varint xs))
             - len (encode_varint x))
      with (len (concat (map encode_varint xs))) by lia.
    rewrite IH; [|exact Hxs' | unfold len in Hne; lia].
    rewrite <- app_assoc. reflexivity.
Qed.

Lemma pbuf_parse_packed_encode (xs : list Z) :
  Forall (fun x => 0 <= x) xs ->
  pbuf_parse_packed (VBytes (encode_packed xs)) = Ok xs.
Proof.
  intros Hxs. unfold pbuf_parse_packed. cbn [BytesIO bind].
  rewrite packed_loop_encode; [reflexivity | exact Hxs | lia].
Qed.

(** X10. Round trip of a packed array. For every list of integers that are
    not negative, [pbuf_parse_packed] on the concatenation of their varints
    returns the list. *)
Theorem pbuf_parse_packed_round_trip (xs : list Z) :
  Forall (fun x => 0 <= x) xs ->
  pbuf_parse_packed (VBytes (encode_packed xs)) = Ok xs.
Proof. apply pbuf_parse_packed_encode. Qed.

Lemma pbuf_parse_packed_round_trip_witness :
  encode_packed [1; 300; 0] = bytes_of [1; 172; 2; 0]
  /\ pbuf_parse_packed (VBytes (encode_packed [1; 300; 0])) = Ok [1; 300; 0].
Proof.
  split; [reflexivity|].
  apply pbuf_parse_packed_round_trip. repeat constructor; lia.
Defined.

(** X11. Round trip of a delta-coded array without negative steps. For every
    sequence whose first element is in [0, 2 ^ 63) and in which every
    element exceeds the one before it by a step in [0, 2 ^ 63),
    [pbuf_parse_packed_deltas] on its delta encoding returns the
    sequence. *)
Theorem pbuf_parse_packed_deltas_ascending_round_trip (xs : list Z) :
  Forall (fun d => 0 <= d < 2 ^ 63) (deltas 0 xs) ->
  pbuf_parse_packed_deltas (VBytes (encode_packed_deltas xs)) = Ok xs.
Proof. apply pbuf_parse_packed_deltas_ascending. Qed.

Lemma pbuf_parse_packed_deltas_ascending_round_trip_witness :
  deltas 0 [100; 101; 101; 250] = [100; 1; 0; 149]
  /\ pbuf_parse_packed_deltas (VBytes (encode_packed_deltas [100; 101; 101; 250]))
     = Ok [100; 101; 101; 250].
Proof.
  split; [reflexivity|].
  apply pbuf_parse_packed_deltas_ascending_round_trip.
  repeat constructor; cbn; lia.
Defined.

(** ** The framing loop *)

Lemma pbf_read_turn_partial_prefix decompress (file : bytes) :
  (0 < length file < 4)%nat ->
  pbf_read_turn decompress file = Raise StructError.
Proof.
  intros Hlen.
  destruct file as [|a [|b [|c [|d file]]]]; cbn [length] in Hlen; try lia;
    reflexivity.
Qed.

(** X12. A partial length prefix. When the loop of [pbf_read] comes to a
    position where one, two or three bytes are left, [struct.unpack] raises
    [struct.error]: the generator raises it after the frames yielded so
    far (where no byte is left, the generator ends normally). *)
Theorem pbf_read_partial_prefix decompress (file : bytes) frames file0 :
  pbf_reaches decompress file frames file0 ->
  (0 < length file0 < 4)%nat ->
  pbf_read decompress file = (frames, Some StructError).
Proof.
  intros Hr Hlen.
  rewrite (pbf_read_reaches _ _ _ _ Hr), pbf_read_eq.
  rewrite pbf_read_turn_partial_prefix by exact Hlen.
  unfold gen_app. cbn [fst snd]. rewrite app_nil_r. reflexivity.
Qed.

Lemma pbf_read_partial_prefix_witness :
  pbf_read zlib_stored (stored_frame "OSMData" indexed_block ++ bytes_of [0; 0; 0])
  = ([(OSMData, PBytes indexed_block)], Some StructError)
  /\ pbf_read zlib_stored (stored_frame "OSMData" indexed_block)
     = ([(OSMData, PBytes indexed_block)], None).
Proof.
  split; [|vm_compute; reflexivity].
  apply (pbf_read_partial_prefix zlib_stored _ _ (bytes_of [0; 0; 0])).
  - apply (pbf_reaches_turn _ _ _ _ (bytes_of [0; 0; 0])).
    + vm_compute. reflexivity.
    + apply pbf_reaches_start.
  - cbn. lia.
Defined.




Lemma message_loop_encode (fields : list (Z * value)) :
  forall (rest : bytes) vals,
    Forall encodable fields ->
    message_loop (S (length (encode_fields fields ++ rest)))
      (encode_fields fields ++ rest) (len (encode_fields fields)) vals
    = Ok (vals ++ fields, rest).
Proof.
  induction fields as [|tv fields IH]; intros rest vals Hall.
  - cbn. rewrite app_nil_r. reflexivity.
  - inversion Hall as [|? ? Htv Hrest]; subst.
    rewrite message_loop_eq. unfold encode_fields in *. cbn [map concat].
    pose proof (encode_field_nonempty tv) as Hne.
    pose proof (len_nonneg (concat (map encode_field fields))) as Hr.
    rewrite len_app, <- app_assoc.
    assert (Hpos : (len (encode_field tv) + len (concat (map encode_field fields)) >? 0)
                   = true) by (apply Z.gtb_lt; lia).
    rewrite Hpos, pbuf_read_tagval_encode by exact Htv. cbn [bind].
    replace (len (encode_field tv) + len (concat (map encode_field fields))
             - len (encode_field tv))
      with (len (concat (map encode_field fields))) by lia.
    rewrite IH by exact Hrest. rewrite <- app_assoc. destruct tv. reflexivity.
Qed.

Lemma read_message_encode (fields : list (Z * value)) (rest : bytes) :
  Forall encodable fields ->
  read_message (encode_fields fields ++ rest) (VInt (len (encode_fields fields)))
  = Ok (dict fields, rest).
Proof.
  intros Hall. unfold read_message.
  rewrite message_loop_encode by exact Hall. reflexivity.
Qed.

Lemma unpack_pack_I (n : Z) (rest : bytes) :
  0 <= n < 2 ^ 32 ->
  read 4 (pack_I n ++ rest) = (pack_I n, rest) /\ unpack_I (pack_I n) = Ok n.
Proof.
  intros Hn. split; [reflexivity|].
  unfold pack_I, bytes_of. cbn [map unpack_I].
  rewrite !byte_val_of by (apply Z.mod_pos_bound; lia).
  rewrite !Z.shiftr_div_pow2 by lia.
  change (2 ^ 24) with 16777216. change (2 ^ 16) with 65536. change (2 ^ 8) with 256.
  change (2 ^ 32) with 4294967296 in Hn.
  f_equal. clear rest. Z.div_mod_to_equations. lia.
Qed.

Lemma read_header_encode (fields : list (Z * value)) (rest : bytes) :
  Forall encodable fields ->
  len (encode_fields fields) < 2 ^ 32 ->
  read_header (pack_I (len (encode_fields fields)) ++ encode_fields fields ++ rest)
  = Ok (Some (dict fields), rest).
Proof.
  intros Hall Hlen. unfold read_header.
  pose proof (len_nonneg (encode_fields fields)) as H0.
  destruct (unpack_pack_I (len (encode_fields fields)) (encode_fields fields ++ rest))
    as [Hr Hu]; [lia|].
  rewrite Hr. change (nonempty (pack_I (len (encode_fields fields)))) with true.
  cbn [negb]. rewrite Hu. cbn [bind].
  rewrite read_message_encode by exact Hall. reflexivity.
Qed.

Lemma pbf_read_frame_encode decompress (label : string) (n : Z) (z v rest : bytes) :
  z <> [] ->
  decompress z = Some v ->
  len v = n ->
  len (encode_fields [(1, VBytes (list_byte_of_string label));
                      (3, VInt (len (field_int 2 n ++ field_bytes 3 z)))]) < 2 ^ 32 ->
  pbf_read decompress (frame label (field_int 2 n ++ field_bytes 3 z) ++ rest)
  = gen_cons (Some (VBytes (list_byte_of_string label)), PBytes v)
      (pbf_read decompress rest).
Proof.
  intros Hz Hd Hv Hlen.
  pose proof (len_nonneg v) as Hv0.
  set (body := field_int 2 n ++ field_bytes 3 z) in *.
  set (hfields := [(1, VBytes (list_byte_of_string label)); (3, VInt (len body))]) in *.
  assert (Hbody : body = encode_fields [(2, VInt n); (3, VBytes z)]).
  { unfold body, encode_fields, encode_field. cbn [map concat fst snd].
    rewrite app_nil_r. reflexivity. }
  assert (Hframe : frame label body ++ rest
                   = pack_I (len (encode_fields hfields))
                       ++ encode_fields hfields ++ (body ++ rest)).
  { unfold frame, hfields, encode_fields, encode_field. cbn [map concat fst snd].
    rewrite app_nil_r, <- !app_assoc. reflexivity. }
  assert (Hh : read_header (frame label body ++ rest)
               = Ok (Some (dict hfields), body ++ rest)).
  { rewrite Hframe. apply read_header_encode; [|exact Hlen].
    pose proof (len_nonneg body) as Hb.
    unfold hfields.
    constructor; [split; [cbn; lia | exact I]|].
    constructor; [split; [cbn; lia | exact Hb] | constructor]. }
  assert (Hm : read_message (body ++ rest) (default (VInt 0) (dict hfields !! 3))
               = Ok (dict [(2, VInt n); (3, VBytes z)], rest)).
  { replace (dict hfields !! 3) with (Some (VInt (len body))).
    - cbn [default]. rewrite Hbody at 1 2. apply read_message_encode.
      constructor; [split; [cbn; lia | cbn [snd]; lia]|].
      constructor; [split; [cbn; lia | exact I] | constructor].
    - symmetry. unfold hfields, dict. cbn [foldl fst snd]. apply lookup_insert_eq. }
  rewrite pbf_read_eq.
  rewrite (pbf_read_turn_compressed decompress _ (dict hfields) (body ++ rest)
             (dict [(2, VInt n); (3, VBytes z)]) rest z v Hh).
  - replace (dict hfields !! 1) with (Some (VBytes (list_byte_of_string label)));
      [reflexivity|].
    symmetry. unfold hfields, dict. cbn [foldl fst snd].
    rewrite lookup_insert_ne by lia. apply lookup_insert_eq.
  - apply dict_label_nonempty.
  - exact Hm.
  - unfold dict. cbn [foldl fst snd].
    rewrite !lookup_insert_ne, lookup_empty by lia. reflexivity.
  - unfold dict. cbn [foldl fst snd]. apply lookup_insert_eq.
  - exact Hz.
  - exact Hd.
  - unfold dict. cbn [foldl fst snd].
    rewrite lookup_insert_ne, lookup_insert_eq by lia. cbn [default len_eq].
    apply Z.eqb_eq. exact Hv.
Qed.

(** X14. A well-formed compressed frame. The file starts with a frame whose
    header carries the type label and the length of the body, and whose body
    carries a size [n] in field 2 and compressed bytes [z] in field 3, and
    goes on with [rest]. If [z] decompresses to a payload [v] of length [n],
    [pbf_read] yields the label with [v] and then what it yields on [rest]:
    frames are read one after the other, each from the byte where the one
    before it ends. *)
Theorem pbf_read_compressed_frame decompress (label : string) (n : Z) (z v rest : bytes) :
  z <> [] ->
  decompress z = Some v ->
  len v = n ->
  len (encode_fields [(1, VBytes (list_byte_of_string label));
                      (3, VInt (len (field_int 2 n ++ field_bytes 3 z)))]) < 2 ^ 32 ->
  pbf_read decompress (frame label (field_int 2 n ++ field_bytes 3 z) ++ rest)
  = gen_cons (Some (VBytes (list_byte_of_string label)), PBytes v)
      (pbf_read decompress rest).
Proof. apply pbf_read_frame_encode. Qed.

Lemma pbf_read_compressed_frame_witness :
  pbf_read zlib_stored
    (frame "OSMData" (field_int 2 42 ++ field_bytes 3 (zlib_store indexed_block))
     ++ bytes_of [0; 0; 0])
  = gen_cons (OSMData, PBytes indexed_block) ([], Some StructError).
Proof.
  replace ([], Some StructError) with (pbf_read zlib_stored (bytes_of [0; 0; 0]))
    by reflexivity.
  apply (pbf_read_compressed_frame zlib_stored "OSMData" 42
           (zlib_store indexed_block) indexed_block (bytes_of [0; 0; 0])).
  - vm_compute. discriminate.
  - vm_compute. reflexivity.
  - reflexivity.
  - vm_compute. reflexivity.
Defined.


(** ** The string table *)

Lemma utf8_decode_ascii (s : bytes) :
  Forall (fun b => byte_val b < 128) s -> utf8_decode s = Ok (map byte_val s).
Proof.
  induction 1 as [|b s Hb _ IH]; [reflexivity|].
  cbn [utf8_decode map]. destruct (Z.ltb_spec (byte_val b) 128); [|lia].
  rewrite IH. reflexivity.
Qed.

Lemma stringtable_loop (entries : list bytes) :
  forall names,
    Forall (Forall (fun b => byte_val b < 128)) entries ->
    for_list stringtable_field (map (fun s : bytes => (1, VBytes s)) entries) names
    = Ok (names ++ map (map byte_val) entries).
Proof.
  induction entries as [|s entries IH]; intros names Hall.
  - cbn. rewrite app_nil_r. reflexivity.
  - inversion Hall as [|? ? Hs Hrest]; subst. cbn [map for_list].
    unfold stringtable_field at 1. change (1 =? 1) with true. cbv iota. cbn [decode].
    rewrite utf8_decode_ascii by exact Hs. cbn [bind].
    rewrite IH by exact Hrest. rewrite <- app_assoc. reflexivity.
Qed.

(** X15. Round trip of a string table of ASCII entries. For every list of
    bytes objects whose bytes are all below 128, [osm_read_stringtable] on
    the message that holds them as its fields 1 returns their texts, in
    order, the empty entries included. *)
Theorem osm_read_stringtable_round_trip (entries : list bytes) :
  Forall (Forall (fun b => byte_val b < 128)) entries ->
  osm_read_stringtable (VBytes (encode_stringtable entries))
  = Ok (map (map byte_val) entries).
Proof.
  intros Hall. unfold osm_read_stringtable, encode_stringtable, for_gen.
  rewrite pbuf_parse_tagvals_encode.
  - cbn [fst snd]. change (for_list _ ?l ?a) with (for_list stringtable_field l a).
    rewrite stringtable_loop by exact Hall. reflexivity.
  - apply Forall_map. apply Forall_forall. intros s _. split; [cbn; lia | exact I].
Qed.

Lemma osm_read_stringtable_round_trip_witness :
  encode_stringtable [[]; list_byte_of_string "amenity"; list_byte_of_string "cafe"]
  = bytes_of [10; 0] ++ scenario_strtab
  /\ osm_read_stringtable
       (VBytes (encode_stringtable
                  [[]; list_byte_of_string "amenity"; list_byte_of_string "cafe"]))
     = Ok [str ""; str "amenity"; str "cafe"].
Proof.
  split; [reflexivity|].
  apply (osm_read_stringtable_round_trip
           [[]; list_byte_of_string "amenity"; list_byte_of_string "cafe"]).
  repeat constructor; vm_compute; reflexivity.
Defined.



(** ** The tags of a dense message *)

Lemma subscript_in_range (names : list pystr) (i : Z) :
  0 <= i < len names -> exists s, subscript (Some names) i = Ok s.
Proof.
  intros Hi. unfold subscript.
  assert (Hn : (i <? 0) = false) by (apply Z.ltb_ge; lia).
  cbv zeta. rewrite Hn, Hn.
  destruct (names !! Z.to_nat i) as [s|] eqn:Hl.
  - exists s. reflexivity.
  - apply lookup_ge_None in Hl. unfold len in Hi. lia.
Qed.

Lemma in_table_resolves (names : list pystr) (kv : Z * Z) :
  in_table (len names) kv -> resolves (Some names) kv.
Proof.
  intros [Hk Hv]. unfold resolves.
  split; [lia|]. split; apply subscript_in_range; lia.
Qed.

Lemma name_at_resolves names (i : Z) k : subscript names i = Ok k -> name_at names i = k.
Proof. unfold name_at. intros ->. reflexivity. Qed.

(** The tag loop over the pairs of one point and its sentinel. *)
Lemma tags_loop_point names (run : list (Z * Z)) :
  forall (gs : list Z) ks nd,
    Forall (resolves names) run ->
    tags_loop names (flat run ++ 0 :: gs) ks nd
    = tags_loop names gs (ks ++ [nd ++ map (tag_of names) run]) [].
Proof.
  induction run as [|[i j] run IH]; intros gs ks nd Hrun.
  - cbn. rewrite app_nil_r. reflexivity.
  - inversion Hrun as [|? ? Hr Hrun']; subst.
    destruct Hr as (Hnz & [k Hk] & [v Hv]). cbn [fst snd] in *.
    unfold flat. cbn [map concat app fst snd tags_loop]. fold (flat run).
    destruct (Z.eqb_spec i 0) as [E|_]; [contradiction|].
    rewrite Hk, Hv. cbn [bind]. rewrite IH by exact Hrun'.
    unfold tag_of at 2. cbn [fst snd].
    rewrite (name_at_resolves _ _ _ Hk), (name_at_resolves _ _ _ Hv).
    rewrite <- app_assoc. reflexivity.
Qed.

Lemma tags_loop_runs names (runs : list (list (Z * Z))) :
  forall ks,
    Forall (Forall (resolves names)) runs ->
    tags_loop names (tag_run runs) ks []
    = Ok (ks ++ map (map (tag_of names)) runs, []).
Proof.
  unfold tag_run.
  induction runs as [|run runs IH]; intros ks Hruns.
  - cbn. rewrite app_nil_r. reflexivity.
  - inversion Hruns as [|? ? Hrun Hruns']; subst. cbn [map concat].
    rewrite <- app_assoc. cbn [app].
    rewrite tags_loop_point by exact Hrun. rewrite IH by exact Hruns'.
    cbn [app]. rewrite <- app_assoc. reflexivity.
Qed.

Lemma tags_loop_in_table (names : list pystr) (runs : list (list (Z * Z))) :
  Forall (Forall (in_table (len names))) runs ->
  tags_loop (Some names) (tag_run runs) [] []
  = Ok (map (map (tag_of (Some names))) runs, []).
Proof.
  intros Hruns. rewrite tags_loop_runs; [reflexivity|].
  eapply Forall_impl; [exact Hruns|]. intros run Hrun.
  eapply Forall_impl; [exact Hrun|]. apply in_table_resolves.
Qed.

(** X17. The tag lists of a well-formed tag run. The packed array holds, for
    each point, its pairs of key and value indices and then the sentinel 0;
    every key index is a position of the string table other than 0 and
    every value index is a position of the string table. The tag loop of
    [osm_read_dense_nodes] returns one tag list per point, with as many tags
    as the point has pairs, each index replaced by the string at that
    position, and is left with no pair in progress. *)
Theorem tags_loop_well_formed (names : list pystr) (runs : list (list (Z * Z))) :
  Forall (Forall (in_table (len names))) runs ->
  tags_loop (Some names) (tag_run runs) [] []
  = Ok (map (map (tag_of (Some names))) runs, []).
Proof. apply tags_loop_in_table. Qed.

Lemma tags_loop_well_formed_witness :
  tag_run [[(1, 2); (2, 0)]; []; [(1, 1)]] = [1; 2; 2; 0; 0; 0; 1; 1; 0]
  /\ tags_loop (Some [str ""; str "amenity"; str "cafe"])
       (tag_run [[(1, 2); (2, 0)]; []; [(1, 1)]]) [] []
     = Ok ([[(str "amenity", str "cafe"); (str "cafe", str "")]; [];
            [(str "amenity", str "amenity")]], []).
Proof.
  split; [reflexivity|].
  apply (tags_loop_well_formed [str ""; str "amenity"; str "cafe"]
           [[(1, 2); (2, 0)]; []; [(1, 1)]]).
  repeat constructor; cbn; lia.
Defined.

(** ** Dense messages *)

Lemma tag_run_nonneg (n : Z) (runs : list (list (Z * Z))) :
  Forall (Forall (in_table n)) runs -> Forall (fun x => 0 <= x) (tag_run runs).
Proof.
  unfold tag_run. induction 1 as [|run runs Hrun _ IH]; [constructor|].
  cbn [map concat]. rewrite <- app_assoc. apply Forall_app. split.
  - clear IH. induction Hrun as [|[i j] run [Hi Hj] _ IH']; [constructor|].
    unfold flat. cbn [map concat app fst snd] in *.
    constructor; [lia|]. constructor; [lia | exact IH'].
  - cbn [app]. constructor; [lia | exact IH].
Qed.

Lemma zip4_length (a b c : list Z) (d : list (list (pystr * pystr))) :
  length a = length b -> length b = length c -> length c = length d ->
  length (zip4 a b c d) = length a.
Proof.
  revert b c d. induction a as [|x a IH]; intros [|y b] [|z c] [|w d] H1 H2 H3;
    try discriminate; [reflexivity|].
  cbn [zip4 length]. f_equal. apply IH; simpl in *; lia.
Qed.

(** X18. Round trip of a dense message. The message holds the three
    delta-coded arrays [ids], [lats], [lons], none with a negative first
    element or a negative step, and the tag run of [runs], all four of the
    same length, with indices that are positions of the string table.
    [osm_read_dense_nodes] returns one node per id, in order: its id,
    latitude and longitude, and its tags looked up in the string table. *)
Theorem osm_read_dense_nodes_round_trip (names : list pystr) (idl latl lonl : list Z)
    (runs : list (list (Z * Z))) :
  Forall (fun d => 0 <= d < 2 ^ 63) (deltas 0 idl) ->
  Forall (fun d => 0 <= d < 2 ^ 63) (deltas 0 latl) ->
  Forall (fun d => 0 <= d < 2 ^ 63) (deltas 0 lonl) ->
  Forall (Forall (in_table (len names))) runs ->
  length idl = length latl -> length latl = length lonl ->
  length lonl = length runs ->
  osm_read_dense_nodes (VBytes (encode_dense idl latl lonl runs)) (Some names)
  = Ok (zip4 idl latl lonl (map (map (tag_of (Some names))) runs))
  /\ length (zip4 idl latl lonl (map (map (tag_of (Some names))) runs)) = length idl.
Proof.
  intros Hids Hlats Hlons Hruns L1 L2 L3. split.
  - unfold osm_read_dense_nodes, encode_dense, for_gen.
    rewrite pbuf_parse_tagvals_encode
      by (repeat (constructor; [split; [cbn; lia | exact I]|]); constructor).
    cbn [fst snd for_list].
    unfold dense_field at 1. change (1 =? 1) with true. cbv iota.
    rewrite pbuf_parse_packed_deltas_ascending by exact Hids. cbn [bind].
    unfold dense_field at 1. change (8 =? 1) with false. change (8 =? 8) with true.
    cbv iota. rewrite pbuf_parse_packed_deltas_ascending by exact Hlats. cbn [bind].
    unfold dense_field at 1. change (9 =? 1) with false. change (9 =? 8) with false.
    change (9 =? 9) with true. cbv iota.
    rewrite pbuf_parse_packed_deltas_ascending by exact Hlons. cbn [bind].
    unfold dense_field at 1. change (10 =? 1) with false. change (10 =? 8) with false.
    change (10 =? 9) with false. change (10 =? 10) with true. cbv iota.
    rewrite pbuf_parse_packed_encode
      by (eapply tag_run_nonneg; exact Hruns).
    cbn [bind]. rewrite tags_loop_in_table by exact Hruns.
    cbn [bind ids lats lons kvs dense_unbound].
    unfold dense_check. cbn [ids lats lons kvs load bind].
    assert (E1 : (len idl =? len latl) = true) by (apply Z.eqb_eq; unfold len; lia).
    assert (E2 : (len latl =? len lonl) = true) by (apply Z.eqb_eq; unfold len; lia).
    assert (E3 : (len lonl =? len (map (map (tag_of (Some names))) runs)) = true).
    { apply Z.eqb_eq. unfold len. rewrite length_map. lia. }
    rewrite E1, E2, E3. reflexivity.
  - apply zip4_length; [exact L1 | exact L2 | rewrite length_map; exact L3].
Qed.

Lemma osm_read_dense_nodes_round_trip_witness :
  encode_dense [100; 101] [10; 10] [20; 21] [[(1, 2)]; []] = scenario_dense
  /\ osm_read_dense_nodes (VBytes (encode_dense [100; 101] [10; 10] [20; 21] [[(1, 2)]; []]))
       (Some [str ""; str "amenity"; str "cafe"])
     = Ok scenario_nodes.
Proof.
  split; [reflexivity|].
  apply (osm_read_dense_nodes_round_trip [str ""; str "amenity"; str "cafe"]
           [100; 101] [10; 10] [20; 21] [[(1, 2)]; []]);
    try reflexivity; repeat constructor; cbn; lia.
Defined.

Lemma for_list_skip {A S : Type} (body : S -> A -> result S) (pre : list A) x post :
  (forall s, body s x = Ok s) ->
  forall s, for_list body (pre ++ x :: post) s = for_list body (pre ++ post) s.
Proof.
  intros Hx. induction pre as [|y pre IH]; intros s; cbn [for_list app].
  - rewrite Hx. reflexivity.
  - destruct (body s y); cbn [bind]; [apply IH | reflexivity].
Qed.

(** X19. The other fields of a dense message are ignored. Two dense
    messages have the same fields but for one field whose number is none of
    1, 8, 9, 10, present in the first only: [osm_read_dense_nodes] returns
    the same for both. The value of that field is not looked at. *)
Theorem dense_other_fields_ignored (data data' : value) names pre t v post status :
  pbuf_parse_tagvals data = (pre ++ (t, v) :: post, status) ->
  pbuf_parse_tagvals data' = (pre ++ post, status) ->
  t <> 1 -> t <> 8 -> t <> 9 -> t <> 10 ->
  osm_read_dense_nodes data names = osm_read_dense_nodes data' names.
Proof.
  intros Hd Hd' N1 N8 N9 N10.
  unfold osm_read_dense_nodes, for_gen. rewrite Hd, Hd'. cbn [fst snd].
  rewrite (for_list_skip (dense_field names) pre (t, v) post); [reflexivity|].
  intros s. unfold dense_field.
  destruct (Z.eqb_spec t 1); [contradiction|].
  destruct (Z.eqb_spec t 8); [contradiction|].
  destruct (Z.eqb_spec t 9); [contradiction|].
  destruct (Z.eqb_spec t 10); [contradiction|]. reflexivity.
Qed.

Lemma dense_other_fields_ignored_witness :
  osm_read_dense_nodes
    (VBytes (bytes_of [10; 3; 200; 1; 2; 42; 2; 255; 255; 66; 2; 20; 0; 74; 2; 40; 2;
                       82; 4; 1; 2; 0; 0]))
    (Some [str ""; str "amenity"; str "cafe"])
  = osm_read_dense_nodes (VBytes scenario_dense) (Some [str ""; str "amenity"; str "cafe"]).
Proof.
  apply (dense_other_fields_ignored _ _ _
           [(1, VBytes (bytes_of [200; 1; 2]))] 5 (VBytes (bytes_of [255; 255]))
           [(8, VBytes (bytes_of [20; 0])); (9, VBytes (bytes_of [40; 2]));
            (10, VBytes (bytes_of [1; 2; 0; 0]))] None);
    try (vm_compute; reflexivity); discriminate.
Defined.

(** ** Files of several frames *)

(** X20. Round trip of a file. The file is a sequence of frames with
    compressed payloads, each of which [decompress] inflates to a payload of
    the size that the frame declares. [pbf_read] yields the label and the
    payload of every frame, in the order of the file, and ends normally at
    the end of the file. *)
Theorem pbf_read_file_round_trip decompress (items : list (string * bytes * bytes)) :
  Forall (inflates decompress) items ->
  pbf_read decompress (encode_file items) = (map yielded items, None).
Proof.
  induction 1 as [|[[label z] v] items (Hz & Hd & Hlen) _ IH].
  - reflexivity.
  - unfold encode_file in *. cbn [map concat fst snd] in *.
    unfold compressed_frame at 1.
    rewrite (pbf_read_frame_encode decompress label (len v) z v);
      [ | exact Hz | exact Hd | reflexivity | exact Hlen ].
    rewrite IH. reflexivity.
Qed.

Lemma pbf_read_file_round_trip_witness :
  pbf_read zlib_stored
    (encode_file [("OSMHeader"%string, zlib_store [], []);
                  ("OSMData"%string, zlib_store indexed_block, indexed_block)])
  = ([(OSMHeader, PBytes []); (OSMData, PBytes indexed_block)], None).
Proof.
  apply (pbf_read_file_round_trip zlib_stored
           [("OSMHeader"%string, zlib_store [], []);
            ("OSMData"%string, zlib_store indexed_block, indexed_block)]).
  repeat constructor; vm_compute; solve [discriminate | reflexivity].
Defined.

(** ** The header block *)

Lemma header_block_loop_fuel (fuel : nat) :
  forall fuel' file size vals,
    (length file < fuel)%nat -> (length file < fuel')%nat ->
    header_block_loop fuel file size vals = header_block_loop fuel' file size vals.
Proof.
  induction fuel as [|fuel IH]; intros [|fuel'] file size vals Hf Hf'; try lia.
  cbn [header_block_loop]. destruct (size >? 0); [|reflexivity].
  destruct (pbuf_read_tagval file) as [[[[t v] l] file']|e] eqn:Hr; [|reflexivity].
  pose proof (pbuf_read_tagval_shorter _ _ _ _ _ Hr) as Hs.
  cbn [bind]. destruct (t =? 1).
  - destruct (list_of_gen (pbuf_parse_tagvals v)); cbn [bind]; [|reflexivity].
    apply IH; lia.
  - cbn [bind]. apply IH; lia.
Qed.

Lemma header_block_loop_encode (fields : list (Z * header_field)) :
  forall vals,
    Forall header_encodable fields ->
    header_block_loop (S (length (encode_header_block fields)))
      (encode_header_block fields) (len (encode_header_block fields)) vals
    = Ok (vals ++ fields).
Proof.
  induction fields as [|[t hv] fields IH]; intros vals Hall.
  - cbn. rewrite app_nil_r. reflexivity.
  - inversion Hall as [|? ? Htv Hrest]; subst.
    unfold encode_header_block in *. cbn [map concat].
    set (rest := concat (map encode_header_field fields)) in *.
    assert (Hstep : exists tv,
               encode_header_field (t, hv) = encode_field tv /\ encodable tv
               /\ tv.1 = t
               /\ (if t =? 1
                   then let* vs := list_of_gen (pbuf_parse_tagvals tv.2) in Ok (HFields vs)
                   else Ok (HValue tv.2)) = Ok hv).
    { unfold header_encodable, encode_header_field in *. cbn [fst snd] in *.
      destruct hv as [v|vs].
      - destruct Htv as [Hne Henc]. exists (t, v). cbn [fst snd].
        split; [reflexivity|]. split; [exact Henc|]. split; [reflexivity|].
        destruct (Z.eqb_spec t 1); [contradiction | reflexivity].
      - destruct Htv as [-> Henc]. exists (1, VBytes (encode_fields vs)). cbn [fst snd].
        split; [reflexivity|]. split; [split; [cbn; lia | exact I]|].
        split; [reflexivity|].
        change (1 =? 1) with true. cbv iota.
        rewrite pbuf_parse_tagvals_encode by exact Henc. reflexivity. }
    destruct Hstep as (tv & -> & Henc & Ht & Hv).
    pose proof (encode_field_nonempty tv) as Hne.
    pose proof (len_nonneg rest) as Hr.
    cbn [header_block_loop]. rewrite len_app.
    assert (Hpos : (len (encode_field tv) + len rest >? 0) = true)
      by (apply Z.gtb_lt; lia).
    rewrite Hpos, pbuf_read_tagval_encode by exact Henc. cbn [bind].
    rewrite Ht, Hv. cbn [bind].
    replace (len (encode_field tv) + len rest - len (encode_field tv))
      with (len rest) by lia.
    rewrite (header_block_loop_fuel _ (S (length rest)))
      by (rewrite ?length_app; unfold len in Hne; lia).
    rewrite IH by exact Hrest. rewrite <- app_assoc. reflexivity.
Qed.

(** X21. Round trip of a header block. The block is a message whose fields
    numbered 1 hold nested messages and whose other fields hold integers
    or bytes. [osm_read_header_block] returns its fields in order, every
    field 1 replaced by the list of the fields of its nested message and
    every other field as it is. *)
Theorem osm_read_header_block_round_trip (fields : list (Z * header_field)) :
  Forall header_encodable fields ->
  osm_read_header_block (PBytes (encode_header_block fields)) = Ok fields.
Proof.
  intros Hall. unfold osm_read_header_block.
  rewrite header_block_loop_encode by exact Hall. reflexivity.
Qed.

Lemma osm_read_header_block_round_trip_witness :
  encode_header_block [(1, HFields [(1, VInt 5); (2, VInt 7)]);
                       (4, HValue (VBytes (list_byte_of_string "DenseNodes")))]
  = bytes_of [10; 4; 8; 5; 16; 7; 34; 10; 68; 101; 110; 115; 101; 78; 111; 100; 101; 115]
  /\ osm_read_header_block
       (PBytes (encode_header_block
                  [(1, HFields [(1, VInt 5); (2, VInt 7)]);
                   (4, HValue (VBytes (list_byte_of_string "DenseNodes")))]))
     = Ok [(1, HFields [(1, VInt 5); (2, VInt 7)]);
           (4, HValue (VBytes (list_byte_of_string "DenseNodes")))].
Proof.
  split; [reflexivity|].
  apply (osm_read_header_block_round_trip
           [(1, HFields [(1, VInt 5); (2, VInt 7)]);
            (4, HValue (VBytes (list_byte_of_string "DenseNodes")))]).
  constructor.
  - split; [reflexivity|]. repeat constructor; cbn; lia.
  - constructor; [|constructor]. split; [discriminate|]. split; [cbn; lia | exact I].
Defined.

(** X22. A header block whose field 1 is an integer. When the first field
    of the block is numbered 1 and has wire type 0, [osm_read_header_block]
    raises [TypeError]: the integer is handed to [pbuf_parse_tagvals], which
    wants bytes. Nothing of what follows is read. *)
Theorem osm_read_header_block_integer_field (i : Z) (rest : bytes) :
  0 <= i ->
  osm_read_header_block (PBytes (field_int 1 i ++ rest)) = Raise TypeError.
Proof.
  intros Hi. unfold osm_read_header_block. cbn [header_block_loop].
  pose proof (encode_field_nonempty (1, VInt i)) as Hne.
  change (encode_field (1, VInt i)) with (field_int 1 i) in Hne.
  pose proof (len_nonneg rest) as Hr.
  rewrite len_app.
  assert (Hpos : (len (field_int 1 i) + len rest >? 0) = true)
    by (apply Z.gtb_lt; lia).
  rewrite Hpos. change (field_int 1 i) with (encode_field (1, VInt i)).
  rewrite (pbuf_read_tagval_encode (1, VInt i) rest) by (split; [cbn; lia | exact Hi]).
  reflexivity.
Qed.

Lemma osm_read_header_block_integer_field_witness :
  field_int 1 5 ++ bytes_of [255] = bytes_of [8; 5; 255]
  /\ osm_read_header_block (PBytes (field_int 1 5 ++ bytes_of [255])) = Raise TypeError.
Proof.
  split; [reflexivity|].
  apply (osm_read_header_block_integer_field 5 (bytes_of [255])). lia.
Defined.

(** ** Groups *)

(** The loop of [osm_read_group] only appends to the list that it builds. *)
Lemma group_field_acc names (vals : list node) (tv : Z * value) :
  group_field names vals tv
  = (let* r := group_field names [] tv in Ok (vals ++ r)).
Proof.
  destruct tv as [t v]. unfold group_field.
  destruct (t =? 1).
  - destruct (osm_read_node v names); reflexivity.
  - destruct (t =? 2).
    + destruct (osm_read_dense_nodes v names); reflexivity.
    + cbn [bind]. rewrite app_nil_r. reflexivity.
Qed.

Lemma group_loop_acc names (fields : list (Z * value)) :
  forall vals,
    for_list (group_field names) fields vals
    = (let* r := for_list (group_field names) fields [] in Ok (vals ++ r)).
Proof.
  induction fields as [|tv fields IH]; intros vals; cbn [for_list bind].
  - rewrite app_nil_r. reflexivity.
  - rewrite (group_field_acc names vals tv).
    destruct (group_field names [] tv) as [r|e]; cbn [bind]; [|reflexivity].
    rewrite (IH (vals ++ r)), (IH r).
    destruct (for_list (group_field names) fields []) as [r'|e]; cbn [bind];
      [|reflexivity].
    rewrite app_assoc. reflexivity.
Qed.

Lemma encode_fields_app (f1 f2 : list (Z * value)) :
  encode_fields (f1 ++ f2) = encode_fields f1 ++ encode_fields f2.
Proof. unfold encode_fields. rewrite map_app, concat_app. reflexivity. Qed.

(** X23. A group is decoded field by field. For two messages [f1] and [f2],
    the group made of the fields of [f1] followed by those of [f2] decodes
    to the nodes of [f1] followed by the nodes of [f2]; it raises what the
    first of them raises, and otherwise what the second raises. *)
Theorem osm_read_group_app names (f1 f2 : list (Z * value)) :
  Forall encodable f1 -> Forall encodable f2 ->
  osm_read_group (VBytes (encode_fields f1 ++ encode_fields f2)) names
  = (let* a := osm_read_group (VBytes (encode_fields f1)) names in
     let* b := osm_read_group (VBytes (encode_fields f2)) names in
     Ok (a ++ b)).
Proof.
  intros H1 H2. rewrite <- encode_fields_app. unfold osm_read_group, for_gen.
  rewrite !pbuf_parse_tagvals_encode
    by (try apply Forall_app; auto).
  cbn [fst snd].
  destruct (for_list (group_field names) f1 []) as [a|e] eqn:Ha; cbn [bind].
  - rewrite (for_list_app (group_field names) f1 f2 [] a Ha).
    rewrite (group_loop_acc names f2 a).
    destruct (for_list (group_field names) f2 []) as [b|e]; reflexivity.
  - destruct f2 as [|x f2].
    + rewrite app_nil_r, Ha. reflexivity.
    + assert (Hex : exists pre y post s,
                 f1 = pre ++ y :: post
                 /\ for_list (group_field names) pre [] = Ok s
                 /\ group_field names s y = Raise e).
      { clear H1. revert Ha. generalize (@nil node).
        induction f1 as [|y f1 IH]; intros s Ha; cbn [for_list] in Ha.
        - discriminate.
        - destruct (group_field names s y) as [s1|e1] eqn:Hy; cbn [bind] in Ha.
          + destruct (IH s1 Ha) as (pre & z & post & s2 & -> & Hpre & Hz).
            exists (y :: pre), z, post, s2. split; [reflexivity|].
            split; [|exact Hz]. cbn [for_list]. rewrite Hy. exact Hpre.
          + inversion Ha; subst.
            exists [], y, f1, s.
            split; [reflexivity|]. split; [reflexivity | exact Hy]. }
      destruct Hex as (pre & y & post & s & -> & Hpre & Hy).
      rewrite <- app_assoc. cbn [app].
      rewrite (for_list_raises (group_field names) pre y (post ++ x :: f2) [] s e Hpre Hy).
      reflexivity.
Qed.

Lemma osm_read_group_app_witness :
  osm_read_group
    (VBytes (encode_fields [(2, VBytes scenario_dense)]
             ++ encode_fields [(1, VBytes (bytes_of [8; 7]))]))
    (Some [str ""; str "amenity"; str "cafe"])
  = Ok (scenario_nodes ++ [RawNode [(1, VInt 7)]]).
Proof.
  rewrite (osm_read_group_app (Some [str ""; str "amenity"; str "cafe"])
             [(2, VBytes scenario_dense)] [(1, VBytes (bytes_of [8; 7]))]).
  - vm_compute. reflexivity.
  - repeat constructor; cbn; lia.
  - repeat constructor; cbn; lia.
Defined.

Lemma raw_nodes_loop names (raws : list (list (Z * value))) :
  forall vals,
    Forall (Forall encodable) raws ->
    for_list (group_field names)
      (map (fun fs : list (Z * value) => (1, VBytes (encode_fields fs))) raws) vals
    = Ok (vals ++ map RawNode raws).
Proof.
  induction raws as [|fs raws IH]; intros vals Hall.
  - cbn. rewrite app_nil_r. reflexivity.
  - inversion Hall as [|? ? Hfs Hrest]; subst. cbn [map for_list].
    unfold group_field at 1. change (1 =? 1) with true. cbv iota.
    unfold osm_read_node, for_gen.
    rewrite pbuf_parse_tagvals_encode by exact Hfs. cbn [fst snd].
    assert (Hcopy : forall (l acc : list (Z * value)),
               for_list (fun vals tv => Ok (vals ++ [tv])) l acc = Ok (acc ++ l)).
    { induction l as [|x l IHl]; intros acc; cbn [for_list bind].
      - rewrite app_nil_r. reflexivity.
      - rewrite IHl, <- app_assoc. reflexivity. }
    rewrite Hcopy. cbn [bind app].
    rewrite IH by exact Hrest. rewrite <- app_assoc. reflexivity.
Qed.

(** X24. Nodes that are not dense. A group holds, in its fields 1, the
    messages of single nodes. [osm_read_group] returns for each of them the
    list of its fields as numbers and raw values, in order: nothing of such
    a node is decoded, and the string table is not consulted (there may be
    none). *)
Theorem osm_read_group_raw_nodes names (raws : list (list (Z * value))) :
  Forall (Forall encodable) raws ->
  osm_read_group
    (VBytes (encode_fields
               (map (fun fs : list (Z * value) => (1, VBytes (encode_fields fs))) raws)))
    names
  = Ok (map RawNode raws).
Proof.
  intros Hall. unfold osm_read_group, for_gen.
  rewrite pbuf_parse_tagvals_encode.
  - cbn [fst snd]. rewrite raw_nodes_loop by exact Hall. reflexivity.
  - apply Forall_map. apply Forall_forall. intros fs _. split; [cbn; lia | exact I].
Qed.

Lemma osm_read_group_raw_nodes_witness :
  encode_fields
    (map (fun fs : list (Z * value) => (1, VBytes (encode_fields fs)))
       [[(1, VInt 7); (8, VInt 20)]; []])
  = bytes_of [10; 4; 8; 7; 64; 20; 10; 0]
  /\ osm_read_group
       (VBytes (encode_fields
                  (map (fun fs : list (Z * value) => (1, VBytes (encode_fields fs)))
                     [[(1, VInt 7); (8, VInt 20)]; []])))
       None
     = Ok [RawNode [(1, VInt 7); (8, VInt 20)]; RawNode []].
Proof.
  split; [reflexivity|].
  apply (osm_read_group_raw_nodes None [[(1, VInt 7); (8, VInt 20)]; []]).
  repeat constructor; cbn; lia.
Defined.

(** ** Tags and the string table *)

Lemma tags_loop_zeros (gs : list Z) :
  forall ks,
    tags_loop None gs ks []
    = if forallb (Z.eqb 0) gs then Ok (ks ++ repeat [] (length gs), [])
      else Raise TypeError.
Proof.
  induction gs as [|i gs IH]; intros ks.
  - cbn. rewrite app_nil_r. reflexivity.
  - cbn [tags_loop forallb length repeat]. rewrite (Z.eqb_sym 0 i).
    destruct (i =? 0); cbn [andb].
    + rewrite IH. destruct (forallb (Z.eqb 0) gs); [|reflexivity].
      rewrite <- app_assoc. reflexivity.
    + reflexivity.
Qed.

(** X25. Tags without a string table. When no string table has been read
    ([names] is [None], as for a group that comes before field 1 of its
    block), the tag loop of [osm_read_dense_nodes] succeeds exactly on the
    tag runs made of sentinels only, with an empty tag list for each; at the
    first index that is not 0 it raises [TypeError]. *)
Theorem tags_loop_without_table (gs : list Z) :
  tags_loop None gs [] []
  = if forallb (Z.eqb 0) gs then Ok (repeat [] (length gs), [])
    else Raise TypeError.
Proof. apply (tags_loop_zeros gs []). Qed.

(** A key index at the end of the tag run. *)
Lemma tags_loop_dangling (names : list pystr) (runs : list (list (Z * Z))) (i : Z) :
  Forall (Forall (in_table (len names))) runs ->
  0 < i < len names ->
  tags_loop (Some names) (tag_run runs ++ [i]) [] [] = Raise StopIteration.
Proof.
  intros Hruns Hi.
  rewrite (tags_loop_app (Some names) (length (tag_run runs)) (tag_run runs) [i] [] []
             (map (map (tag_of (Some names))) runs) [] (le_n _)
             (tags_loop_in_table names runs Hruns)).
  cbn [tags_loop]. destruct (Z.eqb_spec i 0) as [E|_]; [lia|].
  destruct (subscript_in_range names i) as [k Hk]; [lia|].
  rewrite Hk. reflexivity.
Qed.

(** X26. A key index with no value index. In a dense message, the tag run
    ends, after well-formed runs, with one index of the string table that
    is not 0. [next(gs)] finds the iterator exhausted:
    [osm_read_dense_nodes] raises [StopIteration], which passes through
    [osm_read_group] and, on leaving the generator [osm_read_data_block],
    becomes a [RuntimeError]. [osm_enumerate_nodes] yields the nodes of the
    groups before and ends with that [RuntimeError]. *)
Theorem dangling_key_runtime_error (block : bytes) bpre g bpost bstatus groups
    (names : list pystr) gpre d gpost gstatus vals dpre v dpost dstatus st runs i :
  pbuf_parse_tagvals (VBytes block) = (bpre ++ (2, g) :: bpost, bstatus) ->
  yield_list block_field bpre None = (groups, Ok (Some names)) ->
  pbuf_parse_tagvals g = (gpre ++ (2, d) :: gpost, gstatus) ->
  for_list (group_field (Some names)) gpre [] = Ok vals ->
  pbuf_parse_tagvals d = (dpre ++ (10, v) :: dpost, dstatus) ->
  for_list (dense_field (Some names)) dpre dense_unbound = Ok st ->
  pbuf_parse_packed v = Ok (tag_run runs ++ [i]) ->
  Forall (Forall (in_table (len names))) runs ->
  0 < i < len names ->
  osm_read_dense_nodes d (Some names) = Raise StopIteration
  /\ osm_enumerate_nodes (PBytes block) = (nodes_of groups, Some RuntimeError).
Proof.
  intros Hb Hbpre Hg Hgpre Hd Hdpre Hv Hruns Hi.
  assert (Hdense : osm_read_dense_nodes d (Some names) = Raise StopIteration).
  { unfold osm_read_dense_nodes, for_gen. rewrite Hd. cbn [fst snd].
    rewrite (for_list_raises (dense_field (Some names)) dpre (10, v) dpost
               dense_unbound st StopIteration Hdpre); [reflexivity|].
    unfold dense_field. change (10 =? 1) with false. change (10 =? 8) with false.
    change (10 =? 9) with false. change (10 =? 10) with true. cbv iota.
    rewrite Hv. cbn [bind]. rewrite tags_loop_dangling by assumption. reflexivity. }
  split; [exact Hdense|].
  rewrite osm_enumerate_nodes_eq.
  rewrite (osm_read_data_block_raises block bpre g bpost bstatus groups (Some names)
             StopIteration Hb Hbpre).
  - reflexivity.
  - exact (osm_read_group_raises g (Some names) gpre d gpost gstatus vals StopIteration
             Hg Hgpre Hdense).
Qed.

Lemma dangling_key_runtime_error_witness :
  osm_enumerate_nodes
    (PBytes (encode_fields
               [(2, VBytes []);
                (1, VBytes (encode_stringtable
                              [[]; list_byte_of_string "amenity";
                               list_byte_of_string "cafe"]));
                (2, VBytes (encode_fields [(2, VBytes scenario_dense)]));
                (2, VBytes (encode_fields
                              [(2, VBytes (encode_fields
                                             [(1, VBytes (encode_packed_deltas [100]));
                                              (10, VBytes (encode_packed [1; 2; 0; 1]))]))]))]))
  = (scenario_nodes, Some RuntimeError).
Proof.
  apply (dangling_key_runtime_error _
           [(2, VBytes []);
            (1, VBytes (encode_stringtable
                          [[]; list_byte_of_string "amenity"; list_byte_of_string "cafe"]));
            (2, VBytes (encode_fields [(2, VBytes scenario_dense)]))]
           (VBytes (encode_fields
                      [(2, VBytes (encode_fields
                                     [(1, VBytes (encode_packed_deltas [100]));
                                      (10, VBytes (encode_packed [1; 2; 0; 1]))]))]))
           [] None [(2, []); (2, scenario_nodes)]
           [str ""; str "amenity"; str "cafe"]
           [] (VBytes (encode_fields
                         [(1, VBytes (encode_packed_deltas [100]));
                          (10, VBytes (encode_packed [1; 2; 0; 1]))]))
           [] None []
           [(1, VBytes (encode_packed_deltas [100]))]
           (VBytes (encode_packed [1; 2; 0; 1])) [] None
           {| ids := Some [100]; lats := None; lons := None; kvs := None |}
           [[(1, 2)]] 1);
    try (vm_compute; reflexivity).
  - repeat constructor; cbn; lia.
  - unfold len. cbn [length]. lia.
Defined.

(** ** The query *)

Lemma split_eq_none (k : pystr) : 61 ∉ k -> split_eq k = (k, None).
Proof.
  induction k as [|c k IH]; intros Hk; [reflexivity|].
  cbn [split_eq]. destruct (Z.eqb_spec c 61) as [->|_].
  - exfalso. apply Hk. left.
  - rewrite IH; [reflexivity|]. intros H. apply Hk. right. exact H.
Qed.

Lemma split_eq_some (k v : pystr) : 61 ∉ k -> split_eq (k ++ 61 :: v) = (k, Some v).
Proof.
  induction k as [|c k IH]; intros Hk; [reflexivity|].
  cbn [split_eq app]. destruct (Z.eqb_spec c 61) as [->|_].
  - exfalso. apply Hk. left.
  - rewrite IH; [reflexivity|]. intros H. apply Hk. right. exact H.
Qed.

Section QueryProperties.

Context {pattern : Type}.
Variable compile : pystr -> pattern.
Variable rmatch : pattern -> pystr -> bool.

Lemma compile_query_map (query : list pystr) :
  _compile_query compile query = map (query_pair compile) query.
Proof.
  unfold _compile_query.
  assert (H : forall acc,
             foldl (fun qs s => qs ++ [query_pair compile s]) acc query
             = acc ++ map (query_pair compile) query).
  { induction query as [|s query IH]; intros acc; cbn [foldl map].
    - rewrite app_nil_r. reflexivity.
    - rewrite IH, <- app_assoc. reflexivity. }
  apply (H []).
Qed.

(** X27. The pairs of a query. [_compile_query] returns one pair of
    patterns per string of the query, in order. A string is cut at its
    first '=': the key pattern is the text before it and the value pattern
    the text after it, further '=' signs included; a string without '='
    gives the value pattern [*]. *)
Theorem compile_query_pairs (qs1 qs2 : list pystr) (k v : pystr) :
  61 ∉ k ->
  _compile_query compile (qs1 ++ (k ++ 61 :: v) :: qs2)
  = _compile_query compile qs1 ++ (compile k, compile v) :: _compile_query compile qs2
  /\ _compile_query compile (qs1 ++ k :: qs2)
     = _compile_query compile qs1 ++ (compile k, compile (str "*"))
         :: _compile_query compile qs2.
Proof.
  intros Hk. rewrite !compile_query_map, !map_app. cbn [map].
  assert (Hcut : query_pair compile (k ++ 61 :: v) = (compile k, compile v))
    by (unfold query_pair; rewrite split_eq_some by exact Hk; reflexivity).
  assert (Hbare : query_pair compile k = (compile k, compile (str "*")))
    by (unfold query_pair; rewrite split_eq_none by exact Hk; reflexivity).
  rewrite Hcut, Hbare. split; reflexivity.
Qed.

(** The index that the loop over the query stops at. *)
Lemma query_loop_answers (query : list (pattern * pattern)) (kv : pystr * pystr) :
  forall q0 q,
    query_loop rmatch query q0 kv.1 kv.2 = Some q
    <-> exists i, q = (q0 + i)%nat /\ answers rmatch query i kv.
Proof.
  induction query as [|[rk rv] query IH]; intros q0 q; cbn [query_loop].
  - split; [discriminate|]. intros (i & _ & [(p & Hp & _) _]).
    rewrite lookup_nil in Hp. discriminate.
  - destruct (rmatch rk kv.1 && rmatch rv kv.2) eqn:Hm.
    + split.
      * intros H. inversion H; subst. exists 0%nat. split; [lia|]. split.
        -- exists (rk, rv). split; [reflexivity | exact Hm].
        -- intros i p Hi. lia.
      * intros (i & -> & [_ Hbefore]). destruct i as [|i]; [f_equal; lia|].
        specialize (Hbefore 0%nat (rk, rv) ltac:(lia) eq_refl).
        unfold pair_matches in Hbefore. cbn [fst snd] in Hbefore. congruence.
    + rewrite IH. split.
      * intros (i & -> & [(p & Hp & Hpm) Hbefore]). exists (S i). split; [lia|]. split.
        -- exists p. split; [exact Hp | exact Hpm].
        -- intros [|i'] p' Hi Hp'.
           ++ cbn in Hp'. inversion Hp'; subst. exact Hm.
           ++ apply (Hbefore i'); [lia | exact Hp'].
      * intros (i & -> & [(p & Hp & Hpm) Hbefore]). destruct i as [|i].
        -- cbn in Hp. inversion Hp; subst.
           unfold pair_matches in Hpm. cbn [fst snd] in Hpm. congruence.
        -- exists i. split; [lia|]. split.
           ++ exists p. split; [exact Hp | exact Hpm].
           ++ intros i' p' Hi Hp'. apply (Hbefore (S i')); [lia | exact Hp'].
Qed.

Lemma query_loop_matched (query : list (pattern * pattern)) (kv : pystr * pystr) :
  forall q0,
    matched rmatch query kv
    = match query_loop rmatch query q0 kv.1 kv.2 with Some _ => true | None => false end.
Proof.
  induction query as [|[rk rv] query IH]; intros q0; [reflexivity|].
  cbn [matched existsb query_loop]. unfold pair_matches at 1. cbn [fst snd].
  destruct (rmatch rk kv.1 && rmatch rv kv.2); [reflexivity|].
  cbn [orb]. apply IH.
Qed.

(** [match] and [seen] after the loop over the items of a node. *)
Lemma match_items (query : list (pattern * pattern)) (items : list (pystr * pystr)) :
  forall m (seen : gset nat),
    (foldl (match_item rmatch query) (m, seen) items).1
    = m ++ List.filter (matched rmatch query) items
    /\ forall q,
         q ∈ (foldl (match_item rmatch query) (m, seen) items).2
         <-> q ∈ seen \/ exists kv, kv ∈ items /\ answers rmatch query q kv.
Proof.
  induction items as [|kv items IH]; intros m seen.
  - cbn [foldl List.filter fst snd]. rewrite app_nil_r. split; [reflexivity|].
    intros q. split; [auto|]. intros [H|(kv & Hkv & _)]; [exact H|].
    apply elem_of_nil in Hkv. contradiction.
  - cbn [foldl List.filter]. unfold match_item at 2 4.
    rewrite (query_loop_matched query kv 0).
    destruct (query_loop rmatch query 0 kv.1 kv.2) as [q1|] eqn:Hq.
    + destruct (IH (m ++ [kv]) ({[q1]} ∪ seen)) as [IH1 IH2]. cbn [fst snd] in *.
      split; [rewrite IH1, <- app_assoc; reflexivity|].
      intros q. rewrite IH2. split.
      * intros [H|(kv' & Hkv' & Ha)].
        -- apply elem_of_union in H. destruct H as [H|H]; [|left; exact H].
           apply elem_of_singleton in H. subst q1. right. exists kv.
           split; [left|].
           apply (query_loop_answers query kv 0 q) in Hq.
           destruct Hq as (i & -> & Ha). exact Ha.
        -- right. exists kv'. split; [right; exact Hkv' | exact Ha].
      * intros [H|(kv' & Hkv' & Ha)].
        -- left. apply elem_of_union. right. exact H.
        -- apply elem_of_cons in Hkv'. destruct Hkv' as [->|Hkv'].
           ++ left. apply elem_of_union. left. apply elem_of_singleton.
              assert (Hq' : query_loop rmatch query 0 kv.1 kv.2 = Some q)
                by (apply query_loop_answers; exists q; split; [reflexivity | exact Ha]).
              congruence.
           ++ right. exists kv'. split; assumption.
    + destruct (IH m seen) as [IH1 IH2]. split; [exact IH1|].
      intros q. rewrite IH2. split.
      * intros [H|(kv' & Hkv' & Ha)]; [left; exact H|].
        right. exists kv'. split; [right; exact Hkv' | exact Ha].
      * intros [H|(kv' & Hkv' & Ha)]; [left; exact H|].
        apply elem_of_cons in Hkv'. destruct Hkv' as [->|Hkv'].
        -- assert (Hq' : query_loop rmatch query 0 kv.1 kv.2 = Some q)
             by (apply query_loop_answers; exists q; split; [reflexivity | exact Ha]).
           congruence.
        -- right. exists kv'. split; assumption.
Qed.

Lemma answers_lt (query : list (pattern * pattern)) q kv :
  answers rmatch query q kv -> (q < length query)%nat.
Proof. intros [(p & Hp & _) _]. eapply lookup_lt_Some. exact Hp. Qed.

(** What [_node_match] returns on a node of a dense message whose id
    [str] converts. *)
Lemma node_match_dense (id lat lon : Z) (kvs : list (pystr * pystr))
    (query : list (pattern * pattern)) (nid : pystr) :
  str_int id = Ok nid ->
  (_node_match rmatch (DenseNode id lat lon kvs) query
   = Ok (Some (List.filter (matched rmatch query) ((str "id", nid) :: kvs)))
   /\ forall q, (q < length query)%nat ->
        exists kv, kv ∈ (str "id", nid) :: kvs /\ answers rmatch query q kv)
  \/ (_node_match rmatch (DenseNode id lat lon kvs) query = Ok None
      /\ exists q, (q < length query)%nat
           /\ forall kv, kv ∈ (str "id", nid) :: kvs -> ~ answers rmatch query q kv).
Proof.
  intros Hid. unfold _node_match. rewrite Hid. cbn [bind].
  change (foldl (match_item rmatch query)
            (match_item rmatch query ([], ∅) (str "id", nid)) kvs)
    with (foldl (match_item rmatch query) ([], ∅) ((str "id", nid) :: kvs)).
  set (items := (str "id", nid) :: kvs).
  destruct (match_items query items [] ∅) as [H1 H2].
  set (st := foldl (match_item rmatch query) ([], ∅) items) in *.
  cbv zeta. cbn [app] in H1.
  assert (Hsub : st.2 ⊆ set_seq 0 (length query)).
  { intros q Hq. apply H2 in Hq. destruct Hq as [Hq|(kv & _ & Ha)].
    - apply elem_of_empty in Hq. contradiction.
    - apply elem_of_set_seq. apply answers_lt in Ha. lia. }
  destruct (bool_decide (size st.2 = length query)) eqn:Hsize.
  - left. apply bool_decide_eq_true in Hsize. split; [rewrite H1; reflexivity|].
    intros q Hq.
    assert (Heq : st.2 = set_seq 0 (length query)).
    { apply set_subseteq_size_eq; [exact Hsub|]. rewrite size_set_seq. lia. }
    assert (Hin : q ∈ st.2) by (rewrite Heq; apply elem_of_set_seq; lia).
    apply H2 in Hin. destruct Hin as [Hin|Hin]; [|exact Hin].
    apply elem_of_empty in Hin. contradiction.
  - right. apply bool_decide_eq_false in Hsize. split; [reflexivity|].
    destruct (decide (set_seq 0 (length query) ⊆ st.2)) as [Hall|Hnot].
    + exfalso. apply Hsize.
      assert (Heq : st.2 = set_seq 0 (length query))
        by (apply set_eq; intros x; split; [apply Hsub | apply Hall]).
      rewrite Heq. apply size_set_seq.
    + assert (Hex : exists q, q ∈ (set_seq 0 (length query) : gset nat) /\ q ∉ st.2).
      { destruct (decide (set_seq 0 (length query) ∖ st.2 = (∅ : gset nat))) as [E|E].
        - exfalso. apply Hnot. intros x Hx.
          destruct (decide (x ∈ st.2)) as [Hin|Hout]; [exact Hin|].
          assert (Hd : x ∈ (set_seq 0 (length query) ∖ st.2 : gset nat))
            by (apply elem_of_difference; split; assumption).
          rewrite E in Hd. apply elem_of_empty in Hd. contradiction.
        - apply set_choose_L in E. destruct E as [q Hq].
          apply elem_of_difference in Hq. exists q. exact Hq. }
      destruct Hex as (q & Hq & Hout). exists q.
      apply elem_of_set_seq in Hq. split; [lia|].
      intros kv Hkv Ha. apply Hout. apply H2. right. exists kv. split; assumption.
Qed.

(** On a node of a dense message, [_node_match] raises what [str] raises on
    the id, and nothing else. *)
Lemma node_match_dense_raises (id lat lon : Z) (kvs : list (pystr * pystr))
    (query : list (pattern * pattern)) (e : exn) :
  _node_match rmatch (DenseNode id lat lon kvs) query = Raise e
  <-> str_int id = Raise e.
Proof.
  unfold _node_match. destruct (str_int id) as [nid|ex]; cbn [bind].
  - cbv zeta.
    destruct (bool_decide _); split; discriminate.
  - split; intros H; inversion H; reflexivity.
Qed.

Lemma str_int_raises (id : Z) (e : exn) :
  str_int id = Raise e <-> 10 ^ max_str_digits <= Z.abs id /\ e = ValueError.
Proof.
  unfold str_int. destruct (Z.leb_spec (10 ^ max_str_digits) (Z.abs id)) as [Hle|Hlt].
  - split.
    + intros H. inversion H; subst. split; [exact Hle | reflexivity].
    + intros [_ ->]. reflexivity.
  - split; [discriminate|]. intros [Hle _]. lia.
Qed.

(** X28. When a node of a dense message answers the query. [_node_match]
    first converts the id with [str], which raises [ValueError] on an id of
    more than 4300 digits; this is all that [_node_match] raises on such a
    node. Otherwise it returns a match exactly when every pair of the query
    is, for some item of the node (its id under the key 'id', or one of its
    tags), the first pair that matches this item; a pair that only matches
    items that an earlier pair matches too is never counted. The match
    returned is then the list of the items that some pair matches, the id
    first and the tags in their order. *)
Theorem node_match_dense_answers (id lat lon : Z) (kvs : list (pystr * pystr))
    (query : list (pattern * pattern)) :
  (forall m,
     _node_match rmatch (DenseNode id lat lon kvs) query = Ok (Some m)
     <-> exists nid,
           str_int id = Ok nid
           /\ m = List.filter (matched rmatch query) ((str "id", nid) :: kvs)
           /\ forall q, (q < length query)%nat ->
                exists kv, kv ∈ (str "id", nid) :: kvs /\ answers rmatch query q kv)
  /\ (forall e,
        _node_match rmatch (DenseNode id lat lon kvs) query = Raise e
        <-> 10 ^ max_str_digits <= Z.abs id /\ e = ValueError).
Proof.
  split.
  - intros m. destruct (str_int id) as [nid|ex] eqn:Hid.
    + destruct (node_match_dense id lat lon kvs query nid Hid)
        as [[Hm Hall]|[Hm (q & Hq & Hnone)]]; rewrite Hm; split.
      * intros H. inversion H; subst. exists nid.
        split; [reflexivity|]. split; [reflexivity | exact Hall].
      * intros (nid' & Hnid & -> & _). inversion Hnid; subst. reflexivity.
      * discriminate.
      * intros (nid' & Hnid & _ & Hall). inversion Hnid; subst.
        destruct (Hall q Hq) as (kv & Hkv & Ha).
        exfalso. exact (Hnone kv Hkv Ha).
    + rewrite (proj2 (node_match_dense_raises id lat lon kvs query ex) Hid).
      split; [discriminate|]. intros (nid & Hnid & _). discriminate.
  - intros e. rewrite node_match_dense_raises. apply str_int_raises.
Qed.

(** X29. A query string given twice. When the same string stands at two
    places of the query, [_node_match] returns a match for no node of a
    dense message: the second of the two pairs is never the first pair that
    matches an item. It returns nothing, after [str] has converted the id
    (or raised [ValueError] on an id of more than 4300 digits). *)
Theorem duplicate_query_never_matches (qs : list pystr) (i j : nat) (s : pystr)
    (id lat lon : Z) (kvs : list (pystr * pystr)) :
  qs !! i = Some s -> qs !! j = Some s -> i <> j ->
  _node_match rmatch (DenseNode id lat lon kvs) (_compile_query compile qs)
  = (let* _ := str_int id in Ok None).
Proof.
  intros Hi Hj Hne.
  assert (Hlt : exists a b, (a < b)%nat /\ qs !! a = Some s /\ qs !! b = Some s).
  { destruct (Nat.lt_total i j) as [H|[H|H]]; [| contradiction |].
    - exists i, j. auto.
    - exists j, i. auto. }
  clear i j Hi Hj Hne. destruct Hlt as (a & b & Hab & Ha & Hb).
  destruct (str_int id) as [nid|ex] eqn:Hid; cbn [bind].
  - destruct (node_match_dense id lat lon kvs (_compile_query compile qs) nid Hid)
      as [[_ Hall]|[Hm _]]; [|exact Hm].
    exfalso. rewrite compile_query_map in Hall.
    assert (Hqa : map (query_pair compile) qs !! a = Some (query_pair compile s))
      by (rewrite list_lookup_fmap, Ha; reflexivity).
    assert (Hqb : map (query_pair compile) qs !! b = Some (query_pair compile s))
      by (rewrite list_lookup_fmap, Hb; reflexivity).
    destruct (Hall b) as (kv & _ & [(p & Hp & Hpm) Hbefore]).
    + apply lookup_lt_Some in Hqb. exact Hqb.
    + rewrite Hqb in Hp. inversion Hp; subst p.
      rewrite (Hbefore a _ Hab Hqa) in Hpm. discriminate.
  - apply node_match_dense_raises. exact Hid.
Qed.

Section Limit.

Variable decompress : bytes -> option bytes.

Lemma match_loop_limit_below (query : list (pattern * pattern)) (n : Z)
    (nodes : list node) :
  match_loop rmatch query (Some (Z.min n 1)) nodes 0
  = match_loop rmatch query (Some 1) nodes 0.
Proof.
  induction nodes as [|nd nodes IH]; [reflexivity|].
  cbn [match_loop]. destruct (_node_match rmatch nd query) as [[m|]|e];
    [|exact IH|reflexivity].
  cbn [limit_reached]. change (0 + 1) with 1.
  replace (Z.min n 1 <=? 1) with true by (symmetry; apply Z.leb_le; lia).
  reflexivity.
Qed.

Lemma match_loop_limit_bound (query : list (pattern * pattern)) (n : Z)
    (nodes : list node) :
  forall count,
    (length (match_loop rmatch query (Some n) nodes count).1
     <= Z.to_nat (Z.max 1 (n - count)))%nat.
Proof.
  induction nodes as [|nd nodes IH]; intros count.
  - cbn. lia.
  - cbn [match_loop]. destruct (_node_match rmatch nd query) as [[m|]|e].
    + cbn [limit_reached]. destruct (Z.leb_spec n (count + 1)) as [Hle|Hgt].
      * cbn [fst length]. lia.
      * specialize (IH (count + 1)).
        destruct (match_loop rmatch query (Some n) nodes (count + 1)) as [out r].
        cbn [fst length] in *. lia.
    + apply IH.
    + cbn. lia.
Qed.

(** X30. The limit on the number of matches. With the limit [n], [main]
    prints at most [n] nodes, and at most one when [n] is below 1: the
    limit is compared with the count after a match has been counted and
    printed, so that every limit below 1, 0 included, behaves as the limit
    1. *)
Theorem main_limit (query : list pystr) (n : Z) (file : bytes) :
  (length (main_matches compile rmatch decompress query (Some n) file).1
   <= Z.to_nat (Z.max 1 n))%nat
  /\ main_matches compile rmatch decompress query (Some (Z.min n 1)) file
     = main_matches compile rmatch decompress query (Some 1) file.
Proof.
  split.
  - unfold main_matches.
    pose proof (match_loop_limit_bound (_compile_query compile query) n
                  (main_nodes decompress file).1 0) as H.
    destruct (match_loop rmatch (_compile_query compile query) (Some n)
                (main_nodes decompress file).1 0) as [out r].
    cbn [fst] in *. replace (n - 0) with n in H by lia. exact H.
  - unfold main_matches. rewrite match_loop_limit_below. reflexivity.
Qed.

End Limit.

End QueryProperties.

Lemma compile_query_pairs_witness :
  _compile_query (fun s : pystr => s) [str "name"; str "a=b=c"]
  = [(str "name", str "*"); (str "a", str "b=c")].
Proof.
  pose proof (compile_query_pairs (fun s : pystr => s) [str "name"] [] (str "a") (str "b=c"))
    as [H _].
  - intros H. apply (list_elem_of_singleton 61 97) in H. discriminate H.
  - exact H.
Defined.

Lemma duplicate_query_never_matches_witness :
  _node_match literal_match (DenseNode 100 10 20 [(str "amenity", str "cafe")])
    (_compile_query (fun s : pystr => s) [str "amenity=cafe"])
  = Ok (Some [(str "amenity", str "cafe")])
  /\ _node_match literal_match (DenseNode 100 10 20 [(str "amenity", str "cafe")])
       (_compile_query (fun s : pystr => s) [str "amenity=cafe"; str "amenity=cafe"])
     = Ok None.
Proof.
  split; [vm_compute; reflexivity|].
  apply (duplicate_query_never_matches (fun s : pystr => s) literal_match
           [str "amenity=cafe"; str "amenity=cafe"] 0 1 (str "amenity=cafe")).
  - reflexivity.
  - reflexivity.
  - discriminate.
Defined.
